(** * GEMstack mission executor: a shallow embedding of
      [GEMstack/onboard/execution/execution.py]

    The development follows the source file from top to bottom:
    - the Python values the executor manipulates (exceptions, [str.format],
      ordered dictionaries);
    - the computation graph ([normalize_computation_graph],
      [load_computation_graph]) and its validator ([validate_components]);
    - [ComponentExecutor] ([update], [_do_update], [update_now], [healthy]);
    - [ExecutorBase] ([make_component], [run], [validate_sensors],
      [run_until_switch], [update_components]).

    Times are IEEE binary64 numbers, as Python floats are, and are modelled by
    Rocq's primitive floats.  The components, the vehicle interface and the
    subclass hooks are external code: their answers are drawn from an oracle
    indexed by the number of external calls made so far. *)

From Stdlib Require Import PrimFloat ZArith Ascii String.
From stdpp Require Import gmap strings list.

Local Open Scope string_scope.
Local Open Scope list_scope.
#[local] Set Warnings "-clear-no-such-hyp".

(** ** Python exceptions *)

Inductive PyExn : Type :=
| KeyboardInterrupt
| AssertionError (msg : string)
| ValueError (msg : string)
| IndexError (msg : string)
| KeyError (key : string)
| TypeError (msg : string)
| AttributeError (attr : string)
| RuntimeError (msg : string)
| ImportError (msg : string)
| UserException (cls : string) (msg : string).

(** [except Exception] catches every class modelled here but
    [KeyboardInterrupt], which derives from [BaseException] only. *)
Definition is_Exception (e : PyExn) : bool :=
  match e with
  | KeyboardInterrupt => false
  | _ => true
  end.

(** Result of a pure Python function that may raise. *)
Inductive Py (A : Type) : Type :=
| Val (a : A)
| Exc (e : PyExn).
Arguments Val {A} a.
Arguments Exc {A} e.

Definition py_bind {A B} (m : Py A) (f : A → Py B) : Py B :=
  match m with
  | Val a => f a
  | Exc e => Exc e
  end.

Definition py_assert (b : bool) (msg : string) : Py unit :=
  if b then Val tt else Exc (AssertionError msg).

(** ** [str.format]

    The executor's print helpers call [format.format( *args )].  The
    templates of the source use only the automatic field [{}]; a doubled
    brace is an escaped brace.  A field needs an argument: with none left the
    call raises [IndexError] (a named field raises [KeyError], a lone brace
    [ValueError]).  [py_format fmt n] tells whether the call returns, for a
    template [fmt] and [n] positional arguments; the rendered text itself is
    not modelled. *)

Fixpoint py_format (fmt : string) (nargs : nat) : bool :=
  match fmt with
  | EmptyString => true
  | String c rest =>
      if decide (c = "{"%char) then
        match rest with
        | String c' rest' =>
            if decide (c' = "{"%char) then py_format rest' nargs
            else if decide (c' = "}"%char) then
              match nargs with
              | O => false
              | S n => py_format rest' n
              end
            else false
        | EmptyString => false
        end
      else if decide (c = "}"%char) then
        match rest with
        | String c' rest' =>
            if decide (c' = "}"%char) then py_format rest' nargs else false
        | EmptyString => false
        end
      else py_format rest nargs
  end.

(** The exception [str.format] raises when it does not return. *)
Definition format_error : PyExn :=
  IndexError "Replacement index out of range for positional args tuple".

(** ** Ordered dictionaries

    A Python [dict] keeps insertion order, and assigning to a key that is
    present keeps the key's position. *)

Section PyDict.
Context {V : Type}.

Fixpoint dict_get (d : list (string * V)) (k : string) : option V :=
  match d with
  | [] => None
  | (k', v) :: d' => if decide (k' = k) then Some v else dict_get d' k
  end.

Definition dict_mem (d : list (string * V)) (k : string) : bool :=
  match dict_get d k with Some _ => true | None => false end.

Fixpoint dict_set (d : list (string * V)) (k : string) (v : V) : list (string * V) :=
  match d with
  | [] => [(k, v)]
  | (k', v') :: d' =>
      if decide (k' = k) then (k, v) :: d' else (k', v') :: dict_set d' k v
  end.

Definition dict_keys (d : list (string * V)) : list string := d.*1.
Definition dict_values (d : list (string * V)) : list V := d.*2.
End PyDict.

(** ** The computation graph *)

(** The value of one component entry: its [inputs] and [outputs] lists. *)
Record CSettings : Type := {
  cs_inputs : list string;
  cs_outputs : list string;
}.

(** What the settings file may hold under the key [inputs] or [outputs] of an
    entry: nothing, a string, [None] (YAML null) or a list. *)
Inductive FieldDecl : Type :=
| FMissing
| FStr (s : string)
| FNull
| FList (l : list string).

Record EntryBody : Type := {
  eb_inputs : FieldDecl;
  eb_outputs : FieldDecl;
}.

(** One element of [run.computation_graph.components]: a string, a
    dictionary (its items, each value being a dictionary or not), or
    anything else. *)
Inductive GraphEntry : Type :=
| GStr (name : string)
| GDict (items : list (string * option EntryBody))
| GOther.

Definition normalize_field (f : FieldDecl) : list string :=
  match f with
  | FMissing => []
  | FStr s => [s]
  | FNull => []
  | FList l => l
  end.

Definition normalize_entry (c : GraphEntry) : Py (string * CSettings) :=
  match c with
  | GStr name => Val (name, {| cs_inputs := []; cs_outputs := [] |})
  | GOther => Exc (AssertionError "Component is not a string or dict")
  | GDict items =>
      match items with
      | [(k, v)] =>
          match v with
          | None => Exc (AssertionError "Component value is not a string or dict")
          | Some body =>
              Val (k, {| cs_inputs := normalize_field (eb_inputs body);
                         cs_outputs := normalize_field (eb_outputs body) |})
          end
      | _ => Exc (AssertionError "Component dict has more than one key")
      end
  end.

Fixpoint normalize_computation_graph (components : list GraphEntry)
  : Py (list (string * CSettings)) :=
  match components with
  | [] => Val []
  | c :: rest =>
      py_bind (normalize_entry c) (λ n,
      py_bind (normalize_computation_graph rest) (λ ns, Val (n :: ns)))
  end.

(** [dict(pairs)]: a later pair overwrites an earlier one with the same key. *)
Definition py_dict_of {V} (pairs : list (string * V)) : gmap string V :=
  foldl (λ m p, <[p.1 := p.2]> m) ∅ pairs.

(** The three module globals set by [load_computation_graph]. *)
Record Graph : Type := {
  COMPONENTS : list (string * CSettings);
  COMPONENT_ORDER : list string;
  COMPONENT_SETTINGS : gmap string CSettings;
}.

Definition load_computation_graph (setting : list GraphEntry) : Py Graph :=
  py_bind (normalize_computation_graph setting) (λ cs,
    Val {| COMPONENTS := cs;
           COMPONENT_ORDER := cs.*1;
           COMPONENT_SETTINGS := py_dict_of cs |}).

(** ** [make_class] (source lines 85-141): the module and the class *)

(** [s.rsplit('.', 1)] of a string that holds a dot: the text before the
    last dot and the text after it; [None] for a string without a dot. *)
Fixpoint rsplit_dot (s : string) : option (string * string) :=
  match s with
  | EmptyString => None
  | String c rest =>
      match rsplit_dot rest with
      | Some (module, class_name) => Some (String c module, class_name)
      | None => if decide (c = "."%char) then Some (EmptyString, rest) else None
      end
  end.

(** What [make_class] reads of a configuration to find the class: the
    string itself, or the keys [type] and [module] of the dictionary. *)
Inductive ClassInfo : Type :=
| ClassStr (s : string)
| ClassDict (type : option string) (module : option string).

(** The head of [make_class] (source lines 108-121): the module to import
    and the attribute to read from it. *)
Definition make_class_target (config_info : ClassInfo) (component_module : string)
  : Py (string * string) :=
  match config_info with
  | ClassStr s =>
      match rsplit_dot s with
      | Some (component_module, class_name) => Val (component_module, class_name)
      | None => Val (component_module, s)
      end
  | ClassDict type module =>
      match type with
      | None => Exc (KeyError "type")
      | Some class_name =>
          let '(component_module, class_name) :=
            match rsplit_dot class_name with
            | Some (component_module, class_name) => (component_module, class_name)
            | None => (component_module, class_name)
            end in
          Val (match module with
               | Some m => m
               | None => component_module
               end, class_name)
      end
  end.

(** ** [log_output]: the lines of the captured text (source lines 314-316) *)

Definition LF : ascii := "010"%char.

(** [text.split('\n')] *)
Fixpoint split_lines (text : string) : list string :=
  match text with
  | EmptyString => [EmptyString]
  | String c rest =>
      if decide (c = LF) then EmptyString :: split_lines rest
      else
        match split_lines rest with
        | [] => [String c EmptyString]
        | l :: ls => String c l :: ls
        end
  end.

(** The lines [log_output] prints and logs: the last one is dropped when it
    is empty. *)
Definition captured_lines (text : string) : list string :=
  let lines := split_lines text in
  match last lines with
  | Some l =>
      if Nat.ltb 0 (length lines) && Nat.eqb (String.length l) 0
      then take (length lines - 1) lines
      else lines
  | None => lines
  end.

(** ** Components *)

(** What the executor reads from a component object without running it:
    its class name and the answers of [state_inputs()], [state_outputs()]
    and [rate()]. *)
Record Component : Type := {
  c_class : string;
  c_state_inputs : list string;
  c_state_outputs : list string;
  c_rate : option float;
}.

(** ** [validate_components] *)

Section Validate.
Variable G : Graph.

(** The loop over [inputs] (source lines 160-168). *)
Fixpoint check_inputs (k : string) (possible_inputs : list string)
    (provided_all : bool) (provided : gset string) (inputs : list string)
  : Py unit :=
  match inputs with
  | [] => Val tt
  | i :: rest =>
      py_bind
        (if decide (i = "all") then
           py_assert (bool_decide (possible_inputs = ["all"]))
             ("Component " +:+ k +:+ " inputs are not provided by previous components")
         else
           py_bind
             (py_assert (provided_all || bool_decide (i ∈ provided))
                ("Component " +:+ k +:+ " input " +:+ i +:+ " is not provided by previous components"))
             (λ _,
                if bool_decide (possible_inputs ≠ ["all"]) then
                  py_assert (bool_decide (i ∈ possible_inputs))
                    ("Component " +:+ k +:+ " is not supposed to receive input " +:+ i)
                else Val tt))
        (λ _, check_inputs k possible_inputs provided_all provided rest)
  end.

(** The loop over [required_outputs] (source lines 170-174). *)
Fixpoint check_required_outputs (k : string) (outputs : list string)
    (required_outputs : list string) : Py unit :=
  match required_outputs with
  | [] => Val tt
  | o :: rest =>
      py_bind
        (if decide (o = "all") then
           py_assert (bool_decide (outputs = ["all"]))
             ("Component " +:+ k +:+ " outputs are not provided by previous components")
         else
           py_assert (bool_decide (o ∈ outputs))
             ("Component " +:+ k +:+ " doesn't output required output " +:+ o))
        (λ _, check_required_outputs k outputs rest)
  end.

(** The loop over [outputs] (source lines 175-181). *)
Fixpoint add_outputs (outputs : list string) (provided : gset string)
    (provided_all : bool) : gset string * bool :=
  match outputs with
  | [] => (provided, provided_all)
  | o :: rest =>
      if decide ("all" ≠ o) then add_outputs rest ({[o]} ∪ provided) provided_all
      else add_outputs rest provided true
  end.

(** The loop over [COMPONENT_ORDER] (source lines 152-181). *)
Fixpoint validate_walk (components : list (string * Component))
    (order : list string) (provided : gset string) (provided_all : bool)
  : Py (gset string) :=
  match order with
  | [] => Val provided
  | k :: rest =>
      match dict_get components k with
      | None => validate_walk components rest provided provided_all
      | Some c =>
          match COMPONENT_SETTINGS G !! k with
          | None => Exc (KeyError k)
          | Some s =>
              py_bind (check_inputs k (cs_inputs s) provided_all provided
                         (c_state_inputs c)) (λ _,
              py_bind (check_required_outputs k (c_state_outputs c)
                         (cs_outputs s)) (λ _,
              let '(provided', provided_all') :=
                add_outputs (c_state_outputs c) provided provided_all in
              validate_walk components rest provided' provided_all'))
          end
      end
  end.

(** The final loop over [components.items()] (source lines 182-184). *)
Fixpoint check_known (names : list string) : Py unit :=
  match names with
  | [] => Val tt
  | k :: rest =>
      py_bind
        (py_assert (bool_decide (is_Some (COMPONENT_SETTINGS G !! k)))
           ("Component " +:+ k +:+ " is not known"))
        (λ _, check_known rest)
  end.

(** [provided] is [None] for the default argument.  The function returns
    [list(provided)], a list in the arbitrary order of a Python set: the
    set itself is returned here.  The diagnostic prints (fixed templates
    with all their arguments) are left out. *)
Definition validate_components (components : list (string * Component))
    (provided : option (list string)) : Py (gset string) :=
  let provided0 : gset string :=
    match provided with
    | None => ∅
    | Some l => list_to_set l
    end in
  py_bind (validate_walk components (COMPONENT_ORDER G) provided0 false) (λ out,
  py_bind (check_known (dict_keys components)) (λ _, Val out)).
End Validate.

(** ** The blackboard *)

(** Modelled from the spec: [MissionEnum] is defined in [GEMstack/state],
    outside this file; the spec calls it a closed enumeration including at
    least [IDLE] and [RECOVERY_STOP]. *)
Inductive MissionEnum : Type :=
| IDLE
| RECOVERY_STOP
| MissionOther (tag : nat).

(** The Python values that travel between the components and the
    blackboard.  [VMission] is the mission record, of which only the [type]
    attribute is modelled. *)
#[warnings="-register-all"]
Inductive Value : Type :=
| VNone
| VInt (z : Z)
| VFloat (f : float)
| VStr (s : string)
| VSeq (items : list Value)
| VMission (type : MissionEnum).

(** [AllState] is a dataclass instance: [getattr] and [setattr] by name.  A
    name that is absent from the map is an attribute the object lacks. *)
Abbreviation AllState := (gmap string Value).

(** [len(res)]: sequences and strings have a length, the other values raise
    [TypeError]. *)
Definition py_len (v : Value) : option nat :=
  match v with
  | VSeq items => Some (length items)
  | VStr s => Some (String.length s)
  | _ => None
  end.

Fixpoint string_chars (s : string) : list Value :=
  match s with
  | EmptyString => []
  | String c rest => VStr (String c EmptyString) :: string_chars rest
  end.

(** The elements [zip] iterates over. *)
Definition py_iter (v : Value) : list Value :=
  match v with
  | VSeq items => items
  | VStr s => string_chars s
  | _ => []
  end.

(** ** Executor objects *)

(** The attributes of a [ComponentExecutor] (source lines 222-237).
    [ex_multiprocess] tells an [MPComponentExecutor] apart, and
    [ex_debugger] whether [set_debugger] gave the component a
    [ChildDebugger]. *)
Record ComponentExecutor : Type := {
  ex_c : Component;
  ex_essential : bool;
  ex_do_debug : bool;
  ex_print_stdout : bool;
  ex_print_stderr : bool;
  ex_inputs : list string;
  ex_output : list string;
  ex_last_update_time : option float;
  ex_next_update_time : option float;
  ex_had_exception : bool;
  ex_dt : float;
  ex_num_overruns : Z;
  ex_overrun_amount : float;
  ex_multiprocess : bool;
  ex_debugger : bool;
}.

Definition with_had_exception (b : bool) (e : ComponentExecutor) : ComponentExecutor :=
  {| ex_c := ex_c e; ex_essential := ex_essential e; ex_do_debug := ex_do_debug e;
     ex_print_stdout := ex_print_stdout e; ex_print_stderr := ex_print_stderr e;
     ex_inputs := ex_inputs e; ex_output := ex_output e;
     ex_last_update_time := ex_last_update_time e;
     ex_next_update_time := ex_next_update_time e;
     ex_had_exception := b; ex_dt := ex_dt e;
     ex_num_overruns := ex_num_overruns e; ex_overrun_amount := ex_overrun_amount e;
     ex_multiprocess := ex_multiprocess e; ex_debugger := ex_debugger e |}.

(** The scheduling attributes written by [update]. *)
Definition with_schedule (last next : option float) (overruns : Z) (amount : float)
    (e : ComponentExecutor) : ComponentExecutor :=
  {| ex_c := ex_c e; ex_essential := ex_essential e; ex_do_debug := ex_do_debug e;
     ex_print_stdout := ex_print_stdout e; ex_print_stderr := ex_print_stderr e;
     ex_inputs := ex_inputs e; ex_output := ex_output e;
     ex_last_update_time := last;
     ex_next_update_time := next;
     ex_had_exception := ex_had_exception e; ex_dt := ex_dt e;
     ex_num_overruns := overruns; ex_overrun_amount := amount;
     ex_multiprocess := ex_multiprocess e; ex_debugger := ex_debugger e |}.

(** [ComponentExecutor.__init__] (source lines 222-237); [1.0/rate] raises
    [ZeroDivisionError] for a zero rate, which [None] stands for. *)
Definition new_executor (c : Component) (multiprocess : bool) : option ComponentExecutor :=
  let dt :=
    match c_rate c with
    | Some rate => if PrimFloat.eqb rate 0 then None else Some (PrimFloat.div 1 rate)
    | None => Some 0%float
    end in
  match dt with
  | None => None
  | Some dt =>
      Some {| ex_c := c; ex_essential := true; ex_do_debug := true;
              ex_print_stdout := true; ex_print_stderr := false;
              ex_inputs := c_state_inputs c; ex_output := c_state_outputs c;
              ex_last_update_time := None; ex_next_update_time := None;
              ex_had_exception := false; ex_dt := dt;
              ex_num_overruns := 0; ex_overrun_amount := 0%float;
              ex_multiprocess := multiprocess; ex_debugger := false |}
  end.

(** ** Events

    What the executor does to the outside world, in the order it does it.
    [EvUpdate a seen] is the call of the component's [update], with the
    blackboard as the component finds it. *)
Inductive Event : Type :=
| EvPrint (fmt : string)
| EvStderr (fmt : string)
| EvMakeClass (identifier : string)
| EvInitialize (a : nat)
| EvCleanup (a : nat)
| EvUpdate (a : nat) (seen : AllState)
| EvCaptured (a : nat) (stream : string) (text : string)
| EvLogUpdate (k : string)
| EvEvent (description : string)
| EvExit (description : string)
| EvPipelineStart (name : string)
| EvBegin
| EvEnd
| EvLogClose.

(** ** The world *)

(** A phase of a pipeline: component name to executor reference. *)
Abbreviation Phase := (list (string * nat)).

(** The executor objects live in a store and are named by their address:
    the same executor may sit in several pipelines and in [all_components].
    The other fields are the attributes of [ExecutorBase] (source lines
    342-353), [replayed_components] and [rosbag_player] of its logging
    manager, and the module global [LOGGING_MANAGER] (set or [None]). *)
Record World : Type := {
  w_calls : nat;
  w_trace : list Event;
  w_heap : nat → ComponentExecutor;
  w_next : nat;
  all_components : list (string * nat);
  always_run_components : Phase;
  pipelines : list (string * (Phase * Phase * Phase));
  current_pipeline : string;
  state : AllState;
  last_loop_time : float;
  last_hardware_faults : list string;
  replayed_components : list string;
  rosbag_player : bool;
  LOGGING_MANAGER : bool;
}.

Definition with_calls (n : nat) (w : World) : World :=
  {| w_calls := n; w_trace := w_trace w; w_heap := w_heap w; w_next := w_next w;
     all_components := all_components w;
     always_run_components := always_run_components w;
     pipelines := pipelines w; current_pipeline := current_pipeline w;
     state := state w; last_loop_time := last_loop_time w;
     last_hardware_faults := last_hardware_faults w;
     replayed_components := replayed_components w;
     rosbag_player := rosbag_player w; LOGGING_MANAGER := LOGGING_MANAGER w |}.

Definition with_trace (tr : list Event) (w : World) : World :=
  {| w_calls := w_calls w; w_trace := tr; w_heap := w_heap w; w_next := w_next w;
     all_components := all_components w;
     always_run_components := always_run_components w;
     pipelines := pipelines w; current_pipeline := current_pipeline w;
     state := state w; last_loop_time := last_loop_time w;
     last_hardware_faults := last_hardware_faults w;
     replayed_components := replayed_components w;
     rosbag_player := rosbag_player w; LOGGING_MANAGER := LOGGING_MANAGER w |}.

Definition with_heap (h : nat → ComponentExecutor) (n : nat) (w : World) : World :=
  {| w_calls := w_calls w; w_trace := w_trace w; w_heap := h; w_next := n;
     all_components := all_components w;
     always_run_components := always_run_components w;
     pipelines := pipelines w; current_pipeline := current_pipeline w;
     state := state w; last_loop_time := last_loop_time w;
     last_hardware_faults := last_hardware_faults w;
     replayed_components := replayed_components w;
     rosbag_player := rosbag_player w; LOGGING_MANAGER := LOGGING_MANAGER w |}.

Definition with_all_components (d : list (string * nat)) (w : World) : World :=
  {| w_calls := w_calls w; w_trace := w_trace w; w_heap := w_heap w; w_next := w_next w;
     all_components := d;
     always_run_components := always_run_components w;
     pipelines := pipelines w; current_pipeline := current_pipeline w;
     state := state w; last_loop_time := last_loop_time w;
     last_hardware_faults := last_hardware_faults w;
     replayed_components := replayed_components w;
     rosbag_player := rosbag_player w; LOGGING_MANAGER := LOGGING_MANAGER w |}.

Definition with_always_run (d : Phase) (w : World) : World :=
  {| w_calls := w_calls w; w_trace := w_trace w; w_heap := w_heap w; w_next := w_next w;
     all_components := all_components w;
     always_run_components := d;
     pipelines := pipelines w; current_pipeline := current_pipeline w;
     state := state w; last_loop_time := last_loop_time w;
     last_hardware_faults := last_hardware_faults w;
     replayed_components := replayed_components w;
     rosbag_player := rosbag_player w; LOGGING_MANAGER := LOGGING_MANAGER w |}.

Definition with_pipelines (d : list (string * (Phase * Phase * Phase))) (w : World) : World :=
  {| w_calls := w_calls w; w_trace := w_trace w; w_heap := w_heap w; w_next := w_next w;
     all_components := all_components w;
     always_run_components := always_run_components w;
     pipelines := d; current_pipeline := current_pipeline w;
     state := state w; last_loop_time := last_loop_time w;
     last_hardware_faults := last_hardware_faults w;
     replayed_components := replayed_components w;
     rosbag_player := rosbag_player w; LOGGING_MANAGER := LOGGING_MANAGER w |}.

Definition with_current_pipeline (p : string) (w : World) : World :=
  {| w_calls := w_calls w; w_trace := w_trace w; w_heap := w_heap w; w_next := w_next w;
     all_components := all_components w;
     always_run_components := always_run_components w;
     pipelines := pipelines w; current_pipeline := p;
     state := state w; last_loop_time := last_loop_time w;
     last_hardware_faults := last_hardware_faults w;
     replayed_components := replayed_components w;
     rosbag_player := rosbag_player w; LOGGING_MANAGER := LOGGING_MANAGER w |}.

Definition with_state (s : AllState) (w : World) : World :=
  {| w_calls := w_calls w; w_trace := w_trace w; w_heap := w_heap w; w_next := w_next w;
     all_components := all_components w;
     always_run_components := always_run_components w;
     pipelines := pipelines w; current_pipeline := current_pipeline w;
     state := s; last_loop_time := last_loop_time w;
     last_hardware_faults := last_hardware_faults w;
     replayed_components := replayed_components w;
     rosbag_player := rosbag_player w; LOGGING_MANAGER := LOGGING_MANAGER w |}.

Definition with_last_loop_time (t : float) (w : World) : World :=
  {| w_calls := w_calls w; w_trace := w_trace w; w_heap := w_heap w; w_next := w_next w;
     all_components := all_components w;
     always_run_components := always_run_components w;
     pipelines := pipelines w; current_pipeline := current_pipeline w;
     state := state w; last_loop_time := t;
     last_hardware_faults := last_hardware_faults w;
     replayed_components := replayed_components w;
     rosbag_player := rosbag_player w; LOGGING_MANAGER := LOGGING_MANAGER w |}.

Definition with_last_hardware_faults (fs : list string) (w : World) : World :=
  {| w_calls := w_calls w; w_trace := w_trace w; w_heap := w_heap w; w_next := w_next w;
     all_components := all_components w;
     always_run_components := always_run_components w;
     pipelines := pipelines w; current_pipeline := current_pipeline w;
     state := state w; last_loop_time := last_loop_time w;
     last_hardware_faults := fs;
     replayed_components := replayed_components w;
     rosbag_player := rosbag_player w; LOGGING_MANAGER := LOGGING_MANAGER w |}.

Definition with_LOGGING_MANAGER (b : bool) (w : World) : World :=
  {| w_calls := w_calls w; w_trace := w_trace w; w_heap := w_heap w; w_next := w_next w;
     all_components := all_components w;
     always_run_components := always_run_components w;
     pipelines := pipelines w; current_pipeline := current_pipeline w;
     state := state w; last_loop_time := last_loop_time w;
     last_hardware_faults := last_hardware_faults w;
     replayed_components := replayed_components w;
     rosbag_player := rosbag_player w; LOGGING_MANAGER := b |}.

(** ** The monad of the executor's code

    A call returns a value, raises, or is still running when the fuel given
    to its loops is spent. *)
Inductive Res (A : Type) : Type :=
| Ok (a : A) (w : World)
| Raise (e : PyExn) (w : World)
| Timeout (w : World).
Arguments Ok {A} a w.
Arguments Raise {A} e w.
Arguments Timeout {A} w.

Definition res_world {A} (r : Res A) : World :=
  match r with
  | Ok _ w => w
  | Raise _ w => w
  | Timeout w => w
  end.

Definition M (A : Type) : Type := World → Res A.

Definition ret {A} (a : A) : M A := λ w, Ok a w.

Definition bind {A B} (m : M A) (f : A → M B) : M B :=
  λ w, match m w with
       | Ok a w' => f a w'
       | Raise e w' => Raise e w'
       | Timeout w' => Timeout w'
       end.

Notation "x <~ m ;; k" := (bind m (λ x, k))
  (at level 100, m at next level, k at level 200, right associativity,
   format "'[v' x  <~  m  ;;  '/' k ']'").
Notation "m ;;; k" := (bind m (λ _, k))
  (at level 100, k at level 200, right associativity,
   format "'[v' m  ;;;  '/' k ']'").

Definition raise {A} (e : PyExn) : M A := λ w, Raise e w.

Definition out_of_fuel {A} : M A := λ w, Timeout w.

(** [assert cond, msg] *)
Definition assert (b : bool) (msg : string) : M unit :=
  if b then ret tt else raise (AssertionError msg).

(** [try: m  except KeyboardInterrupt: h] *)
Definition try_except_KeyboardInterrupt {A} (m : M A) (h : M A) : M A :=
  λ w, match m w with
       | Raise KeyboardInterrupt w' => h w'
       | r => r
       end.

Definition get : M World := λ w, Ok w w.
Definition modify (f : World → World) : M unit := λ w, Ok tt (f w).

Definition emit (ev : Event) : M unit :=
  modify (λ w, with_trace (ev :: w_trace w) w).

(** A pure function that may raise, run inside the monad. *)
Definition lift_py {A} (p : Py A) : M A :=
  match p with
  | Val a => ret a
  | Exc e => raise e
  end.

(** [for x in xs: body x] *)
Fixpoint for_each {A} (xs : list A) (body : A → M unit) : M unit :=
  match xs with
  | [] => ret tt
  | x :: rest => body x ;;; for_each rest body
  end.

(** [[f x for x in xs]] *)
Fixpoint map_m {A B} (f : A → M B) (xs : list A) : M (list B) :=
  match xs with
  | [] => ret []
  | x :: rest => y <~ f x ;; ys <~ map_m f rest ;; ret (y :: ys)
  end.

Definition get_ex (a : nat) : M ComponentExecutor := λ w, Ok (w_heap w a) w.

Definition set_ex (a : nat) (f : ComponentExecutor → ComponentExecutor) : M unit :=
  modify (λ w, with_heap (λ b, if decide (b = a) then f (w_heap w a) else w_heap w b)
                 (w_next w) w).

(** [setattr(state, k, v)] *)
Definition setattr (k : string) (v : Value) : M unit :=
  modify (λ w, with_state (<[k := v]> (state w)) w).

(** [getattr(state, k)] *)
Definition getattr (k : string) : M Value :=
  λ w, match state w !! k with
       | Some v => Ok v w
       | None => Raise (AttributeError k) w
       end.

(** ** External code

    The answers of the code the executor calls but does not own.  Each field
    is read at the number of external calls made so far, so an oracle can
    describe any behaviour of the components, the vehicle and the subclass
    hooks along one execution. *)

(** What a component's [update] does: it returns a value or raises, with the
    text of [traceback.format_exc()] in the second case; both leave the text
    written to the captured standard output and error. *)
Inductive UpdateResult : Type :=
| Returns (res : Value) (stdout : string) (stderr : string)
| Raises (e : PyExn) (traceback : string) (stdout : string) (stderr : string).

(** What [make_class] does: it builds a [Component], builds an object of
    another class, or raises. *)
Inductive MakeResult : Type :=
| Made (c : Component)
| MadeOther
| MakeRaises (e : PyExn) (traceback : string).

Record Oracle : Type := {
  o_make_class : nat → MakeResult;
  o_component_replayer : nat → option Component;
  o_initialize : nat → option PyExn;
  o_cleanup : nat → option PyExn;
  o_update : nat → UpdateResult;
  o_healthy : nat → bool;
  o_vehicle_time : nat → float;
  o_wall_time : nat → float;
  o_hardware_faults : nat → list string;
  o_looper : nat → option bool;
  o_done : nat → bool;
  o_update_hook : nat → option string;
}.

(** A configuration descriptor ([config_info]): a string, or a dictionary.
    [cfg_repr] is the text [str] gives for it; the keys [type], [module] and
    [args] are read by [make_class] only. *)
Record ConfigDict : Type := {
  cfg_repr : string;
  cfg_multiprocess : bool;
  cfg_essential : bool;
  cfg_rate : option float;
  cfg_print : bool;
  cfg_debug : bool;
}.

Inductive ConfigInfo : Type :=
| CfgStr (s : string)
| CfgDict (d : ConfigDict).

(** [str((component_name, config_info))] *)
Definition identifier_of (component_name : string) (config_info : ConfigInfo) : string :=
  "('" +:+ component_name +:+ "', " +:+
  match config_info with
  | CfgStr s => "'" +:+ s +:+ "'"
  | CfgDict d => cfg_repr d
  end +:+ ")".

Definition EXECUTION_VERBOSITY : nat := 1.

Definition ends_with_dot (s : string) : bool :=
  match String.rev s with
  | String c _ => bool_decide (c = "."%char)
  | EmptyString => false
  end.

(** [min(l)], [None] for the [ValueError] of an empty sequence. *)
Definition py_min (l : list float) : option float :=
  match l with
  | [] => None
  | x :: rest => Some (fold_left (λ m y, if PrimFloat.ltb y m then y else m) rest x)
  end.

(** How a loop body ends: the loop goes on, or the function returns. *)
Inductive Flow (A : Type) : Type :=
| Continue
| Return (a : A).
Arguments Continue {A}.
Arguments Return {A} a.

Section Executor.
Variable oracle : Oracle.
Variable G : Graph.
(** [settings.get('run.require_engaged', False)] *)
Variable require_engaged : bool.
(** [AllState.zero()] *)
Variable AllState_zero : AllState.

(** The next answer of the outside world. *)
Definition ask {A} (f : Oracle → nat → A) : M A :=
  λ w, Ok (f oracle (w_calls w)) (with_calls (S (w_calls w)) w).

(** *** Print helpers (source lines 27-48) *)

Definition executor_debug_print (verbosity : nat) (fmt : string) (nargs : nat)
  : M unit :=
  if Nat.leb verbosity EXECUTION_VERBOSITY then
    if py_format fmt nargs then emit (EvPrint fmt) else raise format_error
  else ret tt.

Definition executor_debug_stderr (fmt : string) (nargs : nat) : M unit :=
  if py_format fmt nargs then emit (EvStderr fmt) else raise format_error.

(** [traceback] is the text of [traceback.format_exc()], which the source
    passes as the format string of the second and fourth print. *)
Definition executor_debug_exception (traceback : string) (fmt : string)
    (nargs : nat) : M unit :=
  executor_debug_stderr fmt nargs ;;;
  executor_debug_stderr traceback 0 ;;;
  executor_debug_print 0 fmt nargs ;;;
  executor_debug_print 0 traceback 0.

(** *** [ComponentExecutor] (source lines 219-334) *)

Definition set_debugger (a : nat) : M unit :=
  set_ex a (λ e,
    {| ex_c := ex_c e; ex_essential := ex_essential e; ex_do_debug := ex_do_debug e;
       ex_print_stdout := ex_print_stdout e; ex_print_stderr := ex_print_stderr e;
       ex_inputs := ex_inputs e; ex_output := ex_output e;
       ex_last_update_time := ex_last_update_time e;
       ex_next_update_time := ex_next_update_time e;
       ex_had_exception := ex_had_exception e; ex_dt := ex_dt e;
       ex_num_overruns := ex_num_overruns e; ex_overrun_amount := ex_overrun_amount e;
       ex_multiprocess := ex_multiprocess e;
       ex_debugger := if ex_do_debug e then true else ex_debugger e |}).

Definition healthy (a : nat) : M bool :=
  h <~ ask o_healthy ;;
  e <~ get_ex a ;;
  ret (h && negb (ex_had_exception e)).

Definition start (a : nat) : M unit :=
  emit (EvInitialize a) ;;;
  r <~ ask o_initialize ;;
  match r with
  | Some e => raise e
  | None => ret tt
  end.

Definition stop (a : nat) : M unit :=
  emit (EvCleanup a) ;;;
  r <~ ask o_cleanup ;;
  match r with
  | Some e => raise e
  | None => ret tt
  end.

(** The captured text goes to the terminal and to the logging manager;
    neither call can fail on it. *)
Definition log_output (a : nat) (stdout stderr : string) : M unit :=
  (if decide (stdout = "") then ret tt else emit (EvCaptured a "stdout" stdout)) ;;;
  (if decide (stderr = "") then ret tt else emit (EvCaptured a "stderr" stderr)).

(** [self.do_update] is [None] in this file, so [self.c.update] is
    called.  An exception raised by the handler itself leaves the [try]
    statement and the function. *)
Definition _do_update (a : nat) (t : float) : M Value :=
  w <~ get ;;
  emit (EvUpdate a (state w)) ;;;
  r <~ ask o_update ;;
  match r with
  | Returns res stdout stderr =>
      log_output a stdout stderr ;;;
      ret res
  | Raises e traceback stdout stderr =>
      if is_Exception e then
        executor_debug_exception traceback "Exception in component {}: {}" 2 ;;;
        set_ex a (with_had_exception true) ;;;
        log_output a stdout stderr ;;;
        ret VNone
      else raise e
  end.

Definition write_output (t : float) (kv : string * Value) : M unit :=
  setattr kv.1 kv.2 ;;;
  setattr (kv.1 +:+ "_update_time") (VFloat t).

Definition update_now (a : nat) (t : float) : M unit :=
  e <~ get_ex a ;;
  (if bool_decide (ex_inputs e = ["all"]) then ret tt
   else _ <~ map_m getattr (ex_inputs e) ;; ret tt) ;;;
  executor_debug_print 2 "Updating {}" 1 ;;;
  res <~ _do_update a t ;;
  e <~ get_ex a ;;
  match res with
  | VNone => ret tt
  | _ =>
      if Nat.ltb 1 (length (ex_output e)) then
        match py_len res with
        | None => raise (TypeError "object has no len()")
        | Some n =>
            assert (Nat.eqb n (length (ex_output e)))
              "Component output does not match expected length" ;;;
            for_each (zip (ex_output e) (py_iter res)) (write_output t)
        end
      else
        match ex_output e with
        | [] => raise (IndexError "list index out of range")
        | k :: _ => write_output t (k, res)
        end
  end.

(** The value of [next_update_time] after line 258-261. *)
Definition advance (next : option float) (t dt : float) : float :=
  match next with
  | None => PrimFloat.add t dt
  | Some n => PrimFloat.add n dt
  end.

(** [t >= self.next_update_time], true when there is no next time yet. *)
Definition due (next : option float) (t : float) : bool :=
  match next with
  | None => true
  | Some n => PrimFloat.leb n t
  end.

Definition update (a : nat) (t : float) : M bool :=
  e <~ get_ex a ;;
  if due (ex_next_update_time e) t then
    t0 <~ ask o_wall_time ;;
    update_now a t ;;;
    t1 <~ ask o_wall_time ;;
    e <~ get_ex a ;;
    let next := advance (ex_next_update_time e) t (ex_dt e) in
    set_ex a (with_schedule (Some t) (Some next)
                (ex_num_overruns e) (ex_overrun_amount e)) ;;;
    (if PrimFloat.ltb next t && PrimFloat.ltb 0 (ex_dt e) then
       (if PrimFloat.ltb (ex_dt e) (PrimFloat.sub t1 t0) then
          executor_debug_print 1
            "Component {} is running behind, time {} overran dt {} by {} s" 4
        else
          executor_debug_print 1
            "Component {} is running behind (pushed back) overran dt {} by {} s" 4) ;;;
       set_ex a (with_schedule (Some t) (Some (PrimFloat.add t (ex_dt e)))
                   (ex_num_overruns e + 1)%Z
                   (PrimFloat.add (ex_overrun_amount e) (PrimFloat.sub t next)))
     else ret tt) ;;;
    ret true
  else
    executor_debug_print 3 "Component {}" 4 ;;;
    ret false.

(** *** [ExecutorBase] (source lines 339-730) *)

(** The attributes a dictionary descriptor sets on the new executor (source
    lines 402-407); [1.0/config_info['rate']] raises [ZeroDivisionError]
    for a zero rate, which [None] stands for. *)
Definition with_config (d : ConfigDict) (e : ComponentExecutor)
  : option ComponentExecutor :=
  let dt :=
    match cfg_rate d with
    | Some rate => if PrimFloat.eqb rate 0 then None else Some (PrimFloat.div 1 rate)
    | None => Some (ex_dt e)
    end in
  match dt with
  | None => None
  | Some dt =>
      Some {| ex_c := ex_c e; ex_essential := cfg_essential d; ex_do_debug := cfg_debug d;
              ex_print_stdout := cfg_print d; ex_print_stderr := cfg_print d;
              ex_inputs := ex_inputs e; ex_output := ex_output e;
              ex_last_update_time := ex_last_update_time e;
              ex_next_update_time := ex_next_update_time e;
              ex_had_exception := ex_had_exception e;
              ex_dt := dt;
              ex_num_overruns := ex_num_overruns e;
              ex_overrun_amount := ex_overrun_amount e;
              ex_multiprocess := ex_multiprocess e; ex_debugger := ex_debugger e |}
  end.

(** [executor = ComponentExecutor(component)]: a new object in the store. *)
Definition alloc (e : ComponentExecutor) : M nat :=
  λ w, Ok (w_next w)
         (with_heap (λ b, if decide (b = w_next w) then e else w_heap w b)
            (S (w_next w)) w).

Definition make_component (config_info : ConfigInfo) (component_name : string)
  : M nat :=
  let identifier := identifier_of component_name config_info in
  w <~ get ;;
  match dict_get (all_components w) identifier with
  | Some a => ret a
  | None =>
      emit (EvMakeClass identifier) ;;;
      r <~ ask o_make_class ;;
      match r with
      | MakeRaises e traceback =>
          (if is_Exception e then
             executor_debug_exception traceback
               "Exception raised while trying to make component {} from config info:
   {}" 2
           else ret tt) ;;;
          raise e
      | MadeOther => raise (RuntimeError "Component is not a subclass of Component")
      | Made component =>
          replacement <~ ask o_component_replayer ;;
          component <~
            match replacement with
            | Some r =>
                executor_debug_print 1
                  "Replaying component {} from long {} with outputs {}" 3 ;;;
                ret r
            | None => ret component
            end ;;
          let multiprocess :=
            match config_info with
            | CfgDict d => cfg_multiprocess d
            | CfgStr _ => false
            end in
          match new_executor component multiprocess with
          | None => raise (UserException "ZeroDivisionError" "float division by zero")
          | Some executor =>
              match match config_info with
                    | CfgDict d => with_config d executor
                    | CfgStr _ => Some executor
                    end with
              | None => raise (UserException "ZeroDivisionError" "float division by zero")
              | Some executor =>
                  a <~ alloc executor ;;
                  set_debugger a ;;;
                  modify (λ w, with_all_components
                                 (dict_set (all_components w) identifier a) w) ;;;
                  ret a
              end
          end
      end
  end.

Definition always_run (component_name : string) (component : nat) : M unit :=
  modify (λ w, with_always_run
                 (dict_set (always_run_components w) component_name component) w).

(** The components behind the references of a phase, as
    [validate_components] reads them through [c.c]. *)
Definition phase_components (w : World) (p : Phase) : list (string * Component) :=
  (λ ka, (ka.1, ex_c (w_heap w ka.2))) <$> p.

Definition add_pipeline (name : string) (perception planning other : Phase)
  : M unit :=
  w <~ get ;;
  output <~ lift_py (validate_components G (phase_components w perception) None) ;;
  output <~ lift_py (validate_components G (phase_components w planning)
                       (Some (elements output))) ;;
  _ <~ lift_py (validate_components G (phase_components w other)
                  (Some (elements output))) ;;
  modify (λ w, with_pipelines
                 (dict_set (pipelines w) name (perception, planning, other)) w).

Definition event (event_description : string) (event_print_string : option string)
  : M unit :=
  emit (EvEvent event_description) ;;;
  if Nat.leb 1 EXECUTION_VERBOSITY then
    let s :=
      match event_print_string with
      | Some s => s
      | None =>
          if ends_with_dot event_description then event_description
          else event_description +:+ "."
      end in
    executor_debug_print 1 s 0
  else ret tt.

Definition set_exit_reason (description : string) : M unit :=
  emit (EvExit description).

(** [self.state.mission.type = ty]: the attribute [mission] must hold a
    mission record; [None], numbers, strings and lists have no attribute
    [type] to set. *)
Definition set_mission_type (ty : MissionEnum) : M unit :=
  v <~ getattr "mission" ;;
  match v with
  | VMission _ => setattr "mission" (VMission ty)
  | _ => raise (AttributeError "type")
  end.

(** The loop of [check_for_hardware_faults] (source lines 579-591);
    the result is [printed_faults]. *)
Fixpoint fault_loop (last faults printed : list string) : M (list string) :=
  match faults with
  | [] => ret printed
  | f :: rest =>
      if decide (f = "disengaged") then
        if negb require_engaged then fault_loop last rest printed
        else
          (if bool_decide (f ∈ last) then ret tt
           else event "Vehicle disengaged" None) ;;;
          fault_loop last rest (printed ++ [f])
      else
        (if bool_decide (f ∈ last) then ret tt
         else event ("Hardware fault " +:+ f) None) ;;;
        fault_loop last rest (printed ++ [f])
  end.

Definition check_for_hardware_faults : M unit :=
  faults <~ ask o_hardware_faults ;;
  w <~ get ;;
  printed <~ fault_loop (last_hardware_faults w) faults [] ;;
  match printed with
  | [] => ret tt
  | _ :: _ => executor_debug_print 1 "Hardware faults:" 1
  end ;;;
  modify (with_last_hardware_faults faults).

(** [t = state.t]; the comparisons of [update] need a number. *)
Definition read_t : M float :=
  v <~ getattr "t" ;;
  match v with
  | VFloat t => ret t
  | _ => raise (TypeError "state.t is not a float")
  end.

Definition update_component (components : Phase) (t : float) (now : bool)
    (k : string) : M unit :=
  match dict_get components k with
  | None => raise (KeyError k)
  | Some a =>
      updated <~ (if now then update_now a t ;;; ret true else update a t) ;;
      if updated then emit (EvLogUpdate k) else ret tt
  end.

Definition update_components (components : Phase) (now force : bool) : M unit :=
  t <~ read_t ;;
  let order :=
    if force then dict_keys components
    else List.filter (dict_mem components) (COMPONENT_ORDER G) in
  for_each order (update_component components t now).

(** [all([c.healthy() for c in components.values()])]: every component
    is asked. *)
Definition all_healthy (components : Phase) : M bool :=
  hs <~ map_m healthy (dict_values components) ;;
  ret (forallb id hs).

(** [min([c.dt for c in components if c.dt != 0.0])] *)
Definition dt_min_of (components : list nat) : M float :=
  dts <~ map_m (λ a, e <~ get_ex a ;; ret (ex_dt e)) components ;;
  match py_min (List.filter (λ d, negb (PrimFloat.eqb d 0)) dts) with
  | None => raise (ValueError "min() arg is an empty sequence")
  | Some d => ret d
  end.

(** Modelled from the spec: [TimedLooper] is defined in
    [GEMstack/utils/loops], outside this file.  Its truth value is asked at
    the head of each loop: it sleeps until the next period and becomes
    false to end the loop; an interrupt during the sleep is a
    [KeyboardInterrupt]. *)
Definition looper : M bool :=
  r <~ ask o_looper ;;
  match r with
  | Some b => ret b
  | None => raise KeyboardInterrupt
  end.

Definition tick_clock : M unit :=
  t <~ ask o_vehicle_time ;;
  setattr "t" (VFloat t) ;;;
  now <~ ask o_wall_time ;;
  modify (with_last_loop_time now).

(** The [while] loop of [validate_sensors] (source lines 613-635). *)
Fixpoint validate_sensors_loop (fuel : nat) (perception_components : Phase)
    (numsteps : option nat) (sensors_working : bool) (num_attempts : nat)
    (next_print_time : float) : M bool :=
  match fuel with
  | O => out_of_fuel
  | S fuel' =>
      go <~ looper ;;
      if go && negb sensors_working then
        tick_clock ;;;
        check_for_hardware_faults ;;;
        update_components perception_components false false ;;;
        sensors_working <~ all_healthy perception_components ;;
        w <~ get ;;
        update_components (always_run_components w) false true ;;;
        w <~ get ;;
        always_run_working <~ all_healthy (always_run_components w) ;;
        (if always_run_working then ret tt
         else executor_debug_print 1 "Always-run components not working, ignoring" 0) ;;;
        let num_attempts := S num_attempts in
        if match numsteps with
           | Some n => Nat.leb n num_attempts
           | None => false
           end
        then ret false
        else
          now <~ ask o_wall_time ;;
          if PrimFloat.ltb next_print_time now then
            executor_debug_print 1 "Waiting for sensors to be healthy..." 0 ;;;
            validate_sensors_loop fuel' perception_components numsteps
              sensors_working num_attempts (PrimFloat.add next_print_time 1)
          else
            validate_sensors_loop fuel' perception_components numsteps
              sensors_working num_attempts next_print_time
      else ret true
  end.

Definition validate_sensors (fuel : nat) (numsteps : option nat) : M bool :=
  w <~ get ;;
  match dict_get (pipelines w) (current_pipeline w) with
  | None => raise (KeyError (current_pipeline w))
  | Some (perception_components, planning_components, other_components) =>
      if decide (length perception_components = 0) then ret true
      else
        dt_min <~ dt_min_of (dict_values perception_components
                             ++ dict_values (always_run_components w)) ;;
        t0 <~ ask o_wall_time ;;
        validate_sensors_loop fuel perception_components numsteps false 0
          (PrimFloat.add t0 1)
  end.

(** The fault check after a phase (source lines 659-665, 674-680, 683-689,
    692-698): [true] when the function returns ['recovery']. *)
Fixpoint check_faults (components : Phase) (fatal warning : string) : M bool :=
  match components with
  | [] => ret false
  | (name, a) :: rest =>
      h <~ healthy a ;;
      if h then check_faults rest fatal warning
      else
        e <~ get_ex a ;;
        w <~ get ;;
        if ex_essential e && bool_decide (current_pipeline w ≠ "recovery") then
          executor_debug_print 1 fatal 1 ;;;
          ret true
        else
          executor_debug_print 1 warning 1 ;;;
          check_faults rest fatal warning
  end.

(** One pass through the body of the loop of [run_until_switch] (source
    lines 647-698). *)
Definition run_until_switch_body (perception_components planning_components
    other_components : Phase) : M (Flow (option string)) :=
  tick_clock ;;;
  check_for_hardware_faults ;;;
  update_components perception_components false false ;;;
  bad <~ check_faults perception_components
           "Sensor {} not working, entering recovery mode"
           "Warning, sensor {} not working, ignoring" ;;
  if bad then ret (Return (Some "recovery"))
  else
    next_pipeline <~ ask o_update_hook ;;
    w <~ get ;;
    switch <~
      match next_pipeline with
      | Some n =>
          if bool_decide (n ≠ current_pipeline w) then
            executor_debug_print 0 "update() requests to switch to pipeline {}" 1 ;;;
            ret (Some n)
          else ret None
      | None => ret None
      end ;;
    match switch with
    | Some n => ret (Return (Some n))
    | None =>
        update_components planning_components false false ;;;
        bad <~ check_faults planning_components
                 "Planner {} not working, entering recovery mode"
                 "Warning, planner {} not working, ignoring" ;;
        if bad then ret (Return (Some "recovery"))
        else
          update_components other_components false false ;;;
          bad <~ check_faults other_components
                   "Other component {} not working, entering recovery mode"
                   "Warning, other component {} not working" ;;
          if bad then ret (Return (Some "recovery"))
          else
            w <~ get ;;
            update_components (always_run_components w) false true ;;;
            w <~ get ;;
            bad <~ check_faults (always_run_components w)
                     "Always-run component {} not working, entering recovery mode"
                     "Warning, always-run component {} not working" ;;
            if bad then ret (Return (Some "recovery"))
            else ret Continue
    end.

(** [while looper and not self.done(): ...] (source lines 646-702) *)
Fixpoint run_until_switch_loop (fuel : nat) (perception_components
    planning_components other_components : Phase) : M (option string) :=
  match fuel with
  | O => out_of_fuel
  | S fuel' =>
      go <~ looper ;;
      if negb go then ret None
      else
        finished <~ ask o_done ;;
        if finished then ret None
        else
          flow <~ run_until_switch_body perception_components
                    planning_components other_components ;;
          match flow with
          | Return r => ret r
          | Continue =>
              run_until_switch_loop fuel' perception_components
                planning_components other_components
          end
  end.

Definition run_until_switch (fuel : nat) : M (option string) :=
  w <~ get ;;
  (if decide (current_pipeline w = "recovery") then set_mission_type RECOVERY_STOP
   else ret tt) ;;;
  match dict_get (pipelines w) (current_pipeline w) with
  | None => raise (KeyError (current_pipeline w))
  | Some (perception_components, planning_components, other_components) =>
      dt_min <~ dt_min_of (dict_values perception_components
                           ++ dict_values planning_components
                           ++ dict_values other_components
                           ++ dict_values (always_run_components w)) ;;
      run_until_switch_loop fuel perception_components planning_components
        other_components
  end.

Definition recovery_banner : string :=
  "************************************************ Recovery pipeline is not working, exiting! ************************************************".

Definition interrupt_banner : string :=
  "************************************************ Ctrl+C interrupt during recovery, exiting! ************************************************".

(** [if time.time() - self.last_loop_time > 0.5: ...] *)
Definition hang_check : M unit :=
  now <~ ask o_wall_time ;;
  w <~ get ;;
  if PrimFloat.ltb 0.5 (PrimFloat.sub now (last_loop_time w)) then
    executor_debug_print 1 "A component may have hung. Traceback:
{}" 1
  else ret tt.

(** The probe of the sensors of the pipeline just entered (source lines
    546-548); the loop goes on in either case. *)
Definition revalidate (fuel : nat) : M bool :=
  sensors <~ validate_sensors fuel (Some 1) ;;
  if sensors then ret false
  else
    w <~ get ;;
    event ("Sensors in desired pipeline " +:+ current_pipeline w
           +:+ " are not working, switching to recovery") None ;;;
    modify (with_current_pipeline "recovery") ;;;
    ret false.

(** What [run] does with the value of [run_until_switch] (source lines
    531-548); [true] leaves the mission loop. *)
Definition after_switch (fuel : nat) (next : option string) : M bool :=
  match next with
  | None =>
      set_exit_reason "normal exit" ;;;
      ret true
  | Some next =>
      w <~ get ;;
      next <~ (if dict_mem (pipelines w) next then ret next
               else
                 executor_debug_print 1
                   "Pipeline {} not found, switching to recovery" 1 ;;;
                 ret "recovery") ;;
      if bool_decide (current_pipeline w = "recovery")
         && bool_decide (next = "recovery") then
        executor_debug_print 1 recovery_banner 0 ;;;
        set_exit_reason "recovery pipeline not working" ;;;
        ret true
      else
        modify (with_current_pipeline next) ;;;
        revalidate fuel
  end.

(** The handler of [KeyboardInterrupt] in the mission loop (source lines
    549-561). *)
Definition on_interrupt : M bool :=
  w <~ get ;;
  if decide (current_pipeline w = "recovery") then
    executor_debug_print 1 interrupt_banner 0 ;;;
    set_exit_reason "Ctrl+C interrupt during recovery" ;;;
    ret true
  else
    modify (with_current_pipeline "recovery") ;;;
    event "Ctrl+C pressed, switching to recovery mode" None ;;;
    hang_check ;;;
    ret false.

(** One pass through [while True: ...] (source lines 526-561); [true]
    is a [break]. *)
Definition mission_step (fuel : nat) : M bool :=
  t <~ ask o_vehicle_time ;;
  setattr "t" (VFloat t) ;;;
  w <~ get ;;
  emit (EvPipelineStart (current_pipeline w)) ;;;
  try_except_KeyboardInterrupt
    (executor_debug_print 1 "Executing pipeline {}" 1 ;;;
     next <~ run_until_switch fuel ;;
     after_switch fuel next)
    on_interrupt.

Fixpoint mission_loop (fuel : nat) : M unit :=
  match fuel with
  | O => out_of_fuel
  | S fuel' =>
      stop <~ mission_step fuel' ;;
      if stop then ret tt else mission_loop fuel'
  end.

(** [c in perception_components or c in planning_components or c in
    other_components], for some pipeline. *)
Definition in_some_pipeline (w : World) (c : string) : bool :=
  existsb (λ p, let '(_, (perception, planning, other)) := p in
                dict_mem perception c || dict_mem planning c || dict_mem other c)
    (pipelines w).

Definition stop_component (ka : string * nat) : M unit :=
  executor_debug_print 2 "Stopping" 1 ;;;
  stop ka.2.

Definition sensor_validation : M bool → M bool := λ validate,
  try_except_KeyboardInterrupt
    (validated <~ validate ;;
     (if validated then ret tt
      else
        event "Sensor validation failed"
          (Some "Could not validate sensors, stopping components and exiting") ;;;
        set_exit_reason "Sensor validation failed") ;;;
     ret validated)
    (event "Ctrl+C interrupt during sensor validation"
       (Some "Could not validate sensors, stopping components and exiting") ;;;
     set_exit_reason "Sensor validation failed" ;;;
     hang_check ;;;
     ret false).

Definition run (fuel : nat) : M unit :=
  modify (with_LOGGING_MANAGER true) ;;;
  w <~ get ;;
  if negb (dict_mem (pipelines w) (current_pipeline w)) then
    executor_debug_print 0 "Initial pipeline {} not found" 1
  else if negb (dict_mem (pipelines w) "recovery") then
    executor_debug_print 0 "'recovery' pipeline not found" 0
  else
    for_each (replayed_components w) (λ c,
      if in_some_pipeline w c then ret tt
      else raise (ValueError "Replay component not found in any pipeline")) ;;;
    for_each (dict_values (all_components w)) start ;;;
    modify (with_state AllState_zero) ;;;
    set_mission_type IDLE ;;;
    validated <~ sensor_validation (validate_sensors fuel None) ;;
    (if validated then
       emit EvBegin ;;;
       mission_loop fuel ;;;
       emit EvEnd ;;;
       event "Mission execution ended"
         (Some "Done with mission execution, stopping components and exiting")
     else ret tt) ;;;
    w <~ get ;;
    for_each (all_components w) stop_component ;;;
    emit EvLogClose ;;;
    executor_debug_print 0 "Done with execution loop" 0.
End Executor.

(** * Properties *)

(** ** Ordered dictionaries *)

Section PyDictFacts.
Context {V : Type}.
Implicit Types (d : list (string * V)) (k : string).

Lemma dict_get_app d1 d2 k :
  dict_get (d1 ++ d2) k =
  match dict_get d1 k with
  | Some v => Some v
  | None => dict_get d2 k
  end.
Proof.
  induction d1 as [|[k' v'] d1 IH]; simpl; [done|].
  destruct (decide (k' = k)); [done|apply IH].
Qed.

Lemma dict_get_Some_keys d k v : dict_get d k = Some v → k ∈ dict_keys d.
Proof.
  unfold dict_keys.
  induction d as [|[k' v'] d IH]; simpl; [done|].
  destruct (decide (k' = k)) as [->|]; intros H.
  - apply list_elem_of_here.
  - apply list_elem_of_further, IH, H.
Qed.

Lemma dict_get_None_keys d k : dict_get d k = None → k ∉ dict_keys d.
Proof.
  unfold dict_keys.
  induction d as [|[k' v'] d IH]; simpl.
  - intros _ H. by apply elem_of_nil in H.
  - destruct (decide (k' = k)); [done|].
    intros H Hin. apply elem_of_cons in Hin as [->|Hin]; [done|].
    by apply IH.
Qed.

Lemma dict_keys_get d k : k ∈ dict_keys d ↔ is_Some (dict_get d k).
Proof.
  split.
  - intros Hin. destruct (dict_get d k) eqn:E; [by eexists|].
    by apply dict_get_None_keys in E.
  - intros [v Hv]. by eapply dict_get_Some_keys.
Qed.

Lemma dict_get_Some_elem d k v : dict_get d k = Some v → (k, v) ∈ d.
Proof.
  induction d as [|[k' v'] d IH]; simpl; [done|].
  destruct (decide (k' = k)) as [->|]; intros H.
  - injection H as ->. apply list_elem_of_here.
  - apply list_elem_of_further, IH, H.
Qed.

Lemma dict_get_set_eq d k v : dict_get (dict_set d k v) k = Some v.
Proof.
  induction d as [|[k' v'] d IH]; simpl.
  - by rewrite decide_True.
  - destruct (decide (k' = k)); simpl.
    + by rewrite decide_True.
    + by rewrite decide_False.
Qed.

Lemma dict_get_set_ne d k k' v : k ≠ k' → dict_get (dict_set d k v) k' = dict_get d k'.
Proof.
  intros Hne. induction d as [|[k0 v0] d IH]; simpl.
  - by rewrite decide_False.
  - destruct (decide (k0 = k)) as [->|]; simpl.
    + by rewrite !decide_False.
    + destruct (decide (k0 = k')); [done|apply IH].
Qed.

(** Assigning to a fresh key appends the entry. *)
Lemma dict_set_fresh d k v : dict_get d k = None → dict_set d k v = d ++ [(k, v)].
Proof.
  induction d as [|[k' v'] d IH]; simpl; [done|].
  destruct (decide (k' = k)); [done|].
  intros H. by rewrite IH.
Qed.
End PyDictFacts.

(** ** The computation graph *)

Lemma py_bind_Val {A B} (m : Py A) (f : A → Py B) b :
  py_bind m f = Val b ↔ ∃ a, m = Val a ∧ f a = Val b.
Proof.
  destruct m; simpl; split.
  - eauto.
  - by intros (? & [= ->] & ?).
  - done.
  - by intros (? & ? & ?).
Qed.

(** The name an entry gives to its component, when the entry has one. *)
Definition entry_name (c : GraphEntry) : option string :=
  match c with
  | GStr name => Some name
  | GDict [(k, _)] => Some k
  | _ => None
  end.

(** The entries [normalize_computation_graph] does not assert against: a
    string, or a dictionary of one key whose value is a dictionary. *)
Definition entry_well_formed (c : GraphEntry) : Prop :=
  match c with
  | GStr _ => True
  | GDict [(_, Some _)] => True
  | _ => False
  end.

Lemma normalize_entry_well_formed c :
  entry_well_formed c → ∃ s, normalize_entry c = Val s ∧ entry_name c = Some s.1.
Proof.
  destruct c as [name|items|]; simpl; [eauto| |done].
  destruct items as [|[k [body|]] [|? ?]]; simpl; try done.
  eauto.
Qed.

Lemma normalize_well_formed setting :
  Forall entry_well_formed setting →
  ∃ cs, normalize_computation_graph setting = Val cs ∧
        cs.*1 = omap entry_name setting ∧ length cs = length setting.
Proof.
  induction 1 as [|c setting Hc _ (cs & Hcs & Hnames & Hlen)]; simpl.
  - by exists [].
  - destruct (normalize_entry_well_formed c Hc) as (s & -> & Hs). simpl.
    rewrite Hcs. simpl. exists (s :: cs). split_and!.
    + done.
    + rewrite fmap_cons, Hnames. simpl. by rewrite Hs.
    + simpl. by rewrite Hlen.
Qed.

Lemma py_dict_of_lookup_gen {V} (pairs : list (string * V)) (m : gmap string V) k :
  foldl (λ m p, <[p.1 := p.2]> m) m pairs !! k =
  match dict_get (reverse pairs) k with
  | Some v => Some v
  | None => m !! k
  end.
Proof.
  revert m. induction pairs as [|[k' v'] pairs IH]; intros m; simpl; [done|].
  rewrite IH, reverse_cons, dict_get_app. simpl.
  destruct (dict_get (reverse pairs) k); [done|].
  destruct (decide (k' = k)) as [->|].
  - by rewrite lookup_insert_eq.
  - by rewrite lookup_insert_ne.
Qed.

(** [dict(pairs)[k]] is the value of the last pair with key [k]. *)
Lemma py_dict_of_lookup {V} (pairs : list (string * V)) k :
  py_dict_of pairs !! k = dict_get (reverse pairs) k.
Proof.
  unfold py_dict_of. rewrite py_dict_of_lookup_gen.
  by destruct (dict_get (reverse pairs) k).
Qed.





(** ** [validate_components] against the rules it enforces *)

Section ValidateSpec.
Variable G : Graph.
Variable components : list (string * Component).

(** The components the validator walks: the names of the graph, in graph
    order, that are keys of [components]. *)
Definition visited (order : list string) : list (string * Component) :=
  omap (λ k, (λ c, (k, c)) <$> dict_get components k) order.

Definition descriptor_inputs (k : string) : list string :=
  default [] (cs_inputs <$> COMPONENT_SETTINGS G !! k).

Definition descriptor_outputs (k : string) : list string :=
  default [] (cs_outputs <$> COMPONENT_SETTINGS G !! k).

(** [i] is in the already-provided set, or among the outputs of a prior
    component of this phase, or a prior component produced ["all"]. *)
Definition produced_before (provided : gset string)
    (pre : list (string * Component)) (i : string) : Prop :=
  i ∈ provided ∨
  (∃ kc, kc ∈ pre ∧ i ∈ c_state_outputs kc.2) ∨
  (∃ kc, kc ∈ pre ∧ "all" ∈ c_state_outputs kc.2).

(** The rule on a declared input, in the words of the specification. *)
Definition input_rule_stated (provided : gset string) (k : string)
    (pre : list (string * Component)) (i : string) : Prop :=
  (i = "all" ∧ descriptor_inputs k = ["all"]) ∨
  (i ≠ "all" ∧ produced_before provided pre i).

(** The rule on a required output, in the words of the specification. *)
Definition output_rule_stated (c : Component) (o : string) : Prop :=
  o ∈ c_state_outputs c.

(** The rule on a declared input the code enforces: the input must also
    be one the descriptor lists, unless the descriptor is [["all"]]. *)
Definition input_rule (provided : gset string) (k : string)
    (pre : list (string * Component)) (i : string) : Prop :=
  (i = "all" ∧ descriptor_inputs k = ["all"]) ∨
  (i ≠ "all" ∧ produced_before provided pre i ∧
   (descriptor_inputs k = ["all"] ∨ i ∈ descriptor_inputs k)).

(** The rule on a required output the code enforces: a required ["all"]
    asks for outputs that are exactly [["all"]]. *)
Definition output_rule (c : Component) (o : string) : Prop :=
  (o = "all" ∧ c_state_outputs c = ["all"]) ∨
  (o ≠ "all" ∧ o ∈ c_state_outputs c).

Definition accepts
    (in_rule : string → list (string * Component) → string → Prop)
    (out_rule : Component → string → Prop) : Prop :=
  (∀ pre k c post,
      visited (COMPONENT_ORDER G) = pre ++ (k, c) :: post →
      (∀ i, i ∈ c_state_inputs c → in_rule k pre i) ∧
      (∀ o, o ∈ descriptor_outputs k → out_rule c o)) ∧
  (∀ k, k ∈ dict_keys components → is_Some (COMPONENT_SETTINGS G !! k)).

(** [out] is the cumulative produced-field set: what was provided plus
    every output, other than ["all"], of a walked component. *)
Definition cumulative (provided out : gset string) : Prop :=
  ∀ x, x ∈ out ↔
       x ∈ provided ∨
       ∃ kc, kc ∈ visited (COMPONENT_ORDER G) ∧ x ∈ c_state_outputs kc.2 ∧ x ≠ "all".

Definition provided_set (provided : option (list string)) : gset string :=
  match provided with
  | None => ∅
  | Some l => list_to_set l
  end.

Lemma py_unit_Val (m : Py unit) : (∃ u, m = Val u) ↔ m = Val tt.
Proof. split; [intros [[] ?]; done | eauto]. Qed.

Lemma py_assert_Val b msg : py_assert b msg = Val tt ↔ b = true.
Proof. by destruct b. Qed.

Lemma py_bind_unit_Val {B} (m : Py unit) (f : unit → Py B) b :
  py_bind m f = Val b ↔ m = Val tt ∧ f tt = Val b.
Proof.
  rewrite py_bind_Val. split.
  - by intros ([] & ? & ?).
  - intros [? ?]. by exists tt.
Qed.

Lemma check_inputs_spec k possible provided_all provided inputs :
  check_inputs k possible provided_all provided inputs = Val tt ↔
  ∀ i, i ∈ inputs →
       (i = "all" ∧ possible = ["all"]) ∨
       (i ≠ "all" ∧ (provided_all = true ∨ i ∈ provided) ∧
        (possible = ["all"] ∨ i ∈ possible)).
Proof.
  induction inputs as [|i inputs IH]; simpl.
  - split; [|done]. intros _ i Hi. by apply elem_of_nil in Hi.
  - rewrite py_bind_unit_Val, IH. clear IH.
    assert (Hhead :
      (if decide (i = "all") then
         py_assert (bool_decide (possible = ["all"]))
           ("Component " +:+ k +:+ " inputs are not provided by previous components")
       else
         py_bind
           (py_assert (provided_all || bool_decide (i ∈ provided))
              ("Component " +:+ k +:+ " input " +:+ i +:+ " is not provided by previous components"))
           (λ _, if bool_decide (possible ≠ ["all"]) then
                   py_assert (bool_decide (i ∈ possible))
                     ("Component " +:+ k +:+ " is not supposed to receive input " +:+ i)
                 else Val tt)) = Val tt ↔
      (i = "all" ∧ possible = ["all"]) ∨
      (i ≠ "all" ∧ (provided_all = true ∨ i ∈ provided) ∧
       (possible = ["all"] ∨ i ∈ possible))).
    { destruct (decide (i = "all")) as [Hi|Hi].
      - rewrite py_assert_Val, bool_decide_eq_true. naive_solver.
      - rewrite py_bind_unit_Val, py_assert_Val, orb_true_iff, bool_decide_eq_true.
        case_bool_decide as Hp.
        + rewrite py_assert_Val, bool_decide_eq_true. naive_solver.
        + naive_solver. }
    rewrite Hhead. clear Hhead. split.
    + intros [Hi Hrest] j Hj. apply elem_of_cons in Hj as [->|Hj]; auto.
    + intros H. split.
      * apply H, list_elem_of_here.
      * intros j Hj. apply H, list_elem_of_further, Hj.
Qed.

Lemma check_required_outputs_spec k outputs required :
  check_required_outputs k outputs required = Val tt ↔
  ∀ o, o ∈ required →
       (o = "all" ∧ outputs = ["all"]) ∨ (o ≠ "all" ∧ o ∈ outputs).
Proof.
  induction required as [|o required IH]; simpl.
  - split; [|done]. intros _ o Ho. by apply elem_of_nil in Ho.
  - rewrite py_bind_unit_Val, IH. clear IH.
    assert (Hhead :
      (if decide (o = "all") then
         py_assert (bool_decide (outputs = ["all"]))
           ("Component " +:+ k +:+ " outputs are not provided by previous components")
       else
         py_assert (bool_decide (o ∈ outputs))
           ("Component " +:+ k +:+ " doesn't output required output " +:+ o))
      = Val tt ↔
      (o = "all" ∧ outputs = ["all"]) ∨ (o ≠ "all" ∧ o ∈ outputs)).
    { destruct (decide (o = "all")) as [Ho|Ho];
        rewrite py_assert_Val, bool_decide_eq_true; naive_solver. }
    rewrite Hhead. clear Hhead. split.
    + intros [Ho Hrest] j Hj. apply elem_of_cons in Hj as [->|Hj]; auto.
    + intros H. split.
      * apply H, list_elem_of_here.
      * intros j Hj. apply H, list_elem_of_further, Hj.
Qed.

Lemma add_outputs_spec outputs provided provided_all :
  (∀ x, x ∈ (add_outputs outputs provided provided_all).1 ↔
        x ∈ provided ∨ (x ∈ outputs ∧ x ≠ "all")) ∧
  ((add_outputs outputs provided provided_all).2 = true ↔
   provided_all = true ∨ "all" ∈ outputs).
Proof.
  revert provided provided_all.
  induction outputs as [|o outputs IH]; intros provided provided_all; simpl.
  - split.
    + intros x. rewrite elem_of_nil. naive_solver.
    + rewrite elem_of_nil. naive_solver.
  - destruct (decide ("all" ≠ o)) as [Ho|Ho].
    + destruct (IH ({[o]} ∪ provided) provided_all) as [IH1 IH2]. split.
      * intros x. rewrite IH1, elem_of_union, elem_of_singleton, elem_of_cons.
        naive_solver.
      * rewrite IH2, elem_of_cons. naive_solver.
    + apply dec_stable in Ho. subst o.
      destruct (IH provided true) as [IH1 IH2]. split.
      * intros x. rewrite IH1, elem_of_cons. naive_solver.
      * rewrite IH2, elem_of_cons. naive_solver.
Qed.

Lemma check_known_spec names :
  check_known G names = Val tt ↔
  ∀ k, k ∈ names → is_Some (COMPONENT_SETTINGS G !! k).
Proof.
  induction names as [|k names IH]; simpl.
  - split; [|done]. intros _ k Hk. by apply elem_of_nil in Hk.
  - rewrite py_bind_unit_Val, py_assert_Val, bool_decide_eq_true, IH. split.
    + intros [Hk Hrest] j Hj. apply elem_of_cons in Hj as [->|Hj]; auto.
    + intros H. split.
      * apply H, list_elem_of_here.
      * intros j Hj. apply H, list_elem_of_further, Hj.
Qed.
End ValidateSpec.

(** The rule [validate_walk] applies to an input when it starts from the
    set [provided] and the flag [provided_all]. *)
Definition walk_input_rule (G : Graph) (provided : gset string) (provided_all : bool)
    (k : string) (pre : list (string * Component)) (i : string) : Prop :=
  (i = "all" ∧ descriptor_inputs G k = ["all"]) ∨
  (i ≠ "all" ∧ (provided_all = true ∨ produced_before provided pre i) ∧
   (descriptor_inputs G k = ["all"] ∨ i ∈ descriptor_inputs G k)).

Lemma walk_input_rule_shift G provided provided_all k c k' pre i :
  let r := add_outputs (c_state_outputs c) provided provided_all in
  walk_input_rule G r.1 r.2 k' pre i ↔
  walk_input_rule G provided provided_all k' ((k, c) :: pre) i.
Proof.
  intros r.
  destruct (add_outputs_spec (c_state_outputs c) provided provided_all) as [H1 H2].
  fold r in H1, H2. unfold walk_input_rule, produced_before.
  rewrite H2, H1. setoid_rewrite elem_of_cons. split.
  - intros [?|(Hi & [[?|?]|[[?|[? ?]]|[(kc & ? & ?)|(kc & ? & ?)]]] & ?)];
      [by left|right; split_and!; [done| |done]..].
    + by left.
    + right. right. right. exists (k, c). split; [by left|done].
    + right. by left.
    + right. right. left. exists (k, c). split; [by left|done].
    + right. right. left. exists kc. split; [by right|done].
    + right. right. right. exists kc. split; [by right|done].
  - intros [?|(Hi & [?|[?|[(kc & [->|?] & ?)|(kc & [->|?] & ?)]]] & ?)];
      [by left|right; split_and!; [done| |done]..].
    + left. by left.
    + right. left. by left.
    + right. left. by right.
    + right. right. left. by exists kc.
    + left. by right.
    + right. right. right. by exists kc.
Qed.

Lemma validate_walk_spec G components order provided provided_all out :
  validate_walk G components order provided provided_all = Val out ↔
  (∀ pre k c post,
      visited components order = pre ++ (k, c) :: post →
      is_Some (COMPONENT_SETTINGS G !! k) ∧
      (∀ i, i ∈ c_state_inputs c → walk_input_rule G provided provided_all k pre i) ∧
      (∀ o, o ∈ descriptor_outputs G k → output_rule c o)) ∧
  (∀ x, x ∈ out ↔
        x ∈ provided ∨
        ∃ kc, kc ∈ visited components order ∧ x ∈ c_state_outputs kc.2 ∧ x ≠ "all").
Proof.
  revert provided provided_all.
  induction order as [|k order IH]; intros provided provided_all.
  - simpl. split.
    + intros [= <-]. split.
      * intros pre k c post H. by destruct pre.
      * intros x. setoid_rewrite elem_of_nil. naive_solver.
    + intros [_ H]. f_equal. apply set_eq. intros x. rewrite H.
      setoid_rewrite elem_of_nil. naive_solver.
  - simpl. unfold visited. simpl. fold (visited components order).
    destruct (dict_get components k) as [c|] eqn:Hget; simpl; [|apply IH].
    destruct (COMPONENT_SETTINGS G !! k) as [s|] eqn:Hs.
    + rewrite !py_bind_unit_Val, check_inputs_spec, check_required_outputs_spec.
      pose proof (walk_input_rule_shift G provided provided_all k c) as Hshift.
      pose proof (add_outputs_spec (c_state_outputs c) provided provided_all) as [Hadd _].
      destruct (add_outputs (c_state_outputs c) provided provided_all)
        as [provided' provided_all'] eqn:Hadd_eq.
      simpl in Hshift, Hadd. rewrite IH. clear IH.
      assert (Hin : descriptor_inputs G k = cs_inputs s)
        by (unfold descriptor_inputs; by rewrite Hs).
      assert (Hout : descriptor_outputs G k = cs_outputs s)
        by (unfold descriptor_outputs; by rewrite Hs).
      split.
      * intros (Hinputs & Houtputs & Hrest & Hset). split.
        -- intros pre k0 c0 post Heq. destruct pre as [|[k1 c1] pre].
           ++ simpl in Heq. injection Heq as <- <- _. split_and!.
              ** by rewrite Hs.
              ** intros i Hi. unfold walk_input_rule, produced_before.
                 rewrite Hin. destruct (Hinputs i Hi) as [?|(? & [?|?] & ?)].
                 --- by left.
                 --- right. split_and!; [done|by left|done].
                 --- right. split_and!; [done|right; by left|done].
              ** intros o Ho. rewrite Hout in Ho. apply Houtputs, Ho.
           ++ simpl in Heq. injection Heq as -> -> Heq.
              destruct (Hrest pre k0 c0 post Heq) as (? & Hi & ?).
              split_and!; [done| |done].
              intros i Hi'. apply Hshift, Hi, Hi'.
        -- intros x. rewrite Hset, Hadd. setoid_rewrite elem_of_cons.
           split.
           ++ intros [[?|[? ?]]|(kc & ? & ? & ?)]; [by left| |].
              ** right. exists (k, c). split; [by left|done].
              ** right. exists kc. split; [by right|done].
           ++ intros [?|(kc & [->|?] & ? & ?)].
              ** left. by left.
              ** left. by right.
              ** right. by exists kc.
      * intros [Hall Hset]. split_and!.
        -- intros i Hi. destruct (Hall [] k c (visited components order) eq_refl)
             as (_ & Hrule & _).
           destruct (Hrule i Hi) as [[? ?]|(? & [?|[?|[(kc & Hkc & _)|(kc & Hkc & _)]]] & ?)];
             rewrite <- ?Hin; auto.
           ++ by apply elem_of_nil in Hkc.
           ++ by apply elem_of_nil in Hkc.
        -- intros o Ho. destruct (Hall [] k c (visited components order) eq_refl)
             as (_ & _ & Hrule).
           apply Hrule. by rewrite Hout.
        -- intros pre k0 c0 post Heq.
           destruct (Hall ((k, c) :: pre) k0 c0 post) as (? & Hi & ?).
           { simpl. by rewrite Heq. }
           split_and!; [done| |done].
           intros i Hi'. apply Hshift, Hi, Hi'.
        -- intros x. rewrite Hset, Hadd. setoid_rewrite elem_of_cons.
           split.
           ++ intros [?|(kc & [->|?] & ? & ?)].
              ** left. by left.
              ** left. by right.
              ** right. by exists kc.
           ++ intros [[?|[? ?]]|(kc & ? & ? & ?)]; [by left| |].
              ** right. exists (k, c). split; [by left|done].
              ** right. exists kc. split; [by right|done].
    + split; [done|].
      intros [Hall _].
      destruct (Hall [] k c (visited components order) eq_refl) as (Hsome & _).
      rewrite Hs in Hsome. by destruct Hsome.
Qed.

Lemma elem_of_visited components order k c :
  (k, c) ∈ visited components order → dict_get components k = Some c.
Proof.
  unfold visited. rewrite list_elem_of_omap.
  intros (k' & _ & Hk'). destruct (dict_get components k') eqn:E; [|done].
  simpl in Hk'. by injection Hk' as -> ->.
Qed.

(** C6, amended: [validate_components] succeeds exactly when, walking the
    components in graph order, every declared input is ["all"] with a
    descriptor declaring [["all"]], or is provided (already, by a prior
    component of the phase, or through a prior ["all"]) and is listed among
    the descriptor's inputs unless those are [["all"]]; every required
    output is among [state_outputs()], a required ["all"] asking for outputs
    equal to [["all"]]; and every runtime name is in the descriptor.  On
    success it returns the cumulative produced-field set. *)
Theorem validate_components_accepts (G : Graph)
    (components : list (string * Component)) (provided : option (list string))
    (out : gset string) :
  validate_components G components provided = Val out ↔
  accepts G components (input_rule G (provided_set provided)) output_rule ∧
  cumulative G components (provided_set provided) out.
Proof.
  unfold validate_components. fold (provided_set provided).
  rewrite py_bind_Val. setoid_rewrite py_bind_unit_Val.
  setoid_rewrite check_known_spec. setoid_rewrite validate_walk_spec.
  unfold accepts, cumulative. split.
  - intros (out' & (Hall & Hset) & Hknown & [= <-]). split_and!; [|done|done].
    intros pre k c post Heq. destruct (Hall pre k c post Heq) as (_ & Hi & Ho).
    split; [|done]. intros i Hin.
    destruct (Hi i Hin) as [?|(? & [?|?] & ?)]; [by left|done|by right].
  - intros [[Hall Hknown] Hset]. exists out. split_and!; [|done|done|done].
    intros pre k c post Heq. destruct (Hall pre k c post Heq) as (Hi & Ho).
    split_and!; [| |done].
    2: { intros i Hin. unfold walk_input_rule.
         destruct (Hi i Hin) as [?|(? & ? & ?)]; [by left|right; auto]. }
    apply Hknown. eapply dict_get_Some_keys, elem_of_visited.
    rewrite Heq. apply elem_of_app. right. apply list_elem_of_here.
Qed.

(** A graph of two components, [A] producing [x] and [B] declared without
    inputs, and a runtime component [B] that reads [x]. *)
Definition stray_input_graph : Graph :=
  let cs := [ ("A", {| cs_inputs := []; cs_outputs := ["x"] |});
              ("B", {| cs_inputs := []; cs_outputs := [] |}) ] in
  {| COMPONENTS := cs; COMPONENT_ORDER := cs.*1; COMPONENT_SETTINGS := py_dict_of cs |}.

Definition stray_input_components : list (string * Component) :=
  [ ("A", {| c_class := "A"; c_state_inputs := []; c_state_outputs := ["x"];
             c_rate := None |});
    ("B", {| c_class := "B"; c_state_inputs := ["x"]; c_state_outputs := [];
             c_rate := None |}) ].

(** C6, as stated, fails: every input is produced upstream, every required
    output is produced and every name is known, yet the validator raises,
    because [B] reads an input its descriptor does not list. *)
Lemma validate_components_stated_rule_fails :
  accepts stray_input_graph stray_input_components
    (input_rule_stated stray_input_graph ∅) output_rule_stated ∧
  validate_components stray_input_graph stray_input_components None
  = Exc (AssertionError "Component B is not supposed to receive input x").
Proof.
  split; [|reflexivity].
  split.
  - assert (Hvis : visited stray_input_components (COMPONENT_ORDER stray_input_graph)
                   = stray_input_components) by reflexivity.
    rewrite Hvis. unfold stray_input_components. intros pre k c post Heq.
    destruct pre as [|p1 [|p2 [|p3 pre]]]; simplify_eq/=.
    + split.
      * intros i Hi. by apply elem_of_nil in Hi.
      * intros o Ho. assert (Hd : descriptor_outputs stray_input_graph "A" = ["x"])
          by reflexivity.
        rewrite Hd in Ho. apply list_elem_of_singleton in Ho as ->.
        unfold output_rule_stated. simpl. apply list_elem_of_here.
    + split.
      * intros i Hi. simpl in Hi. apply list_elem_of_singleton in Hi as ->.
        right. split; [done|]. right. left.
        eexists. split; [apply list_elem_of_here|]. simpl. apply list_elem_of_here.
      * intros o Ho. assert (Hd : descriptor_outputs stray_input_graph "B" = [])
          by reflexivity.
        rewrite Hd in Ho. by apply elem_of_nil in Ho.
  - intros k Hk. simpl in Hk.
    apply elem_of_cons in Hk as [->|Hk]; [by eexists|].
    apply list_elem_of_singleton in Hk as ->. by eexists.
Qed.

(** ** Reasoning on the monad *)

Lemma bind_Ok {A B} (m : M A) (f : A → M B) w b w' :
  bind m f w = Ok b w' ↔ ∃ a w1, m w = Ok a w1 ∧ f a w1 = Ok b w'.
Proof.
  unfold bind. destruct (m w) as [a w1|e w1|w1]; split;
    try done; try naive_solver.
Qed.

(** An invariant of the world that a piece of code maintains, however the
    code ends. *)
Definition maintains {A} (I : World → Prop) (m : M A) : Prop :=
  ∀ w, I w → I (res_world (m w)).

Section Maintains.
Context (I : World → Prop).

Lemma maintains_ret {A} (a : A) : maintains I (ret a).
Proof. by intros w Hw. Qed.

Lemma maintains_raise {A} e : maintains I (@raise A e).
Proof. by intros w Hw. Qed.

Lemma maintains_out_of_fuel {A} : maintains I (@out_of_fuel A).
Proof. by intros w Hw. Qed.

Lemma maintains_get : maintains I get.
Proof. by intros w Hw. Qed.

Lemma maintains_get_ex a : maintains I (get_ex a).
Proof. by intros w Hw. Qed.

Lemma maintains_getattr k : maintains I (getattr k).
Proof. intros w Hw. unfold getattr. by destruct (state w !! k). Qed.

Lemma maintains_assert b msg : maintains I (assert b msg).
Proof. intros w Hw. by destruct b. Qed.

Lemma maintains_lift_py {A} (p : Py A) : maintains I (lift_py p).
Proof. intros w Hw. by destruct p. Qed.

Lemma maintains_modify f : (∀ w, I w → I (f w)) → maintains I (modify f).
Proof. intros H w Hw. by apply H. Qed.

Lemma maintains_bind {A B} (m : M A) (f : A → M B) :
  maintains I m → (∀ a, maintains I (f a)) → maintains I (bind m f).
Proof.
  intros Hm Hf w Hw. unfold bind. specialize (Hm w Hw).
  destruct (m w) as [a w1|e w1|w1]; simpl in *; [|done|done].
  by apply Hf.
Qed.

Lemma maintains_try {A} (m h : M A) :
  maintains I m → maintains I h → maintains I (try_except_KeyboardInterrupt m h).
Proof.
  intros Hm Hh w Hw. unfold try_except_KeyboardInterrupt. specialize (Hm w Hw).
  destruct (m w) as [a w1|e w1|w1]; simpl in *; [done| |done].
  destruct e; try done. by apply Hh.
Qed.

Lemma maintains_for_each {A} (xs : list A) (body : A → M unit) :
  (∀ x, maintains I (body x)) → maintains I (for_each xs body).
Proof.
  intros Hbody. induction xs as [|x xs IH]; simpl.
  - apply maintains_ret.
  - apply maintains_bind; [apply Hbody|by intros _].
Qed.

Lemma maintains_map_m {A B} (f : A → M B) (xs : list A) :
  (∀ x, maintains I (f x)) → maintains I (map_m f xs).
Proof.
  intros Hf. induction xs as [|x xs IH]; simpl.
  - apply maintains_ret.
  - apply maintains_bind; [apply Hf|intros y].
    apply maintains_bind; [apply IH|intros ys]. apply maintains_ret.
Qed.
End Maintains.

(** The events that only report: prints, log records and the hooks. *)
Definition log_event (ev : Event) : bool :=
  match ev with
  | EvPrint _ | EvStderr _ | EvCaptured _ _ _ | EvLogUpdate _ | EvEvent _
  | EvExit _ | EvPipelineStart _ | EvBegin | EvEnd => true
  | EvMakeClass _ | EvInitialize _ | EvCleanup _ | EvUpdate _ _ | EvLogClose => false
  end.

(** The changes [update] and [_do_update] make to an executor object: the
    component and its declared attributes stay, and a latched exception
    stays latched. *)
Definition benign (f : ComponentExecutor → ComponentExecutor) : Prop :=
  ∀ e, ex_c (f e) = ex_c e ∧ ex_essential (f e) = ex_essential e ∧
       ex_inputs (f e) = ex_inputs e ∧ ex_output (f e) = ex_output e ∧
       ex_dt (f e) = ex_dt e ∧
       (ex_had_exception e = true → ex_had_exception (f e) = true).

Definition heap_set (a : nat) (f : ComponentExecutor → ComponentExecutor)
    (w : World) : World :=
  with_heap (λ b, if decide (b = a) then f (w_heap w a) else w_heap w b) (w_next w) w.

(** An invariant that the scheduling code around the components cannot
    break: it does not depend on the oracle position, the log-only events,
    the benign changes of executor objects, the clock field of the
    blackboard, or the fault bookkeeping. *)
Class Stable (I : World → Prop) : Prop := {
  stable_calls : ∀ w n, I w → I (with_calls n w);
  stable_emit : ∀ w ev, log_event ev = true → I w → I (with_trace (ev :: w_trace w) w);
  stable_heap : ∀ w a f, benign f → I w → I (heap_set a f w);
  stable_clock : ∀ w v, I w → I (with_state (<["t" := v]> (state w)) w);
  stable_loop_time : ∀ w t, I w → I (with_last_loop_time t w);
  stable_faults : ∀ w fs, I w → I (with_last_hardware_faults fs w);
}.

(** An invariant that does not depend on the current pipeline either, which
    the mission loop changes between two calls of [run_until_switch]. *)
Class PipelineStable (I : World → Prop) : Prop := {
  stable_pipeline : ∀ w p, I w → I (with_current_pipeline p w);
}.

Lemma benign_with_had_exception : benign (with_had_exception true).
Proof. intros e. by repeat split. Qed.

Lemma benign_with_schedule last next overruns amount :
  benign (with_schedule last next overruns amount).
Proof. intros e. by repeat split. Qed.

Create HintDb maintain discriminated.

#[export] Hint Resolve benign_with_had_exception benign_with_schedule : maintain.

Ltac maintain_step :=
  lazymatch goal with
  | |- maintains _ (bind _ _) => apply maintains_bind; [|intros ?]
  | |- maintains _ (ret _) => apply maintains_ret
  | |- maintains _ (raise _) => apply maintains_raise
  | |- maintains _ out_of_fuel => apply maintains_out_of_fuel
  | |- maintains _ get => apply maintains_get
  | |- maintains _ (get_ex _) => apply maintains_get_ex
  | |- maintains _ (getattr _) => apply maintains_getattr
  | |- maintains _ (assert _ _) => apply maintains_assert
  | |- maintains _ (lift_py _) => apply maintains_lift_py
  | |- maintains _ (try_except_KeyboardInterrupt _ _) => apply maintains_try
  | |- maintains _ (for_each _ _) => apply maintains_for_each; intros ?
  | |- maintains _ (map_m _ _) => apply maintains_map_m; intros ?
  | |- maintains _ (emit _) =>
      apply maintains_modify; intros ? ?; apply stable_emit; [reflexivity|assumption]
  | |- maintains _ (set_ex _ _) =>
      apply maintains_modify; intros ? ?; apply stable_heap;
      [auto with maintain|assumption]
  | |- maintains _ (setattr "t" _) =>
      apply maintains_modify; intros ? ?; by apply stable_clock
  | |- maintains _ (modify (with_current_pipeline _)) =>
      apply maintains_modify; intros ? ?; by apply stable_pipeline
  | |- maintains _ (modify (with_last_loop_time _)) =>
      apply maintains_modify; intros ? ?; by apply stable_loop_time
  | |- maintains _ (modify (with_last_hardware_faults _)) =>
      apply maintains_modify; intros ? ?; by apply stable_faults
  | |- maintains _ (match ?x with _ => _ end) => destruct x
  | |- maintains _ (let '(_, _) := ?x in _) => destruct x
  | |- maintains _ _ => solve [auto with maintain]
  end.

Ltac maintain := repeat maintain_step.

Section StableCode.
Context (oracle : Oracle) (G : Graph) (require_engaged : bool).
Context (I : World → Prop) `{!Stable I} `{!PipelineStable I}.

Lemma maintains_ask {A} (f : Oracle → nat → A) : maintains I (ask oracle f).
Proof. intros w Hw. by apply stable_calls. Qed.
Hint Resolve maintains_ask : maintain.

Lemma maintains_executor_debug_print v fmt n :
  maintains I (executor_debug_print v fmt n).
Proof. unfold executor_debug_print. maintain. Qed.
Hint Resolve maintains_executor_debug_print : maintain.

Lemma maintains_executor_debug_stderr fmt n :
  maintains I (executor_debug_stderr fmt n).
Proof. unfold executor_debug_stderr. maintain. Qed.
Hint Resolve maintains_executor_debug_stderr : maintain.

Lemma maintains_executor_debug_exception tb fmt n :
  maintains I (executor_debug_exception tb fmt n).
Proof. unfold executor_debug_exception. maintain. Qed.
Hint Resolve maintains_executor_debug_exception : maintain.

Lemma maintains_log_output a out err : maintains I (log_output a out err).
Proof. unfold log_output. maintain. Qed.
Hint Resolve maintains_log_output : maintain.

Lemma maintains_healthy a : maintains I (healthy oracle a).
Proof. unfold healthy. maintain. Qed.
Hint Resolve maintains_healthy : maintain.

Lemma maintains_event desc ps : maintains I (event desc ps).
Proof. unfold event. maintain. Qed.
Hint Resolve maintains_event : maintain.

Lemma maintains_set_exit_reason desc : maintains I (set_exit_reason desc).
Proof. unfold set_exit_reason. maintain. Qed.
Hint Resolve maintains_set_exit_reason : maintain.

Lemma maintains_fault_loop last faults printed :
  maintains I (fault_loop require_engaged last faults printed).
Proof.
  revert printed. induction faults as [|f faults IH]; intros printed; simpl; maintain.
Qed.
Hint Resolve maintains_fault_loop : maintain.

Lemma maintains_check_for_hardware_faults :
  maintains I (check_for_hardware_faults oracle require_engaged).
Proof. unfold check_for_hardware_faults. maintain. Qed.
Hint Resolve maintains_check_for_hardware_faults : maintain.

Lemma maintains_tick_clock : maintains I (tick_clock oracle).
Proof. unfold tick_clock. maintain. Qed.
Hint Resolve maintains_tick_clock : maintain.

Lemma maintains_looper : maintains I (looper oracle).
Proof. unfold looper. maintain. Qed.
Hint Resolve maintains_looper : maintain.

Lemma maintains_dt_min_of components : maintains I (dt_min_of components).
Proof. unfold dt_min_of. maintain. Qed.
Hint Resolve maintains_dt_min_of : maintain.

Lemma maintains_read_t : maintains I read_t.
Proof. unfold read_t. maintain. Qed.
Hint Resolve maintains_read_t : maintain.

Lemma maintains_all_healthy components : maintains I (all_healthy oracle components).
Proof. unfold all_healthy. maintain. Qed.
Hint Resolve maintains_all_healthy : maintain.

Lemma maintains_check_faults components fatal warning :
  maintains I (check_faults oracle components fatal warning).
Proof.
  induction components as [|[name a] components IH]; simpl; maintain.
Qed.
Hint Resolve maintains_check_faults : maintain.

Lemma maintains_hang_check : maintains I (hang_check oracle).
Proof. unfold hang_check. maintain. Qed.
Hint Resolve maintains_hang_check : maintain.

Lemma maintains_on_interrupt : maintains I (on_interrupt oracle).
Proof. unfold on_interrupt. maintain. Qed.
Hint Resolve maintains_on_interrupt : maintain.

(** The code around the component calls maintains the invariant as soon as
    one component call, [update_now], does. *)
Section AroundUpdate.
Hypothesis maintains_update_now : ∀ a t, maintains I (update_now oracle a t).
Hint Resolve maintains_update_now : maintain.

Lemma maintains_update a t : maintains I (update oracle a t).
Proof. unfold update. maintain. Qed.
Hint Resolve maintains_update : maintain.

Lemma maintains_update_component components t now k :
  maintains I (update_component oracle components t now k).
Proof. unfold update_component. maintain. Qed.
Hint Resolve maintains_update_component : maintain.

Lemma maintains_update_components components now force :
  maintains I (update_components oracle G components now force).
Proof. unfold update_components. maintain. Qed.
Hint Resolve maintains_update_components : maintain.

Lemma maintains_validate_sensors_loop fuel perception numsteps working attempts next :
  maintains I (validate_sensors_loop oracle G require_engaged fuel perception
                 numsteps working attempts next).
Proof.
  revert working attempts next.
  induction fuel as [|fuel IH]; intros working attempts next; simpl; maintain.
Qed.
Hint Resolve maintains_validate_sensors_loop : maintain.

Lemma maintains_validate_sensors fuel numsteps :
  maintains I (validate_sensors oracle G require_engaged fuel numsteps).
Proof. unfold validate_sensors. maintain. Qed.
Hint Resolve maintains_validate_sensors : maintain.

Lemma maintains_run_until_switch_body perception planning other :
  maintains I (run_until_switch_body oracle G require_engaged perception planning other).
Proof. unfold run_until_switch_body. maintain. Qed.
Hint Resolve maintains_run_until_switch_body : maintain.

Lemma maintains_run_until_switch_loop fuel perception planning other :
  maintains I (run_until_switch_loop oracle G require_engaged fuel perception
                 planning other).
Proof. induction fuel as [|fuel IH]; simpl; maintain. Qed.
Hint Resolve maintains_run_until_switch_loop : maintain.

Lemma maintains_revalidate fuel :
  maintains I (revalidate oracle G require_engaged fuel).
Proof. unfold revalidate. maintain. Qed.
Hint Resolve maintains_revalidate : maintain.

Lemma maintains_after_switch fuel next :
  maintains I (after_switch oracle G require_engaged fuel next).
Proof. unfold after_switch. maintain. Qed.
Hint Resolve maintains_after_switch : maintain.

(** The rest of the mission loop also writes the mission type. *)
Section AroundMission.
Hypothesis stable_mission :
  ∀ w ty, I w → I (with_state (<["mission" := VMission ty]> (state w)) w).

Lemma maintains_set_mission_type ty : maintains I (set_mission_type ty).
Proof.
  unfold set_mission_type. maintain.
  apply maintains_modify. intros w Hw. by apply stable_mission.
Qed.
Hint Resolve maintains_set_mission_type : maintain.

Lemma maintains_run_until_switch fuel :
  maintains I (run_until_switch oracle G require_engaged fuel).
Proof. unfold run_until_switch. maintain. Qed.
Hint Resolve maintains_run_until_switch : maintain.

Lemma maintains_mission_step fuel :
  maintains I (mission_step oracle G require_engaged fuel).
Proof. unfold mission_step. maintain. Qed.
Hint Resolve maintains_mission_step : maintain.

Lemma maintains_mission_loop fuel :
  maintains I (mission_loop oracle G require_engaged fuel).
Proof. induction fuel as [|fuel IH]; simpl; maintain. Qed.

Lemma maintains_sensor_validation validate :
  maintains I validate → maintains I (sensor_validation oracle validate).
Proof. intros H. unfold sensor_validation. maintain. Qed.
End AroundMission.
End AroundUpdate.
End StableCode.

#[export] Hint Resolve maintains_ask maintains_executor_debug_print
  maintains_executor_debug_stderr maintains_executor_debug_exception
  maintains_log_output maintains_healthy maintains_event maintains_set_exit_reason
  maintains_check_for_hardware_faults maintains_tick_clock maintains_looper
  maintains_dt_min_of maintains_read_t maintains_all_healthy maintains_check_faults
  maintains_hang_check maintains_on_interrupt : maintain.

(** ** One component call *)

Definition is_update (ev : Event) : bool :=
  match ev with
  | EvUpdate _ _ => true
  | _ => false
  end.

(** An invariant that a component call cannot break: it does not depend on
    the oracle position, on the events of the call, on the latch of
    [had_exception], or on the blackboard. *)
Class CallStable (I : World → Prop) : Prop := {
  call_calls : ∀ w n, I w → I (with_calls n w);
  call_emit : ∀ w ev, log_event ev || is_update ev = true → I w →
              I (with_trace (ev :: w_trace w) w);
  call_latch : ∀ w a, I w → I (heap_set a (with_had_exception true) w);
  call_write : ∀ w k v, I w → I (with_state (<[k := v]> (state w)) w);
}.

Ltac call_step :=
  lazymatch goal with
  | |- maintains _ (emit _) =>
      apply maintains_modify; intros ? ?; apply call_emit; [reflexivity|assumption]
  | |- maintains _ (ask _ _) => intros ? ?; by apply call_calls
  | |- maintains _ (set_ex _ (with_had_exception true)) =>
      apply maintains_modify; intros ? ?; by apply call_latch
  | |- maintains _ (setattr _ _) =>
      apply maintains_modify; intros ? ?; by apply call_write
  | |- maintains _ (if Nat.leb ?v ?n then _ else _) => destruct (Nat.leb v n)
  | |- _ => maintain_step
  end.

Section CallStableCode.
Context (oracle : Oracle) (I : World → Prop) `{!CallStable I}.

Lemma call_executor_debug_print v fmt n : maintains I (executor_debug_print v fmt n).
Proof. unfold executor_debug_print. repeat call_step. Qed.

Lemma call_executor_debug_exception tb fmt n :
  maintains I (executor_debug_exception tb fmt n).
Proof.
  pose proof call_executor_debug_print.
  unfold executor_debug_exception, executor_debug_stderr. repeat call_step.
Qed.

Lemma call_log_output a out err : maintains I (log_output a out err).
Proof. unfold log_output. repeat call_step. Qed.

Lemma call_do_update a t : maintains I (_do_update oracle a t).
Proof.
  pose proof call_executor_debug_exception. pose proof call_log_output.
  unfold _do_update. repeat call_step.
Qed.

Lemma call_write_output t kv : maintains I (write_output t kv).
Proof. unfold write_output. repeat call_step. Qed.

Lemma call_update_now a t : maintains I (update_now oracle a t).
Proof.
  pose proof call_executor_debug_print. pose proof call_do_update.
  pose proof call_write_output.
  unfold update_now. repeat call_step.
Qed.
End CallStableCode.

(** [update_now] leaves the scheduling attributes of every executor as they
    are. *)
Definition same_schedule (e e' : ComponentExecutor) : Prop :=
  ex_next_update_time e' = ex_next_update_time e ∧
  ex_last_update_time e' = ex_last_update_time e ∧
  ex_dt e' = ex_dt e ∧
  ex_num_overruns e' = ex_num_overruns e ∧
  ex_overrun_amount e' = ex_overrun_amount e ∧
  ex_output e' = ex_output e ∧
  ex_inputs e' = ex_inputs e.

Lemma same_schedule_call_stable (w0 : World) :
  CallStable (λ w, ∀ b, same_schedule (w_heap w0 b) (w_heap w b)).
Proof.
  split; try done.
  intros w a H b. simpl. destruct (decide (b = a)) as [->|]; [|apply H].
  apply (H a).
Qed.

Lemma update_now_same_schedule oracle a t w b :
  same_schedule (w_heap w b) (w_heap (res_world (update_now oracle a t w)) b).
Proof.
  pose proof (same_schedule_call_stable w) as Hst.
  revert b.
  apply (call_update_now oracle
           (λ w', ∀ b, same_schedule (w_heap w b) (w_heap w' b)) a t w).
  intros b. by repeat split.
Qed.

(** ** Overrun accounting (C7) *)

Lemma update_Ok_true oracle a t w w' :
  update oracle a t w = Ok true w' →
  ∃ w1 e1,
    (∀ b, same_schedule (w_heap w b) (w_heap w1 b)) ∧ e1 = w_heap w1 a ∧
    let next := advance (ex_next_update_time e1) t (ex_dt e1) in
    w_heap w' a =
      if PrimFloat.ltb next t && PrimFloat.ltb 0 (ex_dt e1) then
        with_schedule (Some t) (Some (PrimFloat.add t (ex_dt e1)))
          (ex_num_overruns e1 + 1)
          (PrimFloat.add (ex_overrun_amount e1) (PrimFloat.sub t next))
          (with_schedule (Some t) (Some next) (ex_num_overruns e1)
             (ex_overrun_amount e1) e1)
      else
        with_schedule (Some t) (Some next) (ex_num_overruns e1)
          (ex_overrun_amount e1) e1.
Proof.
  unfold update. rewrite bind_Ok. intros (e & w0 & [= <- <-] & H).
  destruct (due (ex_next_update_time (w_heap w a)) t).
  2: { apply bind_Ok in H as (? & ? & _ & [= ]). }
  apply bind_Ok in H as (t0 & wa & [= <- <-] & H).
  apply bind_Ok in H as ([] & wb & Hnow & H).
  apply bind_Ok in H as (t1 & wc & [= <- <-] & H).
  apply bind_Ok in H as (e1 & wd & [= <- <-] & H).
  apply bind_Ok in H as ([] & we & [= <-] & H).
  apply bind_Ok in H as ([] & wf & H & [= <-]).
  exists wb, (w_heap wb a). split_and!; [|done|].
  - intros b. pose proof (update_now_same_schedule oracle a t
                            (with_calls (S (w_calls w)) w) b) as Hs.
    by rewrite Hnow in Hs.
  - simpl.
    destruct (PrimFloat.ltb (advance (ex_next_update_time (w_heap wb a)) t
                               (ex_dt (w_heap wb a))) t
              && PrimFloat.ltb 0 (ex_dt (w_heap wb a))).
    + apply bind_Ok in H as ([] & wg & Hprint & [= <-]).
      assert (Hheap : w_heap wg = w_heap
                (heap_set a (with_schedule (Some t)
                   (Some (advance (ex_next_update_time (w_heap wb a)) t
                            (ex_dt (w_heap wb a))))
                   (ex_num_overruns (w_heap wb a))
                   (ex_overrun_amount (w_heap wb a)))
                   (with_calls (S (w_calls wb)) wb))).
      { revert Hprint. unfold executor_debug_print, emit, modify, raise. simpl.
        repeat case_match; by intros [= <-]. }
      simpl. rewrite Hheap. simpl. by rewrite !decide_True.
    + injection H as <-. simpl. by rewrite decide_True.
Qed.

(** C7: when [update] runs the component of an executor with [dt > 0] and
    the advanced [next_update_time] is still earlier than [t], one overrun
    is counted, [t - next_update_time] is added to [overrun_amount], and
    [next_update_time] is reset to [t + dt]. *)
Theorem update_counts_one_overrun (oracle : Oracle) (a : nat) (t : float)
    (w w' : World) :
  let e := w_heap w a in
  let next := advance (ex_next_update_time e) t (ex_dt e) in
  update oracle a t w = Ok true w' →
  PrimFloat.ltb 0 (ex_dt e) = true →
  PrimFloat.ltb next t = true →
  ex_num_overruns (w_heap w' a) = (ex_num_overruns e + 1)%Z ∧
  ex_overrun_amount (w_heap w' a)
  = PrimFloat.add (ex_overrun_amount e) (PrimFloat.sub t next) ∧
  ex_next_update_time (w_heap w' a) = Some (PrimFloat.add t (ex_dt e)) ∧
  ex_last_update_time (w_heap w' a) = Some t.
Proof.
  intros e next Hupdate Hdt Hlate.
  apply update_Ok_true in Hupdate as (w1 & e1 & Hsame & -> & Hheap).
  destruct (Hsame a) as (Hn & _ & Hd & Ho & Hm & _). fold e in Hn, Hd, Ho, Hm.
  simpl in Hheap. rewrite Hn, Hd, Ho, Hm in Hheap. fold next in Hheap.
  rewrite Hlate, Hdt in Hheap. simpl in Hheap. by rewrite Hheap.
Qed.

(** The other case: a component polled on time, or one without a rate,
    counts nothing and keeps its phase. *)
Lemma update_on_time_counts_none (oracle : Oracle) (a : nat) (t : float)
    (w w' : World) :
  let e := w_heap w a in
  let next := advance (ex_next_update_time e) t (ex_dt e) in
  update oracle a t w = Ok true w' →
  PrimFloat.ltb next t && PrimFloat.ltb 0 (ex_dt e) = false →
  ex_num_overruns (w_heap w' a) = ex_num_overruns e ∧
  ex_overrun_amount (w_heap w' a) = ex_overrun_amount e ∧
  ex_next_update_time (w_heap w' a) = Some next.
Proof.
  intros e next Hupdate Hlate.
  apply update_Ok_true in Hupdate as (w1 & e1 & Hsame & -> & Hheap).
  destruct (Hsame a) as (Hn & _ & Hd & Ho & Hm & _). fold e in Hn, Hd, Ho, Hm.
  simpl in Hheap. rewrite Hn, Hd, Ho, Hm in Hheap. fold next in Hheap.
  rewrite Hlate in Hheap. by rewrite Hheap.
Qed.

(** *** A component that takes twice its period *)

(** An executor as [ComponentExecutor.__init__] leaves it, for a component
    of period [dt]. *)
Definition fresh_executor (c : Component) (dt : float) : ComponentExecutor :=
  {| ex_c := c; ex_essential := true; ex_do_debug := true;
     ex_print_stdout := true; ex_print_stderr := false;
     ex_inputs := c_state_inputs c; ex_output := c_state_outputs c;
     ex_last_update_time := None; ex_next_update_time := None;
     ex_had_exception := false; ex_dt := dt;
     ex_num_overruns := 0; ex_overrun_amount := 0%float;
     ex_multiprocess := false; ex_debugger := false |}.

(** An [ExecutorBase] as [__init__] leaves it, over a store holding [e] at
    every address. *)
Definition initial_world (e : ComponentExecutor) : World :=
  {| w_calls := 0; w_trace := []; w_heap := λ _, e; w_next := 0;
     all_components := []; always_run_components := []; pipelines := [];
     current_pipeline := "drive"; state := ∅; last_loop_time := 0%float;
     last_hardware_faults := []; replayed_components := [];
     rosbag_player := false; LOGGING_MANAGER := false |}.

(** An outside world where every component returns [res], everything is
    healthy, nothing fails, the mission is done when [done_at] external
    calls were made, and both clocks advance by half a second per external
    call. *)
Definition steady_oracle (upd : UpdateResult) (done_at : nat) : Oracle :=
  {| o_make_class := λ _, MadeOther;
     o_component_replayer := λ _, None;
     o_initialize := λ _, None;
     o_cleanup := λ _, None;
     o_update := λ _, upd;
     o_healthy := λ _, true;
     o_vehicle_time := λ n, Nat.iter n (PrimFloat.add 0.5) 0%float;
     o_wall_time := λ n, Nat.iter n (PrimFloat.add 0.5) 0%float;
     o_hardware_faults := λ _, [];
     o_looper := λ _, Some true;
     o_done := λ n, Nat.leb done_at n;
     o_update_hook := λ _, None |}.

Definition slow_component : Component :=
  {| c_class := "Slow"; c_state_inputs := []; c_state_outputs := ["x"];
     c_rate := Some 2%float |}.

(** The executor of [slow_component] after a first update at time [0]:
    between the two readings of the wall clock around [update_now] a full
    second went by, twice the period of half a second. *)
Definition slow_world : World :=
  res_world (update (steady_oracle (Returns (VInt 1) "" "") 0) 0 0
               (initial_world (fresh_executor slow_component 0.5))).

(** The next poll, at time [1.25]. *)
Definition slow_world_polled : World :=
  res_world (update (steady_oracle (Returns (VInt 1) "" "") 0) 0 1.25 slow_world).

Lemma update_counts_one_overrun_witness :
  let oracle := steady_oracle (Returns (VInt 1) "" "") 0 in
  let e := w_heap slow_world 0 in
  let next := advance (ex_next_update_time e) 1.25 (ex_dt e) in
  (update oracle 0 1.25 slow_world = Ok true slow_world_polled ∧
   PrimFloat.ltb 0 (ex_dt e) = true ∧
   PrimFloat.ltb next 1.25 = true) ∧
  ex_num_overruns (w_heap slow_world_polled 0) = (ex_num_overruns e + 1)%Z ∧
  ex_overrun_amount (w_heap slow_world_polled 0)
  = PrimFloat.add (ex_overrun_amount e) (PrimFloat.sub 1.25 next) ∧
  ex_next_update_time (w_heap slow_world_polled 0)
  = Some (PrimFloat.add 1.25 (ex_dt e)) ∧
  ex_last_update_time (w_heap slow_world_polled 0) = Some 1.25%float.
Proof.
  intros oracle e next.
  assert (Hupdate : update oracle 0 1.25 slow_world = Ok true slow_world_polled)
    by (vm_compute; reflexivity).
  assert (Hdt : PrimFloat.ltb 0 (ex_dt e) = true) by (vm_compute; reflexivity).
  assert (Hlate : PrimFloat.ltb next 1.25 = true) by (vm_compute; reflexivity).
  split; [by split_and!|].
  exact (update_counts_one_overrun oracle 0 1.25 slow_world slow_world_polled
           Hupdate Hdt Hlate).
Defined.

(** The numbers of that poll: one overrun, of a quarter of a second, and a
    next update one period after the poll. *)
Lemma slow_component_counts_one :
  ex_next_update_time (w_heap slow_world 0) = Some 0.5%float ∧
  ex_num_overruns (w_heap slow_world 0) = 0%Z ∧
  ex_num_overruns (w_heap slow_world_polled 0) = 1%Z ∧
  ex_overrun_amount (w_heap slow_world_polled 0) = 0.25%float ∧
  ex_next_update_time (w_heap slow_world_polled 0) = Some 1.75%float.
Proof. vm_compute. by repeat split. Qed.

(** ** A result of the wrong length (C3) *)

Lemma bind_ok_eq {A B} (m : M A) (f : A → M B) w a w1 :
  m w = Ok a w1 → bind m f w = f a w1.
Proof. unfold bind. by intros ->. Qed.

Lemma bind_raise_eq {A B} (m : M A) (f : A → M B) w e w1 :
  m w = Raise e w1 → bind m f w = Raise e w1.
Proof. unfold bind. by intros ->. Qed.

Lemma map_m_getattr_Ok (names : list string) w :
  (∀ i, i ∈ names → is_Some (state w !! i)) →
  ∃ vs, map_m getattr names w = Ok vs w.
Proof.
  induction names as [|i names IH]; intros H; simpl.
  - by eexists.
  - destruct (H i) as [v Hv]; [apply list_elem_of_here|].
    destruct IH as [vs Hvs].
    { intros j Hj. apply H, list_elem_of_further, Hj. }
    exists (v :: vs). unfold bind at 1. unfold getattr at 1. rewrite Hv.
    unfold bind at 1. by rewrite Hvs.
Qed.

(** The arguments of the component can be read off the blackboard. *)
Definition inputs_readable (e : ComponentExecutor) (w : World) : Prop :=
  ex_inputs e = ["all"] ∨ ∀ i, i ∈ ex_inputs e → is_Some (state w !! i).

(** The world after a component returned: two more events at most, one more
    external call, and nothing else. *)
Definition after_return (a : nat) (stdout stderr : string) (w : World) : World :=
  let w1 := with_calls (S (w_calls w))
              (with_trace (EvUpdate a (state w) :: w_trace w) w) in
  let w2 := if decide (stdout = "") then w1
            else with_trace (EvCaptured a "stdout" stdout :: w_trace w1) w1 in
  if decide (stderr = "") then w2
  else with_trace (EvCaptured a "stderr" stderr :: w_trace w2) w2.

Lemma after_return_state a out err w : state (after_return a out err w) = state w.
Proof. unfold after_return. by repeat case_decide. Qed.

Lemma after_return_heap a out err w : w_heap (after_return a out err w) = w_heap w.
Proof. unfold after_return. by repeat case_decide. Qed.

Lemma do_update_Returns oracle a t w res out err :
  o_update oracle (w_calls w) = Returns res out err →
  _do_update oracle a t w = Ok res (after_return a out err w).
Proof.
  intros Hres. unfold _do_update, after_return.
  cbv [bind get emit modify ask]. simpl. rewrite Hres.
  unfold log_output. cbv [bind emit modify ret].
  by repeat case_decide.
Qed.

Lemma update_now_reaches_component oracle a t w res out err :
  inputs_readable (w_heap w a) w →
  o_update oracle (w_calls w) = Returns res out err →
  update_now oracle a t w =
  (let e := w_heap w a in
   match res with
   | VNone => ret tt
   | _ =>
       if Nat.ltb 1 (length (ex_output e)) then
         match py_len res with
         | None => raise (TypeError "object has no len()")
         | Some n =>
             assert (Nat.eqb n (length (ex_output e)))
               "Component output does not match expected length" ;;;
             for_each (zip (ex_output e) (py_iter res)) (write_output t)
         end
       else
         match ex_output e with
         | [] => raise (IndexError "list index out of range")
         | k :: _ => write_output t (k, res)
         end
   end) (after_return a out err w).
Proof.
  intros Hread Hres. unfold update_now.
  rewrite (bind_ok_eq (get_ex a) _ w (w_heap w a) w eq_refl).
  assert (Hargs :
    (if bool_decide (ex_inputs (w_heap w a) = ["all"]) then ret tt
     else _ <~ map_m getattr (ex_inputs (w_heap w a)) ;; ret tt) w = Ok tt w).
  { case_bool_decide as Hall; [done|].
    destruct Hread as [?|Hread]; [done|].
    destruct (map_m_getattr_Ok _ w Hread) as [vs Hvs].
    by rewrite (bind_ok_eq _ _ _ _ _ Hvs). }
  rewrite (bind_ok_eq _ _ _ _ _ Hargs).
  rewrite (bind_ok_eq (executor_debug_print 2 "Updating {}" 1) _ w tt w eq_refl).
  rewrite (bind_ok_eq _ _ _ _ _ (do_update_Returns oracle a t w res out err Hres)).
  rewrite (bind_ok_eq (get_ex a) _ _ (w_heap (after_return a out err w) a) _ eq_refl).
  by rewrite after_return_heap.
Qed.

(** C3, amended: with more than one declared output and a returned value
    whose length is another number, [update_now] raises an assertion error;
    nothing in the executor catches or records it.  No blackboard field or
    update time is written and no executor object is changed, so the
    component is not marked unhealthy. *)
Theorem update_now_arity_mismatch (oracle : Oracle) (a : nat) (t : float)
    (w : World) (res : Value) (stdout stderr : string) (n : nat) :
  let e := w_heap w a in
  1 < length (ex_output e) →
  inputs_readable e w →
  o_update oracle (w_calls w) = Returns res stdout stderr →
  res ≠ VNone →
  py_len res = Some n →
  n ≠ length (ex_output e) →
  ∃ w', update_now oracle a t w
        = Raise (AssertionError "Component output does not match expected length") w' ∧
        state w' = state w ∧ w_heap w' = w_heap w.
Proof.
  intros e Hout Hread Hres Hnone Hlen Hne.
  rewrite (update_now_reaches_component oracle a t w res stdout stderr Hread Hres).
  fold e. simpl.
  assert (Hlt : Nat.ltb 1 (length (ex_output e)) = true) by by apply Nat.ltb_lt.
  assert (Heq : Nat.eqb n (length (ex_output e)) = false) by by apply Nat.eqb_neq.
  exists (after_return a stdout stderr w).
  rewrite after_return_state, after_return_heap. split; [|done].
  destruct res; try done; rewrite Hlt, Hlen; by rewrite Heq.
Qed.

(** *** A component that returns one value for two outputs *)

Definition pair_component : Component :=
  {| c_class := "Pair"; c_state_inputs := []; c_state_outputs := ["a"; "b"];
     c_rate := Some 2%float |}.

(** One executor, made by [make_component], in the planning phase of the
    pipeline [drive]; the pipeline [recovery] is empty. *)
Definition one_planner_world (c : Component) : World :=
  with_pipelines [ ("drive", ([], [("planner", 0)], []));
                   ("recovery", ([], [], [])) ]
    (with_all_components [("('planner', 'planning.Planner')", 0)]
       (with_heap (λ _, fresh_executor c 0.5) 1
          (initial_world (fresh_executor c 0.5)))).

Definition one_planner_graph : Graph :=
  let cs := [("planner", {| cs_inputs := []; cs_outputs := [] |})] in
  {| COMPONENTS := cs; COMPONENT_ORDER := cs.*1; COMPONENT_SETTINGS := py_dict_of cs |}.

(** A blackboard with a mission record and a clock. *)
Definition zero_state : AllState :=
  <["mission" := VMission IDLE]> (<["t" := VFloat 0]> ∅).

Definition short_result : UpdateResult := Returns (VSeq [VInt 1]) "" "".

(** C3, as stated, fails: the assertion error of [update_now] is raised out
    of the mission loop and out of [run]. *)
Lemma arity_error_leaves_run :
  ∃ w', run (steady_oracle short_result 1000) one_planner_graph false zero_state 5
          (one_planner_world pair_component)
        = Raise (AssertionError "Component output does not match expected length") w'.
Proof. eexists. vm_compute. reflexivity. Qed.

Lemma update_now_arity_mismatch_witness :
  let w := one_planner_world pair_component in
  let e := w_heap w 0 in
  (1 < length (ex_output e) ∧
   inputs_readable e w ∧
   o_update (steady_oracle short_result 1000) (w_calls w) = short_result ∧
   VSeq [VInt 1] ≠ VNone ∧
   py_len (VSeq [VInt 1]) = Some 1 ∧
   1 ≠ length (ex_output e)) ∧
  ∃ w', update_now (steady_oracle short_result 1000) 0 0 w
        = Raise (AssertionError "Component output does not match expected length") w' ∧
        state w' = state w ∧ w_heap w' = w_heap w.
Proof.
  intros w e.
  assert (H1 : 1 < length (ex_output e)) by (simpl; lia).
  assert (H2 : inputs_readable e w).
  { right. intros i Hi. by apply elem_of_nil in Hi. }
  assert (H3 : 1 ≠ length (ex_output e)) by (simpl; lia).
  split; [by split_and!|].
  exact (update_now_arity_mismatch (steady_oracle short_result 1000) 0 0 w
           (VSeq [VInt 1]) "" "" 1 H1 H2 eq_refl ltac:(done) eq_refl H3).
Defined.

(** ** The component cache (C8) *)

(** [n] calls of [make_component] with the same arguments, and the
    executors they return. *)
Fixpoint make_component_times (oracle : Oracle) (n : nat) (config_info : ConfigInfo)
    (component_name : string) : M (list nat) :=
  match n with
  | O => ret []
  | S n' =>
      a <~ make_component oracle config_info component_name ;;
      rest <~ make_component_times oracle n' config_info component_name ;;
      ret (a :: rest)
  end.

Lemma make_component_cached oracle config_info component_name w a :
  dict_get (all_components w) (identifier_of component_name config_info) = Some a →
  make_component oracle config_info component_name w = Ok a w.
Proof.
  intros Hget. unfold make_component.
  rewrite (bind_ok_eq get _ w w w eq_refl). by rewrite Hget.
Qed.

Lemma raise_not_Ok {A B} (m : M A) e (b : B) w w' : (m ;;; raise e) w ≠ Ok b w'.
Proof. unfold bind, raise. by destruct (m w). Qed.

Lemma make_component_caches oracle config_info component_name w a w1 :
  make_component oracle config_info component_name w = Ok a w1 →
  dict_get (all_components w1) (identifier_of component_name config_info) = Some a.
Proof.
  unfold make_component. rewrite (bind_ok_eq get _ w w w eq_refl).
  destruct (dict_get (all_components w) (identifier_of component_name config_info))
    as [a0|] eqn:Hget.
  { by intros [= <- <-]. }
  intros H.
  apply bind_Ok in H as ([] & wa & _ & H).
  apply bind_Ok in H as (r & wb & _ & H).
  destruct r as [component| |e traceback].
  - apply bind_Ok in H as (replacement & wc & _ & H).
    apply bind_Ok in H as (component' & wd & _ & H).
    destruct (new_executor component' _) as [executor|]; [|done].
    destruct (match config_info with CfgStr _ => _ | CfgDict _ => _ end)
      as [configured|]; [|done].
    apply bind_Ok in H as (a' & we & Halloc & H).
    apply bind_Ok in H as ([] & wf & [= <-] & H).
    apply bind_Ok in H as ([] & wg & [= <-] & [= <- <-]).
    simpl. apply dict_get_set_eq.
  - done.
  - by apply raise_not_Ok in H.
Qed.

Lemma executor_debug_print_Ok v fmt n w w' :
  executor_debug_print v fmt n w = Ok tt w' →
  w' = w ∨ w' = with_trace (EvPrint fmt :: w_trace w) w.
Proof.
  unfold executor_debug_print, emit, modify, raise, ret.
  repeat case_match; intros [= <-]; auto.
Qed.

Lemma make_component_constructs oracle config_info component_name w a w1 :
  dict_get (all_components w) (identifier_of component_name config_info) = None →
  make_component oracle config_info component_name w = Ok a w1 →
  a = w_next w ∧
  ∃ tr, w_trace w1
        = tr ++ EvMakeClass (identifier_of component_name config_info) :: w_trace w ∧
        Forall (λ ev, log_event ev = true) tr.
Proof.
  intros Hget. unfold make_component. rewrite (bind_ok_eq get _ w w w eq_refl).
  rewrite Hget. intros H.
  apply bind_Ok in H as ([] & wa & [= <-] & H).
  apply bind_Ok in H as (r & wb & [= <- <-] & H).
  destruct (o_make_class oracle _) as [component| |e traceback].
  - apply bind_Ok in H as (replacement & wc & [= <- <-] & H).
    apply bind_Ok in H as (component' & wd & Hrep & H).
    destruct (new_executor component' _) as [executor|]; [|done].
    destruct (match config_info with CfgStr _ => _ | CfgDict _ => _ end)
      as [configured|]; [|done].
    apply bind_Ok in H as (a' & we & [= <- <-] & H).
    apply bind_Ok in H as ([] & wf & [= <-] & H).
    apply bind_Ok in H as ([] & wg & [= <-] & [= <- <-]).
    destruct (o_component_replayer oracle _).
    + apply bind_Ok in Hrep as ([] & wh & Hprint & [= <- <-]).
      apply executor_debug_print_Ok in Hprint as [->| ->]; simpl.
      * split; [done|]. by exists [].
      * split; [done|]. eexists [_]. split; [done|]. by repeat constructor.
    + injection Hrep as <- <-. simpl. split; [done|]. by exists [].
  - done.
  - by apply raise_not_Ok in H.
Qed.

(** [set_debugger] on an executor object. *)
Definition debugged (e : ComponentExecutor) : ComponentExecutor :=
  {| ex_c := ex_c e; ex_essential := ex_essential e; ex_do_debug := ex_do_debug e;
     ex_print_stdout := ex_print_stdout e; ex_print_stderr := ex_print_stderr e;
     ex_inputs := ex_inputs e; ex_output := ex_output e;
     ex_last_update_time := ex_last_update_time e;
     ex_next_update_time := ex_next_update_time e;
     ex_had_exception := ex_had_exception e; ex_dt := ex_dt e;
     ex_num_overruns := ex_num_overruns e; ex_overrun_amount := ex_overrun_amount e;
     ex_multiprocess := ex_multiprocess e;
     ex_debugger := if ex_do_debug e then true else ex_debugger e |}.

(** What [ComponentExecutor(component)], the descriptor and [set_debugger]
    make of an executor: [e] wraps [component], has its inputs and
    outputs, has not run and has caught nothing, has the settings of the
    descriptor, and has a debugger when it is to debug. *)
Definition built_from (component : Component) (config_info : ConfigInfo)
    (e : ComponentExecutor) : Prop :=
  ex_c e = component ∧
  ex_inputs e = c_state_inputs component ∧
  ex_output e = c_state_outputs component ∧
  ex_last_update_time e = None ∧ ex_next_update_time e = None ∧
  ex_had_exception e = false ∧ ex_num_overruns e = 0%Z ∧
  ex_overrun_amount e = 0%float ∧
  ex_essential e = match config_info with
                   | CfgDict d => cfg_essential d
                   | CfgStr _ => true
                   end ∧
  ex_do_debug e = match config_info with
                  | CfgDict d => cfg_debug d
                  | CfgStr _ => true
                  end ∧
  ex_debugger e = ex_do_debug e ∧
  ex_print_stdout e = match config_info with
                      | CfgDict d => cfg_print d
                      | CfgStr _ => true
                      end ∧
  ex_print_stderr e = match config_info with
                      | CfgDict d => cfg_print d
                      | CfgStr _ => false
                      end ∧
  ex_multiprocess e = match config_info with
                      | CfgDict d => cfg_multiprocess d
                      | CfgStr _ => false
                      end ∧
  ex_dt e = match match config_info with
                  | CfgDict d => cfg_rate d
                  | CfgStr _ => None
                  end with
            | Some rate => PrimFloat.div 1 rate
            | None =>
                match c_rate component with
                | Some rate => PrimFloat.div 1 rate
                | None => 0%float
                end
            end.

Lemma new_executor_built component config_info executor configured :
  new_executor component
    match config_info with
    | CfgDict d => cfg_multiprocess d
    | CfgStr _ => false
    end = Some executor →
  match config_info with
  | CfgDict d => with_config d executor
  | CfgStr _ => Some executor
  end = Some configured →
  built_from component config_info (debugged configured).
Proof.
  unfold new_executor, built_from, debugged. intros Hnew Hcfg.
  destruct (c_rate component) as [rate|].
  - destruct (PrimFloat.eqb rate 0); [done|]. injection Hnew as <-.
    destruct config_info as [s|d].
    + injection Hcfg as <-. by repeat split.
    + unfold with_config in Hcfg. simpl in Hcfg.
      destruct (cfg_rate d) as [r|].
      * destruct (PrimFloat.eqb r 0); [done|]. injection Hcfg as <-. simpl.
        repeat split. by destruct (cfg_debug d).
      * injection Hcfg as <-. simpl. repeat split. by destruct (cfg_debug d).
  - injection Hnew as <-. destruct config_info as [s|d].
    + injection Hcfg as <-. by repeat split.
    + unfold with_config in Hcfg. simpl in Hcfg.
      destruct (cfg_rate d) as [r|].
      * destruct (PrimFloat.eqb r 0); [done|]. injection Hcfg as <-. simpl.
        repeat split. by destruct (cfg_debug d).
      * injection Hcfg as <-. simpl. repeat split. by destruct (cfg_debug d).
Qed.

Lemma make_component_builds oracle config_info component_name w a w1 :
  dict_get (all_components w) (identifier_of component_name config_info) = None →
  make_component oracle config_info component_name w = Ok a w1 →
  a = w_next w ∧ w_next w1 = S (w_next w) ∧
  (∀ b, b ≠ a → w_heap w1 b = w_heap w b) ∧
  all_components w1
  = dict_set (all_components w) (identifier_of component_name config_info) a ∧
  w_calls w1 = S (S (w_calls w)) ∧
  ∃ made, o_make_class oracle (w_calls w) = Made made ∧
          built_from (default made (o_component_replayer oracle (S (w_calls w))))
            config_info (w_heap w1 a).
Proof.
  intros Hget. unfold make_component. rewrite (bind_ok_eq get _ w w w eq_refl).
  rewrite Hget. intros H.
  apply bind_Ok in H as ([] & wa & [= <-] & H).
  apply bind_Ok in H as (r & wb & [= <- <-] & H).
  cbn [w_calls with_trace] in H.
  destruct (o_make_class oracle (w_calls w)) as [component| |e traceback];
    [|done|by apply raise_not_Ok in H].
  apply bind_Ok in H as (replacement & wc & [= <- <-] & H).
  cbn [w_calls with_trace with_calls] in H.
  apply bind_Ok in H as (component' & wd & Hrep & H).
  assert (Hwd : component' = default component (o_component_replayer oracle (S (w_calls w)))
                ∧ w_heap wd = w_heap w ∧ w_next wd = w_next w
                ∧ all_components wd = all_components w
                ∧ w_calls wd = S (S (w_calls w))).
  { destruct (o_component_replayer oracle _); [|by injection Hrep as <- <-].
    apply bind_Ok in Hrep as ([] & we & Hprint & [= <- <-]).
    by apply executor_debug_print_Ok in Hprint as [->| ->]. }
  destruct Hwd as (-> & Hheap & Hnext & Hreg & Hcalls).
  destruct (new_executor _ _) as [executor|] eqn:Hnew; [|done].
  destruct (match config_info with
            | CfgStr _ => Some executor
            | CfgDict d => with_config d executor
            end) as [configured|] eqn:Hcfg; [|done].
  apply bind_Ok in H as (a' & we & [= <- <-] & H).
  apply bind_Ok in H as ([] & wf & [= <-] & H).
  apply bind_Ok in H as ([] & wg & [= <-] & [= <- <-]).
  simpl. rewrite Hnext, Hreg, Hcalls. split_and!; [done|done| |done|done|].
  - intros b Hb. rewrite !decide_False by done. by rewrite Hheap.
  - exists component. split; [done|]. rewrite !decide_True by done.
    exact (new_executor_built _ _ _ _ Hnew Hcfg).
Qed.

(** C8: the first call for a name and a descriptor constructs a component
    and a new executor object and caches it: [make_class] and the replayer
    are asked once, the component is the one [make_class] made (or its
    replayer), the executor is a new object of the store, built from this
    component and the descriptor, and is registered under the identifier;
    nothing else in the store changes.  Once
    [make_component] has returned an executor for a name and a descriptor,
    every further call with the same name and descriptor returns that
    executor and leaves the world as it is: nothing is constructed. *)
Theorem make_component_same_instance (oracle : Oracle) (config_info : ConfigInfo)
    (component_name : string) (w w1 : World) (a : nat) (n : nat) :
  let identifier := identifier_of component_name config_info in
  make_component oracle config_info component_name w = Ok a w1 →
  (dict_get (all_components w) identifier = None →
   a = w_next w ∧ w_next w1 = S (w_next w) ∧
   (∀ b, b ≠ a → w_heap w1 b = w_heap w b) ∧
   all_components w1 = dict_set (all_components w) identifier a ∧
   w_calls w1 = S (S (w_calls w)) ∧
   (∃ made, o_make_class oracle (w_calls w) = Made made ∧
            built_from (default made (o_component_replayer oracle (S (w_calls w))))
              config_info (w_heap w1 a)) ∧
   ∃ tr, w_trace w1 = tr ++ EvMakeClass identifier :: w_trace w ∧
         Forall (λ ev, log_event ev = true) tr) ∧
  (∀ a0, dict_get (all_components w) identifier = Some a0 → a = a0 ∧ w1 = w) ∧
  dict_get (all_components w1) identifier = Some a ∧
  make_component_times oracle n config_info component_name w1
  = Ok (replicate n a) w1.
Proof.
  intros identifier Hfirst. split_and!.
  - intros Hnew.
    destruct (make_component_builds _ _ _ _ _ _ Hnew Hfirst)
      as (Ha & Hnext & Hframe & Hreg & Hcalls & Hbuilt).
    destruct (make_component_constructs _ _ _ _ _ _ Hnew Hfirst) as [_ Htr].
    by split_and!.
  - intros a0 Hhit.
    rewrite (make_component_cached oracle config_info component_name w a0 Hhit)
      in Hfirst.
    by injection Hfirst as <- <-.
  - by eapply make_component_caches.
  - apply make_component_caches in Hfirst.
    induction n as [|n IH]; simpl; [done|].
    rewrite (bind_ok_eq _ _ _ _ _
               (make_component_cached oracle config_info component_name w1 a Hfirst)).
    by rewrite (bind_ok_eq _ _ _ _ _ IH).
Qed.

(** *** A component made three more times *)

Definition planner_config : ConfigInfo :=
  CfgDict {| cfg_repr := "{'type': 'planning.Planner', 'rate': 2.0}";
             cfg_multiprocess := false; cfg_essential := true;
             cfg_rate := Some 2%float; cfg_print := true; cfg_debug := true |}.

Definition factory_oracle : Oracle :=
  {| o_make_class := λ _, Made slow_component;
     o_component_replayer := λ _, None;
     o_initialize := λ _, None;
     o_cleanup := λ _, None;
     o_update := λ _, Returns VNone "" "";
     o_healthy := λ _, true;
     o_vehicle_time := λ _, 0%float;
     o_wall_time := λ _, 0%float;
     o_hardware_faults := λ _, [];
     o_looper := λ _, Some true;
     o_done := λ _, true;
     o_update_hook := λ _, None |}.

Definition made_world : World :=
  res_world (make_component factory_oracle planner_config "planner"
               (initial_world (fresh_executor slow_component 0))).

Lemma make_component_same_instance_witness :
  let w := initial_world (fresh_executor slow_component 0) in
  let identifier := identifier_of "planner" planner_config in
  make_component factory_oracle planner_config "planner" w = Ok 0 made_world ∧
  (0 = w_next w ∧ w_next made_world = S (w_next w) ∧
   (∀ b, b ≠ 0 → w_heap made_world b = w_heap w b) ∧
   all_components made_world = dict_set (all_components w) identifier 0 ∧
   w_calls made_world = S (S (w_calls w)) ∧
   (∃ made, o_make_class factory_oracle (w_calls w) = Made made ∧
            built_from
              (default made (o_component_replayer factory_oracle (S (w_calls w))))
              planner_config (w_heap made_world 0)) ∧
   ∃ tr, w_trace made_world = tr ++ EvMakeClass identifier :: w_trace w ∧
         Forall (λ ev, log_event ev = true) tr) ∧
  dict_get (all_components made_world) identifier = Some 0 ∧
  make_component_times factory_oracle 3 planner_config "planner" made_world
  = Ok [0; 0; 0] made_world.
Proof.
  intros w identifier.
  assert (H : make_component factory_oracle planner_config "planner" w
              = Ok 0 made_world) by (vm_compute; reflexivity).
  pose proof (make_component_same_instance factory_oracle planner_config "planner"
                w made_world 0 3 H) as (Hmiss & _ & Hget & Htimes).
  exact (conj H (conj (Hmiss eq_refl) (conj Hget Htimes))).
Defined.

(** ** Switching pipelines (C4) *)

Lemma executor_debug_print_shown v fmt n w :
  Nat.leb v EXECUTION_VERBOSITY = true → py_format fmt n = true →
  executor_debug_print v fmt n w = Ok tt (with_trace (EvPrint fmt :: w_trace w) w).
Proof. unfold executor_debug_print. by intros -> ->. Qed.

(** The pipeline the loop turns to when [next] is requested. *)
Definition requested_pipeline (w : World) (next : string) : string :=
  if dict_mem (pipelines w) next then next else "recovery".

(** The world after the warning about an unknown pipeline, if there is one. *)
Definition warned (w : World) (next : string) : World :=
  if dict_mem (pipelines w) next then w
  else with_trace (EvPrint "Pipeline {} not found, switching to recovery"
                   :: w_trace w) w.

(** The world after the banner and the exit reason of a failed recovery. *)
Definition recovery_failed (w : World) : World :=
  with_trace (EvExit "recovery pipeline not working"
              :: EvPrint recovery_banner :: w_trace w) w.

(** The world in which the mission loop calls [run_until_switch]: the clock
    is read, the start of the pipeline is logged and announced. *)
Definition mission_prelude (oracle : Oracle) (w : World) : World :=
  let w1 := with_state (<["t" := VFloat (o_vehicle_time oracle (w_calls w))]> (state w))
              (with_calls (S (w_calls w)) w) in
  let w2 := with_trace (EvPipelineStart (current_pipeline w) :: w_trace w1) w1 in
  with_trace (EvPrint "Executing pipeline {}" :: w_trace w2) w2.

Lemma after_switch_Some oracle G require_engaged fuel next w :
  after_switch oracle G require_engaged fuel (Some next) w =
  if bool_decide (current_pipeline w = "recovery")
     && bool_decide (requested_pipeline w next = "recovery")
  then Ok true (recovery_failed (warned w next))
  else revalidate oracle G require_engaged fuel
         (with_current_pipeline (requested_pipeline w next) (warned w next)).
Proof.
  unfold after_switch, requested_pipeline, warned.
  rewrite (bind_ok_eq get _ w w w eq_refl).
  destruct (dict_mem (pipelines w) next).
  - rewrite (bind_ok_eq (ret next) _ w next w eq_refl).
    destruct (bool_decide (current_pipeline w = "recovery") && _); [|done].
    by rewrite (bind_ok_eq _ _ _ _ _
                  (executor_debug_print_shown 1 recovery_banner 0 w eq_refl eq_refl)).
  - rewrite (bind_ok_eq _ _ w "recovery" _
               (bind_ok_eq _ _ _ _ _
                  (executor_debug_print_shown 1
                     "Pipeline {} not found, switching to recovery" 1 w
                     eq_refl eq_refl))).
    simpl current_pipeline.
    destruct (bool_decide (current_pipeline w = "recovery") && _); [|done].
    by rewrite (bind_ok_eq _ _ _ _ _
                  (executor_debug_print_shown 1 recovery_banner 0 _ eq_refl eq_refl)).
Qed.

Lemma mission_step_switch oracle G require_engaged fuel w0 r w :
  run_until_switch oracle G require_engaged fuel (mission_prelude oracle w0) = Ok r w →
  mission_step oracle G require_engaged fuel w0 =
  try_except_KeyboardInterrupt (after_switch oracle G require_engaged fuel r)
    (on_interrupt oracle) w.
Proof.
  intros Hrun. unfold mission_step.
  rewrite (bind_ok_eq (ask oracle o_vehicle_time) _ w0 _ _ eq_refl).
  rewrite (bind_ok_eq (setattr "t" _) _ _ tt _ eq_refl).
  rewrite (bind_ok_eq get _ _ _ _ eq_refl).
  rewrite (bind_ok_eq (emit _) _ _ tt _ eq_refl).
  unfold try_except_KeyboardInterrupt.
  rewrite (bind_ok_eq _ _ _ _ _
             (executor_debug_print_shown 1 "Executing pipeline {}" 1 _ eq_refl eq_refl)).
  by rewrite (bind_ok_eq _ _ _ _ _ Hrun).
Qed.

(** C4: when [run_until_switch] returns a pipeline name to the mission loop,
    a name that is no key of the pipeline set is replaced by ['recovery']
    after a warning; and if the current pipeline is ['recovery'] and so is
    the requested one, the exit reason is set to ["recovery pipeline not
    working"] and the mission loop ends.  Otherwise the requested pipeline
    becomes the current one and its sensors are probed. *)
Theorem switch_to_recovery_in_recovery_ends_mission (oracle : Oracle) (G : Graph)
    (require_engaged : bool) (fuel : nat) (w0 w : World) (next : string) :
  run_until_switch oracle G require_engaged fuel (mission_prelude oracle w0)
  = Ok (Some next) w →
  let failed := bool_decide (current_pipeline w = "recovery")
                && bool_decide (requested_pipeline w next = "recovery") in
  (dict_mem (pipelines w) next = false →
   requested_pipeline w next = "recovery" ∧
   w_trace (warned w next)
   = EvPrint "Pipeline {} not found, switching to recovery" :: w_trace w) ∧
  mission_step oracle G require_engaged fuel w0 =
  (if failed then Ok true (recovery_failed (warned w next))
   else try_except_KeyboardInterrupt (revalidate oracle G require_engaged fuel)
          (on_interrupt oracle)
          (with_current_pipeline (requested_pipeline w next) (warned w next))) ∧
  (failed = true →
   mission_loop oracle G require_engaged (S fuel) w0
   = Ok tt (recovery_failed (warned w next))).
Proof.
  intros Hrun failed.
  assert (Hstep :
    mission_step oracle G require_engaged fuel w0 =
    (if failed then Ok true (recovery_failed (warned w next))
     else try_except_KeyboardInterrupt (revalidate oracle G require_engaged fuel)
            (on_interrupt oracle)
            (with_current_pipeline (requested_pipeline w next) (warned w next)))).
  { rewrite (mission_step_switch _ _ _ _ _ _ _ Hrun).
    unfold try_except_KeyboardInterrupt at 1. rewrite after_switch_Some.
    fold failed. by destruct failed. }
  split_and!.
  - intros Hmem. unfold requested_pipeline, warned. by rewrite Hmem.
  - exact Hstep.
  - intros Hfailed. simpl. rewrite Hfailed in Hstep.
    by rewrite (bind_ok_eq _ _ _ _ _ Hstep).
Qed.

(** *** An unknown pipeline requested during recovery *)

(** The vehicle is in the pipeline [recovery], which runs the planner. *)
Definition recovery_world : World :=
  with_state zero_state
    (with_current_pipeline "recovery"
       (with_pipelines [ ("drive", ([], [("planner", 0)], []));
                         ("recovery", ([], [("planner", 0)], [])) ]
          (one_planner_world slow_component))).

(** The subclass hook [update] asks for a pipeline [park]. *)
Definition park_oracle : Oracle :=
  {| o_make_class := λ _, MadeOther;
     o_component_replayer := λ _, None;
     o_initialize := λ _, None;
     o_cleanup := λ _, None;
     o_update := λ _, Returns VNone "" "";
     o_healthy := λ _, true;
     o_vehicle_time := λ n, Nat.iter n (PrimFloat.add 0.5) 0%float;
     o_wall_time := λ n, Nat.iter n (PrimFloat.add 0.5) 0%float;
     o_hardware_faults := λ _, [];
     o_looper := λ _, Some true;
     o_done := λ _, false;
     o_update_hook := λ _, Some "park" |}.

Definition park_requested : World :=
  res_world (run_until_switch park_oracle one_planner_graph false 3
               (mission_prelude park_oracle recovery_world)).

Lemma switch_to_recovery_in_recovery_ends_mission_witness :
  let w := park_requested in
  let failed := bool_decide (current_pipeline w = "recovery")
                && bool_decide (requested_pipeline w "park" = "recovery") in
  run_until_switch park_oracle one_planner_graph false 3
    (mission_prelude park_oracle recovery_world) = Ok (Some "park") w ∧
  (dict_mem (pipelines w) "park" = false →
   requested_pipeline w "park" = "recovery" ∧
   w_trace (warned w "park")
   = EvPrint "Pipeline {} not found, switching to recovery" :: w_trace w) ∧
  mission_step park_oracle one_planner_graph false 3 recovery_world =
  (if failed then Ok true (recovery_failed (warned w "park"))
   else try_except_KeyboardInterrupt (revalidate park_oracle one_planner_graph false 3)
          (on_interrupt park_oracle)
          (with_current_pipeline (requested_pipeline w "park") (warned w "park"))) ∧
  (failed = true →
   mission_loop park_oracle one_planner_graph false 4 recovery_world
   = Ok tt (recovery_failed (warned w "park"))).
Proof.
  intros w failed.
  assert (H : run_until_switch park_oracle one_planner_graph false 3
                (mission_prelude park_oracle recovery_world) = Ok (Some "park") w)
    by (vm_compute; reflexivity).
  split; [exact H|].
  exact (switch_to_recovery_in_recovery_ends_mission park_oracle one_planner_graph
           false 3 recovery_world w "park" H).
Defined.

(** In that run the mission loop ends at once, with the exit reason of a
    failed recovery as its last record. *)
Lemma park_request_ends_mission :
  ∃ w', mission_loop park_oracle one_planner_graph false 4 recovery_world = Ok tt w' ∧
        head (w_trace w') = Some (EvExit "recovery pipeline not working").
Proof. eexists. split; vm_compute; reflexivity. Qed.

(** ** No component with a rate (C10) *)

Lemma map_m_dt components w :
  map_m (λ a, e <~ get_ex a ;; ret (ex_dt e)) components w
  = Ok ((λ a, ex_dt (w_heap w a)) <$> components) w.
Proof.
  induction components as [|a components IH]; simpl; [done|].
  unfold bind, get_ex, ret in *. by rewrite IH.
Qed.

Lemma filter_nonzero_nil (dts : list float) :
  Forall (λ d, PrimFloat.eqb d 0 = true) dts →
  List.filter (λ d, negb (PrimFloat.eqb d 0)) dts = [].
Proof.
  induction 1 as [|d dts Hd _ IH]; simpl; [done|]. by rewrite Hd.
Qed.

Lemma dt_min_of_all_zero components w :
  (∀ a, a ∈ components → PrimFloat.eqb (ex_dt (w_heap w a)) 0 = true) →
  dt_min_of components w = Raise (ValueError "min() arg is an empty sequence") w.
Proof.
  intros Hzero. unfold dt_min_of.
  rewrite (bind_ok_eq _ _ _ _ _ (map_m_dt components w)).
  rewrite filter_nonzero_nil; [done|].
  apply Forall_fmap, Forall_forall. intros a Ha. by apply Hzero.
Qed.

(** C10: when no component of the current pipeline or of the always-run set
    has a nonzero period, [validate_sensors] (with a perception component
    present) and [run_until_switch] raise the [ValueError] of the minimum of
    an empty sequence.  The world they leave shows no component call: it is
    the world they found, but for the mission type that [run_until_switch]
    sets on entering the recovery pipeline. *)
Theorem no_rate_raises_ValueError (oracle : Oracle) (G : Graph)
    (require_engaged : bool) (fuel : nat) (numsteps : option nat) (w : World)
    (perception planning other : Phase) :
  dict_get (pipelines w) (current_pipeline w) = Some (perception, planning, other) →
  (∀ a, a ∈ dict_values perception ++ dict_values planning ++ dict_values other
            ++ dict_values (always_run_components w) →
        PrimFloat.eqb (ex_dt (w_heap w a)) 0 = true) →
  (perception ≠ [] →
   validate_sensors oracle G require_engaged fuel numsteps w
   = Raise (ValueError "min() arg is an empty sequence") w) ∧
  (current_pipeline w ≠ "recovery" →
   run_until_switch oracle G require_engaged fuel w
   = Raise (ValueError "min() arg is an empty sequence") w) ∧
  (current_pipeline w = "recovery" →
   ∀ ty, state w !! "mission" = Some (VMission ty) →
   run_until_switch oracle G require_engaged fuel w
   = Raise (ValueError "min() arg is an empty sequence")
       (with_state (<["mission" := VMission RECOVERY_STOP]> (state w)) w)).
Proof.
  intros Hpipeline Hzero. split_and!.
  - intros Hperception. unfold validate_sensors.
    rewrite (bind_ok_eq get _ w w w eq_refl), Hpipeline.
    destruct (decide (length perception = 0)) as [Hlen|_].
    { by destruct perception. }
    apply bind_raise_eq, dt_min_of_all_zero.
    intros a Ha. apply Hzero. rewrite !elem_of_app in *. tauto.
  - intros Hcurrent. unfold run_until_switch.
    rewrite (bind_ok_eq get _ w w w eq_refl).
    rewrite decide_False by done.
    rewrite (bind_ok_eq (ret tt) _ w tt w eq_refl), Hpipeline.
    by apply bind_raise_eq, dt_min_of_all_zero.
  - intros Hcurrent ty Hmission. unfold run_until_switch.
    rewrite (bind_ok_eq get _ w w w eq_refl).
    rewrite decide_True by done.
    assert (Hset : set_mission_type RECOVERY_STOP w
                   = Ok tt (with_state (<["mission" := VMission RECOVERY_STOP]> (state w)) w)).
    { unfold set_mission_type, getattr, bind. by rewrite Hmission. }
    rewrite (bind_ok_eq _ _ _ _ _ Hset), Hpipeline.
    by apply bind_raise_eq, dt_min_of_all_zero.
Qed.

(** *** A pipeline of event-driven components *)

Definition event_component : Component :=
  {| c_class := "Camera"; c_state_inputs := []; c_state_outputs := ["image"];
     c_rate := None |}.

(** A sensor without a rate, alone in the pipeline [drive]. *)
Definition no_rate_world : World :=
  with_state zero_state
    (with_pipelines [ ("drive", ([("camera", 0)], [], []));
                      ("recovery", ([], [], [])) ]
       (with_all_components [("('camera', 'Camera')", 0)]
          (with_heap (λ _, fresh_executor event_component 0) 1
             (initial_world (fresh_executor event_component 0))))).

Lemma no_rate_raises_ValueError_witness :
  let w := no_rate_world in
  let oracle := steady_oracle (Returns VNone "" "") 100 in
  (dict_get (pipelines w) (current_pipeline w) = Some ([("camera", 0)], [], []) ∧
   ∀ a, a ∈ dict_values [("camera", 0)] ++ dict_values [] ++ dict_values []
            ++ dict_values (always_run_components w) →
        PrimFloat.eqb (ex_dt (w_heap w a)) 0 = true) ∧
  ([("camera", 0)] ≠ [] →
   validate_sensors oracle one_planner_graph false 5 None w
   = Raise (ValueError "min() arg is an empty sequence") w) ∧
  (current_pipeline w ≠ "recovery" →
   run_until_switch oracle one_planner_graph false 5 w
   = Raise (ValueError "min() arg is an empty sequence") w) ∧
  (current_pipeline w = "recovery" →
   ∀ ty, state w !! "mission" = Some (VMission ty) →
   run_until_switch oracle one_planner_graph false 5 w
   = Raise (ValueError "min() arg is an empty sequence")
       (with_state (<["mission" := VMission RECOVERY_STOP]> (state w)) w)).
Proof.
  intros w oracle.
  assert (H1 : dict_get (pipelines w) (current_pipeline w)
               = Some ([("camera", 0)], [], [])) by reflexivity.
  assert (H2 : ∀ a, a ∈ dict_values [("camera", 0)] ++ dict_values [] ++ dict_values []
                        ++ dict_values (always_run_components w) →
                    PrimFloat.eqb (ex_dt (w_heap w a)) 0 = true).
  { intros a _. reflexivity. }
  split; [by split|].
  exact (no_rate_raises_ValueError oracle one_planner_graph false 5 None w
           [("camera", 0)] [] [] H1 H2).
Defined.

(** ** The mission type on entering recovery (C5) *)

(** The blackboard found by the first component call of a trace (the
    trace holds the latest event first). *)
Fixpoint first_update (tr : list Event) : option AllState :=
  match tr with
  | [] => None
  | ev :: earlier =>
      match first_update earlier with
      | Some seen => Some seen
      | None =>
          match ev with
          | EvUpdate _ seen => Some seen
          | _ => None
          end
      end
  end.

Definition in_recovery_stop (s : AllState) : Prop :=
  s !! "mission" = Some (VMission RECOVERY_STOP).

(** Since the trace was [tr0], either a component was called and the first
    one called found the mission type [RECOVERY_STOP], or none was called
    and the mission type is still [RECOVERY_STOP]. *)
Definition recovery_stop_first (tr0 : list Event) (w : World) : Prop :=
  ∃ tr, w_trace w = tr ++ tr0 ∧
        match first_update tr with
        | Some seen => in_recovery_stop seen
        | None => in_recovery_stop (state w)
        end.

(** Since the trace was [tr0], a component was called, and the first one
    called found the mission type [RECOVERY_STOP]. *)
Definition recovery_stop_seen (tr0 : list Event) (w : World) : Prop :=
  ∃ tr seen, w_trace w = tr ++ tr0 ∧ first_update tr = Some seen ∧
             in_recovery_stop seen.

Lemma first_update_log_event ev tr :
  log_event ev = true → first_update (ev :: tr) = first_update tr.
Proof. intros Hev. simpl. destruct (first_update tr); [done|]. by destruct ev. Qed.

Lemma recovery_stop_first_stable tr0 : Stable (recovery_stop_first tr0).
Proof.
  split; try done.
  - intros w ev Hev (tr & Htr & H). exists (ev :: tr). simpl w_trace.
    split; [by rewrite Htr|]. by rewrite first_update_log_event.
  - intros w v (tr & Htr & H). exists tr. split; [done|].
    destruct (first_update tr); [done|].
    unfold in_recovery_stop in *. simpl. by rewrite lookup_insert_ne.
Qed.

Lemma recovery_stop_seen_call_stable tr0 : CallStable (recovery_stop_seen tr0).
Proof.
  split; try done.
  intros w ev _ (tr & seen & Htr & Hfirst & H). exists (ev :: tr), seen.
  simpl w_trace. split_and!; [by rewrite Htr| |done].
  simpl. by rewrite Hfirst.
Qed.

Lemma recovery_stop_seen_first tr0 w : recovery_stop_seen tr0 w → recovery_stop_first tr0 w.
Proof. intros (tr & seen & Htr & Hfirst & H). exists tr. by rewrite Hfirst. Qed.

Lemma recovery_stop_first_call tr0 a w :
  recovery_stop_first tr0 w →
  recovery_stop_seen tr0 (with_trace (EvUpdate a (state w) :: w_trace w) w).
Proof.
  intros (tr & Htr & H). simpl.
  destruct (first_update tr) as [seen|] eqn:Hfirst.
  - exists (EvUpdate a (state w) :: tr), seen. simpl.
    split_and!; [by rewrite Htr|by rewrite Hfirst|done].
  - exists (EvUpdate a (state w) :: tr), (state w). simpl.
    split_and!; [by rewrite Htr|by rewrite Hfirst|done].
Qed.

(** A step that establishes [J] from [I], followed by code that maintains
    [J]. *)
Lemma maintains_via {A B} (I J : World → Prop) (m : M A) (f : A → M B) :
  (∀ w, I w → J (res_world (m w))) → (∀ w, J w → I w) →
  (∀ a, maintains J (f a)) → maintains I (bind m f).
Proof.
  intros Hm HJ Hf w Hw. unfold bind. specialize (Hm w Hw).
  destruct (m w) as [a w1|e w1|w1]; simpl in *; [|by apply HJ..].
  by apply HJ, Hf.
Qed.

Lemma do_update_recovery_stop oracle tr0 a t w :
  recovery_stop_first tr0 w →
  recovery_stop_seen tr0 (res_world (_do_update oracle a t w)).
Proof.
  intros Hw. pose proof (recovery_stop_seen_call_stable tr0) as Hst.
  unfold _do_update. rewrite (bind_ok_eq get _ w w w eq_refl).
  rewrite (bind_ok_eq (emit _) _ w tt _ eq_refl).
  pose proof (call_executor_debug_exception (recovery_stop_seen tr0)).
  pose proof (call_log_output (recovery_stop_seen tr0)).
  assert (Hrest : maintains (recovery_stop_seen tr0)
    (r <~ ask oracle o_update ;;
     match r with
     | Returns res stdout stderr => log_output a stdout stderr ;;; ret res
     | Raises e traceback stdout stderr =>
         if is_Exception e then
           executor_debug_exception traceback "Exception in component {}: {}" 2 ;;;
           set_ex a (with_had_exception true) ;;;
           log_output a stdout stderr ;;;
           ret VNone
         else raise e
     end)) by repeat call_step.
  by apply Hrest, recovery_stop_first_call.
Qed.

Lemma update_now_recovery_stop oracle tr0 a t :
  maintains (recovery_stop_first tr0) (update_now oracle a t).
Proof.
  pose proof (recovery_stop_first_stable tr0) as Hst.
  pose proof (recovery_stop_seen_call_stable tr0) as Hcall.
  pose proof (call_write_output (recovery_stop_seen tr0)).
  unfold update_now.
  apply maintains_bind; [maintain|intros e].
  apply maintains_bind; [maintain|intros _].
  apply maintains_bind; [apply maintains_executor_debug_print; done|intros _].
  apply (maintains_via _ (recovery_stop_seen tr0)).
  - intros w. apply do_update_recovery_stop.
  - apply recovery_stop_seen_first.
  - intros res. repeat call_step.
Qed.

(** C5: when [run_until_switch] is entered with the current pipeline
    ['recovery'] and [state.mission] is a mission record, the mission type
    is set to [RECOVERY_STOP] before any component runs: the first component
    the invocation calls, of any phase or of the always-run set, finds the
    mission type [RECOVERY_STOP] on the blackboard, and when the invocation
    calls no component the blackboard it leaves has the mission type
    [RECOVERY_STOP]; this however the invocation goes on or ends.  When
    [state.mission] is not a mission record the assignment raises
    [AttributeError] and nothing runs. *)
Theorem recovery_stop_before_first_component (oracle : Oracle) (G : Graph)
    (require_engaged : bool) (fuel : nat) (w : World) :
  current_pipeline w = "recovery" →
  let r := run_until_switch oracle G require_engaged fuel w in
  match state w !! "mission" with
  | Some (VMission _) =>
      ∃ tr, w_trace (res_world r) = tr ++ w_trace w ∧
            match first_update tr with
            | Some seen => seen !! "mission" = Some (VMission RECOVERY_STOP)
            | None => state (res_world r) !! "mission" = Some (VMission RECOVERY_STOP)
            end
  | Some _ => r = Raise (AttributeError "type") w
  | None => r = Raise (AttributeError "mission") w
  end.
Proof.
  intros Hcurrent r. subst r.
  pose proof (recovery_stop_first_stable (w_trace w)) as Hst.
  unfold run_until_switch. rewrite (bind_ok_eq get _ w w w eq_refl).
  rewrite decide_True by done.
  set (w1 := with_state (<["mission" := VMission RECOVERY_STOP]> (state w)) w).
  assert (Hset : match state w !! "mission" with
                 | Some (VMission _) => set_mission_type RECOVERY_STOP w = Ok tt w1
                 | Some _ => set_mission_type RECOVERY_STOP w
                             = Raise (AttributeError "type") w
                 | None => set_mission_type RECOVERY_STOP w
                           = Raise (AttributeError "mission") w
                 end).
  { unfold set_mission_type, bind, getattr.
    by destruct (state w !! "mission") as [[]|]. }
  destruct (state w !! "mission") as [[]|];
    try by rewrite (bind_raise_eq _ _ _ _ _ Hset).
  rewrite (bind_ok_eq _ _ _ _ _ Hset).
  assert (Hw1 : recovery_stop_first (w_trace w) w1).
  { exists []. split; [done|]. unfold in_recovery_stop. simpl.
    by rewrite lookup_insert_eq. }
  assert (Hrest : maintains (recovery_stop_first (w_trace w))
    (match dict_get (pipelines w) (current_pipeline w) with
     | None => raise (KeyError (current_pipeline w))
     | Some (perception_components, planning_components, other_components) =>
         dt_min <~ dt_min_of (dict_values perception_components
                              ++ dict_values planning_components
                              ++ dict_values other_components
                              ++ dict_values (always_run_components w)) ;;
         run_until_switch_loop oracle G require_engaged fuel perception_components
           planning_components other_components
     end)).
  { pose proof (update_now_recovery_stop oracle (w_trace w)) as Hnow.
    pose proof (maintains_run_until_switch_loop oracle G require_engaged
                  (recovery_stop_first (w_trace w)) Hnow) as Hloop.
    destruct (dict_get (pipelines w) (current_pipeline w)) as [[[? ?] ?]|];
      [|apply maintains_raise].
    apply maintains_bind; [by apply maintains_dt_min_of|intros _; apply Hloop]. }
  destruct (Hrest w1 Hw1) as (tr & Htr & Hfirst).
  exists tr. split; [done|]. exact Hfirst.
Qed.

Lemma recovery_stop_before_first_component_witness :
  current_pipeline recovery_world = "recovery" ∧
  let r := run_until_switch (steady_oracle (Returns VNone "" "") 9)
             one_planner_graph false 3 recovery_world in
  ∃ tr, w_trace (res_world r) = tr ++ w_trace recovery_world ∧
        match first_update tr with
        | Some seen => seen !! "mission" = Some (VMission RECOVERY_STOP)
        | None => state (res_world r) !! "mission" = Some (VMission RECOVERY_STOP)
        end.
Proof.
  split; [reflexivity|].
  exact (recovery_stop_before_first_component
           (steady_oracle (Returns VNone "" "") 9) one_planner_graph false 3
           recovery_world eq_refl).
Defined.

(** When the mission is done at entry no component is called, and the
    blackboard is left with the mission type [RECOVERY_STOP]. *)
Lemma recovery_done_at_entry :
  let r := run_until_switch (steady_oracle (Returns VNone "" "") 0)
             one_planner_graph false 3 recovery_world in
  state recovery_world !! "mission" = Some (VMission IDLE) ∧
  first_update (w_trace (res_world r)) = None ∧
  (∃ w', r = Ok None w') ∧
  state (res_world r) !! "mission" = Some (VMission RECOVERY_STOP).
Proof.
  split_and!; [vm_compute; reflexivity..|eexists; vm_compute; reflexivity|
               vm_compute; reflexivity].
Qed.

(** In that run the planner is called, and the blackboard it finds had the
    mission type [IDLE] before the invocation. *)
Lemma recovery_run_calls_planner :
  state recovery_world !! "mission" = Some (VMission IDLE) ∧
  (λ seen : AllState, seen !! "mission") <$>
    first_update (w_trace (res_world
      (run_until_switch (steady_oracle (Returns VNone "" "") 9)
         one_planner_graph false 3 recovery_world)))
  = Some (Some (VMission RECOVERY_STOP)).
Proof. split; vm_compute; reflexivity. Qed.

(** ** Shutdown (C2) *)

(** The events of the mission itself: neither the start or the cleanup of a
    component, nor its construction, nor the closing of the logs. *)
Definition quiet (ev : Event) : bool := log_event ev || is_update ev.

(** Since the trace was [tr0], only events of the mission were added, and
    the registry of executors is [registry]. *)
Definition quiet_since (tr0 : list Event) (registry : list (string * nat))
    (w : World) : Prop :=
  ∃ mid, w_trace w = mid ++ tr0 ∧ Forall (λ ev, quiet ev = true) mid ∧
         all_components w = registry.

Lemma quiet_since_emit tr0 registry w ev :
  quiet ev = true → quiet_since tr0 registry w →
  quiet_since tr0 registry (with_trace (ev :: w_trace w) w).
Proof.
  intros Hev (mid & Hmid & Hquiet & Hreg). exists (ev :: mid). simpl.
  split_and!; [by rewrite Hmid|by constructor|done].
Qed.

Lemma quiet_since_stable tr0 registry : Stable (quiet_since tr0 registry).
Proof.
  split; try done.
  intros w ev Hev. apply quiet_since_emit. unfold quiet. by rewrite Hev.
Qed.

Lemma quiet_since_pipeline_stable tr0 registry : PipelineStable (quiet_since tr0 registry).
Proof. by split. Qed.

Lemma quiet_since_call_stable tr0 registry : CallStable (quiet_since tr0 registry).
Proof. split; try done. intros w ev Hev. by apply quiet_since_emit. Qed.

Lemma maintains_Ok {A} (I : World → Prop) (m : M A) w a w1 :
  maintains I m → m w = Ok a w1 → I w → I w1.
Proof. intros Hm Hw HI. specialize (Hm w HI). by rewrite Hw in Hm. Qed.

Lemma for_each_Ok_trace {A} (xs : list A) (body : A → M unit) (ev : A → Event) w w1 :
  (∀ x w w1, body x w = Ok tt w1 →
             w_trace w1 = ev x :: w_trace w ∧ all_components w1 = all_components w) →
  for_each xs body w = Ok tt w1 →
  w_trace w1 = reverse (ev <$> xs) ++ w_trace w ∧ all_components w1 = all_components w.
Proof.
  intros Hbody. revert w. induction xs as [|x xs IH]; intros w; simpl.
  - by intros [= <-].
  - intros H. apply bind_Ok in H as ([] & wa & Hx & H).
    destruct (Hbody _ _ _ Hx) as [Htr Hreg].
    destruct (IH _ H) as [Htr' Hreg'].
    rewrite Htr', Htr, Hreg', Hreg, reverse_cons, <- app_assoc. done.
Qed.

Lemma start_Ok oracle a w w1 :
  start oracle a w = Ok tt w1 →
  w_trace w1 = EvInitialize a :: w_trace w ∧ all_components w1 = all_components w.
Proof.
  unfold start, bind, emit, modify, ask. simpl.
  destruct (o_initialize oracle (w_calls w)); [done|]. by intros [= <-].
Qed.

Lemma stop_component_Ok oracle ka w w1 :
  stop_component oracle ka w = Ok tt w1 →
  w_trace w1 = EvCleanup ka.2 :: w_trace w ∧ all_components w1 = all_components w.
Proof.
  unfold stop_component, stop, bind, emit, modify, ask. simpl.
  destruct (o_cleanup oracle (w_calls w)); [done|]. by intros [= <-].
Qed.

Lemma for_each_check_Ok {A} (xs : list A) (ok : A → bool) e w w1 :
  for_each xs (λ x, if ok x then ret tt else raise e) w = Ok tt w1 → w1 = w.
Proof.
  induction xs as [|x xs IH]; simpl.
  - by intros [= <-].
  - intros H. apply bind_Ok in H as ([] & wa & Hx & H).
    destruct (ok x); [|done]. injection Hx as <-. by apply IH.
Qed.

Lemma executor_debug_print_0_Ok fmt n w w' :
  executor_debug_print 0 fmt n w = Ok tt w' →
  w' = with_trace (EvPrint fmt :: w_trace w) w.
Proof.
  unfold executor_debug_print, emit, modify, raise. simpl Nat.leb. cbv iota.
  destruct (py_format fmt n); [|done]. by intros [= <-].
Qed.

(** The trace of a [run] that returns: one print when a sanity check
    fails; when both pass, every registered executor is started, the
    mission runs, every registered executor is stopped, and the logs are
    closed. *)
Lemma run_Ok_trace oracle G require_engaged AllState_zero fuel w w' :
  run oracle G require_engaged AllState_zero fuel w = Ok tt w' →
  let addrs := dict_values (all_components w) in
  if dict_mem (pipelines w) (current_pipeline w) && dict_mem (pipelines w) "recovery"
  then
    ∃ mid, w_trace w' =
           EvPrint "Done with execution loop" :: EvLogClose
           :: reverse (EvCleanup <$> addrs) ++ mid
           ++ reverse (EvInitialize <$> addrs) ++ w_trace w ∧
           Forall (λ ev, quiet ev = true) mid
  else ∃ fmt, w_trace w' = EvPrint fmt :: w_trace w.
Proof.
  intros H addrs. unfold run in H.
  apply bind_Ok in H as ([] & wa & [= <-] & H).
  apply bind_Ok in H as (w0 & wb & [= <- <-] & H).
  cbn [with_LOGGING_MANAGER pipelines current_pipeline all_components
       replayed_components] in H.
  destruct (dict_mem (pipelines w) (current_pipeline w)); cbn [negb andb] in H |- *.
  2: { apply executor_debug_print_0_Ok in H as ->. by eexists. }
  destruct (dict_mem (pipelines w) "recovery"); cbn [negb] in H |- *.
  2: { apply executor_debug_print_0_Ok in H as ->. by eexists. }
  apply bind_Ok in H as ([] & wc & Hreplay & H).
  apply for_each_check_Ok in Hreplay as ->.
  apply bind_Ok in H as ([] & wd & Hstart & H).
  apply (for_each_Ok_trace _ _ EvInitialize) in Hstart as [Htr_d Hreg_d];
    [|apply start_Ok].
  simpl in Htr_d, Hreg_d. fold addrs in Htr_d.
  pose proof (quiet_since_stable (w_trace wd) (all_components w)) as Hstable.
  pose proof (quiet_since_pipeline_stable (w_trace wd) (all_components w)) as Hpipe.
  pose proof (quiet_since_call_stable (w_trace wd) (all_components w)) as Hcall.
  pose proof (call_update_now oracle (quiet_since (w_trace wd) (all_components w)))
    as Hnow.
  assert (Hmission : ∀ w0 ty, quiet_since (w_trace wd) (all_components w) w0 →
            quiet_since (w_trace wd) (all_components w)
              (with_state (<["mission" := VMission ty]> (state w0)) w0)) by done.
  assert (Hd : quiet_since (w_trace wd) (all_components w) wd).
  { exists []. by split_and!. }
  apply bind_Ok in H as ([] & we & [= <-] & H).
  apply bind_Ok in H as ([] & wf & Hset & H).
  eapply (maintains_Ok _ _ _ _ _ (maintains_set_mission_type _ Hmission IDLE))
    in Hset; [|exact Hd].
  apply bind_Ok in H as (validated & wg & Hvalidate & H).
  eapply (maintains_Ok _ _ _ _ _
            (maintains_sensor_validation oracle _ _
               (maintains_validate_sensors oracle G require_engaged _ Hnow fuel None)))
    in Hvalidate; [|exact Hset].
  apply bind_Ok in H as ([] & wh & Hloop & H).
  assert (Hh : quiet_since (w_trace wd) (all_components w) wh).
  { destruct validated; [|by injection Hloop as <-].
    apply bind_Ok in Hloop as ([] & wi & [= <-] & Hloop).
    apply bind_Ok in Hloop as ([] & wj & Hloop & Hend).
    eapply (maintains_Ok _ _ _ _ _
              (maintains_mission_loop oracle G require_engaged _ Hnow Hmission fuel))
      in Hloop; [|by apply quiet_since_emit].
    apply bind_Ok in Hend as ([] & wk & [= <-] & Hend).
    eapply (maintains_Ok _ _ _ _ _ (maintains_event _ _ _)) in Hend; [done|].
    by apply quiet_since_emit. }
  destruct Hh as (mid & Htr_h & Hquiet & Hreg_h).
  apply bind_Ok in H as (w1 & wi & [= <- <-] & H).
  apply bind_Ok in H as ([] & wj & Hstop & H).
  apply (for_each_Ok_trace _ _ (λ ka, EvCleanup ka.2)) in Hstop as [Htr_j _];
    [|apply stop_component_Ok].
  apply bind_Ok in H as ([] & wk & [= <-] & H).
  apply executor_debug_print_0_Ok in H as ->.
  exists mid. split; [|done]. simpl.
  rewrite Htr_j, Hreg_h, Htr_h, Htr_d. unfold addrs, dict_values.
  do 3 f_equal. f_equal. apply (list_fmap_compose snd EvCleanup).
Qed.

Lemma quiet_elem mid ev :
  Forall (λ ev, quiet ev = true) mid → ev ∈ mid → quiet ev = true.
Proof. intros H Hev. by eapply Forall_forall in H. Qed.

Lemma elem_of_cleanups a l : EvCleanup a ∈ reverse (EvCleanup <$> l) → a ∈ l.
Proof.
  rewrite elem_of_reverse, list_elem_of_fmap. by intros (b & [= ->] & Hb).
Qed.

Lemma elem_of_initializes ev l :
  ev ∈ reverse (EvInitialize <$> l) → ∃ b, ev = EvInitialize b ∧ b ∈ l.
Proof. rewrite elem_of_reverse, list_elem_of_fmap. naive_solver. Qed.

Lemma elem_of_cleanups_inv ev l :
  ev ∈ reverse (EvCleanup <$> l) → ∃ b, ev = EvCleanup b ∧ b ∈ l.
Proof. rewrite elem_of_reverse, list_elem_of_fmap. naive_solver. Qed.

(** C2, amended: in every [run] that returns after its two checks of the
    pipelines, every registered component executor is started once, and
    each one is stopped exactly once, after the mission and in the order of
    the starts, and the logging manager is closed after the last cleanup;
    this holds whichever way the mission loop ended.  A [run] that returns
    after a failed check has started and stopped nothing.  ([tr] holds the
    latest event first; the events of [mid] are neither starts, nor
    cleanups, nor the close of the logs.) *)
Theorem run_stops_every_started_component (oracle : Oracle) (G : Graph)
    (require_engaged : bool) (AllState_zero : AllState) (fuel : nat)
    (w w' : World) :
  NoDup (dict_values (all_components w)) →
  run oracle G require_engaged AllState_zero fuel w = Ok tt w' →
  let addrs := dict_values (all_components w) in
  ∃ tr, w_trace w' = tr ++ w_trace w ∧
        (if dict_mem (pipelines w) (current_pipeline w)
            && dict_mem (pipelines w) "recovery"
         then ∃ mid, tr = EvPrint "Done with execution loop" :: EvLogClose
                          :: reverse (EvCleanup <$> addrs) ++ mid
                          ++ reverse (EvInitialize <$> addrs) ∧
                     Forall (λ ev, quiet ev = true) mid
         else ∃ fmt, tr = [EvPrint fmt]) ∧
        ∀ a, EvInitialize a ∈ tr →
             ∃ after before,
               tr = after ++ EvCleanup a :: before ∧
               (EvCleanup a ∉ after) ∧ (EvCleanup a ∉ before) ∧
               EvInitialize a ∈ before ∧
               EvLogClose ∈ after ∧ (EvLogClose ∉ before).
Proof.
  intros Hnodup Hrun addrs.
  apply run_Ok_trace in Hrun. fold addrs in Hrun.
  destruct (dict_mem (pipelines w) (current_pipeline w)
            && dict_mem (pipelines w) "recovery").
  2: { destruct Hrun as [fmt Htr]. exists [EvPrint fmt]. split; [done|].
       split; [by exists fmt|]. intros a Ha.
       apply list_elem_of_singleton in Ha. done. }
  destruct Hrun as (mid & Htr & Hquiet).
  exists (EvPrint "Done with execution loop" :: EvLogClose
          :: reverse (EvCleanup <$> addrs) ++ mid ++ reverse (EvInitialize <$> addrs)).
  split.
  { rewrite Htr. simpl. by rewrite <- !app_assoc. }
  split; [by exists mid|].
  intros a Ha.
  assert (Haddrs : a ∈ addrs).
  { rewrite !elem_of_cons, !elem_of_app in Ha.
    destruct Ha as [?|[?|[Ha|[Ha|Ha]]]]; try done.
    - by apply elem_of_cleanups_inv in Ha as (b & ? & _).
    - by apply (quiet_elem _ _ Hquiet) in Ha.
    - by apply elem_of_initializes in Ha as (b & [= ->] & ?). }
  apply list_elem_of_split in Haddrs as (l1 & l2 & Hsplit).
  unfold addrs in Hsplit.
  rewrite Hsplit in Hnodup. apply NoDup_app in Hnodup as (_ & Hl1 & Hl2).
  apply NoDup_cons in Hl2 as [Hl2 _].
  exists (EvPrint "Done with execution loop" :: EvLogClose
          :: reverse (EvCleanup <$> l2)),
         (reverse (EvCleanup <$> l1) ++ mid ++ reverse (EvInitialize <$> addrs)).
  split_and!.
  - unfold addrs at 1. rewrite Hsplit at 1.
    rewrite fmap_app, fmap_cons, reverse_app, reverse_cons.
    simpl. by rewrite <- !app_assoc.
  - rewrite !elem_of_cons. intros [?|[?|Hin]]; try done.
    by apply elem_of_cleanups in Hin.
  - rewrite !elem_of_app. intros [Hin|[Hin|Hin]].
    + apply elem_of_cleanups in Hin. eapply Hl1; [done|]. apply list_elem_of_here.
    + by apply (quiet_elem _ _ Hquiet) in Hin.
    + by apply elem_of_initializes in Hin as (b & ? & _).
  - rewrite !elem_of_app. right. right.
    rewrite elem_of_reverse, list_elem_of_fmap. exists a. split; [done|].
    unfold addrs. rewrite Hsplit, elem_of_app, elem_of_cons. auto.
  - rewrite !elem_of_cons. auto.
  - rewrite !elem_of_app. intros [Hin|[Hin|Hin]].
    + by apply elem_of_cleanups_inv in Hin as (b & ? & _).
    + by apply (quiet_elem _ _ Hquiet) in Hin.
    + by apply elem_of_initializes in Hin as (b & ? & _).
Qed.

(** *** The four ways out of the mission loop *)

(** The planner runs in both pipelines; the mission starts in [drive]. *)
Definition mission_world : World := with_current_pipeline "drive" recovery_world.

(** The events of a trace that start, stop or close something, and the exit
    reasons. *)
Definition lifecycle (tr : list Event) : list Event :=
  List.filter (λ ev, match ev with
                     | EvInitialize _ | EvCleanup _ | EvLogClose | EvExit _ => true
                     | _ => false
                     end) tr.

Definition run_lifecycle (oracle : Oracle) (w : World) : option (list Event) :=
  match run oracle one_planner_graph false zero_state 12 w with
  | Ok _ w' => Some (lifecycle (w_trace w'))
  | _ => None
  end.

(** The mission is done after a few ticks. *)
Lemma run_normal_exit :
  run_lifecycle (steady_oracle (Returns VNone "" "") 20) mission_world
  = Some [EvLogClose; EvCleanup 0; EvExit "normal exit"; EvInitialize 0].
Proof. vm_compute. reflexivity. Qed.

(** The subclass hook asks for an unknown pipeline: the loop turns to
    recovery, and there the request fails the recovery. *)
Lemma run_recovery_failure :
  run_lifecycle park_oracle mission_world
  = Some [EvLogClose; EvCleanup 0; EvExit "recovery pipeline not working";
          EvInitialize 0].
Proof. vm_compute. reflexivity. Qed.

(** Every sleep of the looper is interrupted: the first interrupt turns the
    loop to recovery, the second one ends it. *)
Definition interrupt_oracle : Oracle :=
  {| o_make_class := λ _, MadeOther;
     o_component_replayer := λ _, None;
     o_initialize := λ _, None;
     o_cleanup := λ _, None;
     o_update := λ _, Returns VNone "" "";
     o_healthy := λ _, true;
     o_vehicle_time := λ n, Nat.iter n (PrimFloat.add 0.5) 0%float;
     o_wall_time := λ n, Nat.iter n (PrimFloat.add 0.5) 0%float;
     o_hardware_faults := λ _, [];
     o_looper := λ _, None;
     o_done := λ _, false;
     o_update_hook := λ _, None |}.

Lemma run_interrupt :
  run_lifecycle interrupt_oracle mission_world
  = Some [EvLogClose; EvCleanup 0; EvExit "Ctrl+C interrupt during recovery";
          EvInitialize 0].
Proof. vm_compute. reflexivity. Qed.

(** A pipeline with a sensor, interrupted while its sensors are validated. *)
Definition sensor_world : World :=
  with_state zero_state
    (with_pipelines [ ("drive", ([("planner", 0)], [], []));
                      ("recovery", ([], [("planner", 0)], [])) ]
       (one_planner_world slow_component)).

Lemma run_sensor_validation_failure :
  run_lifecycle interrupt_oracle sensor_world
  = Some [EvLogClose; EvCleanup 0; EvExit "Sensor validation failed"; EvInitialize 0].
Proof. vm_compute. reflexivity. Qed.

Lemma run_stops_every_started_component_witness :
  let oracle := steady_oracle (Returns VNone "" "") 20 in
  let w' := res_world (run oracle one_planner_graph false zero_state 12 mission_world) in
  (NoDup (dict_values (all_components mission_world)) ∧
   run oracle one_planner_graph false zero_state 12 mission_world = Ok tt w') ∧
  ∃ tr, w_trace w' = tr ++ w_trace mission_world ∧
        (∃ mid, tr = EvPrint "Done with execution loop" :: EvLogClose
                     :: reverse (EvCleanup <$> [0]) ++ mid
                     ++ reverse (EvInitialize <$> [0]) ∧
                Forall (λ ev, quiet ev = true) mid) ∧
        ∀ a, EvInitialize a ∈ tr →
             ∃ after before,
               tr = after ++ EvCleanup a :: before ∧
               (EvCleanup a ∉ after) ∧ (EvCleanup a ∉ before) ∧
               EvInitialize a ∈ before ∧
               EvLogClose ∈ after ∧ (EvLogClose ∉ before).
Proof.
  intros oracle w'.
  assert (H1 : NoDup (dict_values (all_components mission_world))).
  { apply NoDup_singleton. }
  assert (H2 : run oracle one_planner_graph false zero_state 12 mission_world = Ok tt w')
    by (vm_compute; reflexivity).
  split; [by split|].
  exact (run_stops_every_started_component oracle one_planner_graph false zero_state
           12 mission_world w' H1 H2).
Defined.

(** *** A cleanup that raises

    C2, as stated, fails.  Two executors are registered and started; the
    mission loop ends by normal termination; the cleanup of the first
    executor raises.  The exception leaves [run]: the second executor is
    never stopped and the logging manager is not closed. *)

Definition two_component_world : World :=
  with_all_components [ ("('planner', 'planning.Planner')", 0);
                        ("('logger', 'logging.Logger')", 1) ]
    (with_heap (λ _, fresh_executor slow_component 0.5) 2 mission_world).

Definition stuck_oracle : Oracle :=
  {| o_make_class := λ _, MadeOther;
     o_component_replayer := λ _, None;
     o_initialize := λ _, None;
     o_cleanup := λ _, Some (RuntimeError "cleanup failed");
     o_update := λ _, Returns VNone "" "";
     o_healthy := λ _, true;
     o_vehicle_time := λ n, Nat.iter n (PrimFloat.add 0.5) 0%float;
     o_wall_time := λ n, Nat.iter n (PrimFloat.add 0.5) 0%float;
     o_hardware_faults := λ _, [];
     o_looper := λ _, Some true;
     o_done := λ n, Nat.leb 20 n;
     o_update_hook := λ _, None |}.

Lemma run_cleanup_failure_leaves_started :
  NoDup (dict_values (all_components two_component_world)) ∧
  ∃ w', run stuck_oracle one_planner_graph false zero_state 12 two_component_world
        = Raise (RuntimeError "cleanup failed") w' ∧
        lifecycle (w_trace w')
        = [EvCleanup 0; EvExit "normal exit"; EvInitialize 1; EvInitialize 0].
Proof.
  split.
  { apply (bool_decide_unpack _). vm_compute. reflexivity. }
  eexists. split; vm_compute; reflexivity.
Qed.

(** ** Exceptions of a component (C1) *)

(** The executor at [a] has caught an exception. *)
Definition latched (a : nat) (w : World) : Prop :=
  ex_had_exception (w_heap w a) = true.

Lemma latched_stable a : Stable (latched a).
Proof.
  split; try done.
  intros w b f Hf Hw. unfold latched, heap_set. simpl.
  destruct (decide (a = b)) as [->|]; [|done]. by apply Hf.
Qed.

Lemma latched_pipeline_stable a : PipelineStable (latched a).
Proof. by split. Qed.

Lemma latched_call_stable a : CallStable (latched a).
Proof.
  split; try done.
  intros w b Hw. unfold latched, heap_set. simpl.
  by destruct (decide (a = b)) as [->|].
Qed.

(** Once set, [had_exception] stays set through the sensor validation and
    the mission loop: nothing in them resets it. *)
Lemma latch_survives_mission oracle G require_engaged fuel a w :
  latched a w →
  latched a (res_world (mission_loop oracle G require_engaged fuel w)) ∧
  latched a (res_world (validate_sensors oracle G require_engaged fuel None w)).
Proof.
  intros Hw.
  pose proof (latched_stable a) as Hst. pose proof (latched_call_stable a) as Hcall.
  pose proof (latched_pipeline_stable a) as Hpipe.
  pose proof (call_update_now oracle (latched a)) as Hnow.
  split.
  - by apply (maintains_mission_loop oracle G require_engaged (latched a) Hnow).
  - by apply (maintains_validate_sensors oracle G require_engaged (latched a) Hnow).
Qed.

(** An executor that caught an exception reports unhealthy, whatever its
    component says. *)
Lemma healthy_latched oracle a w :
  latched a w → ∃ w', healthy oracle a w = Ok false w' ∧ latched a w'.
Proof.
  intros Hw. exists (with_calls (S (w_calls w)) w). split; [|exact Hw].
  unfold healthy, bind, ask, get_ex, ret. simpl.
  unfold latched in Hw. rewrite Hw. simpl. by rewrite andb_false_r.
Qed.

Lemma executor_debug_exception_ok traceback fmt n w :
  py_format fmt n = true → py_format traceback 0 = true →
  executor_debug_exception traceback fmt n w
  = Ok tt (with_trace (EvPrint traceback :: EvPrint fmt :: EvStderr traceback
                       :: EvStderr fmt :: w_trace w) w).
Proof.
  intros Hfmt Htb.
  unfold executor_debug_exception, executor_debug_stderr, executor_debug_print.
  change (Nat.leb 0 EXECUTION_VERBOSITY) with true. cbv iota.
  rewrite Hfmt, Htb. reflexivity.
Qed.

Lemma executor_debug_exception_fails traceback fmt n w :
  py_format fmt n = true → py_format traceback 0 = false →
  executor_debug_exception traceback fmt n w
  = Raise format_error (with_trace (EvStderr fmt :: w_trace w) w).
Proof.
  intros Hfmt Htb.
  unfold executor_debug_exception, executor_debug_stderr.
  rewrite Hfmt, Htb. reflexivity.
Qed.

Lemma log_output_Ok a stdout stderr w :
  ∃ w', log_output a stdout stderr w = Ok tt w' ∧ w_heap w' = w_heap w.
Proof.
  unfold log_output, bind, emit, modify, ret.
  repeat case_decide; by eexists.
Qed.

(** The handler does its work when the text of the traceback is a format
    string without fields or lone braces: the exception is caught, the flag
    is set and the result is absent. *)
Lemma do_update_catches oracle a t w e traceback stdout stderr :
  o_update oracle (w_calls w) = Raises e traceback stdout stderr →
  is_Exception e = true →
  py_format traceback 0 = true →
  ∃ w', _do_update oracle a t w = Ok VNone w' ∧ latched a w'.
Proof.
  intros Hres He Hfmt.
  unfold _do_update. rewrite (bind_ok_eq get _ w w w eq_refl).
  rewrite (bind_ok_eq (emit _) _ w tt _ eq_refl).
  rewrite (bind_ok_eq (ask oracle o_update) _ _ _ _ eq_refl).
  cbn [w_calls with_trace]. rewrite Hres, He.
  rewrite (bind_ok_eq _ _ _ _ _
             (executor_debug_exception_ok traceback
                "Exception in component {}: {}" 2 _ eq_refl Hfmt)).
  rewrite (bind_ok_eq (set_ex a _) _ _ tt _ eq_refl).
  match goal with
  | |- ∃ _, (log_output _ _ _ ;;; _) ?w1 = _ ∧ _ =>
      destruct (log_output_Ok a stdout stderr w1) as (w2 & Hlog & Hheap);
      rewrite (bind_ok_eq _ _ _ _ _ Hlog)
  end.
  exists w2. split; [done|]. unfold latched. rewrite Hheap. simpl.
  by rewrite decide_True.
Qed.

(** The handler fails when the text of the traceback has a brace that
    [str.format] takes for a field: the error of the format call leaves the
    handler and [_do_update], and the flag is not set. *)
Lemma do_update_format_error oracle a t w e traceback stdout stderr :
  o_update oracle (w_calls w) = Raises e traceback stdout stderr →
  is_Exception e = true →
  py_format traceback 0 = false →
  ∃ w', _do_update oracle a t w = Raise format_error w' ∧ w_heap w' = w_heap w.
Proof.
  intros Hres He Hfmt.
  unfold _do_update. rewrite (bind_ok_eq get _ w w w eq_refl).
  rewrite (bind_ok_eq (emit _) _ w tt _ eq_refl).
  rewrite (bind_ok_eq (ask oracle o_update) _ _ _ _ eq_refl).
  cbn [w_calls with_trace]. rewrite Hres, He.
  rewrite (bind_raise_eq _ _ _ _ _
             (executor_debug_exception_fails traceback
                "Exception in component {}: {}" 2 _ eq_refl Hfmt)).
  by eexists.
Qed.

(** *** A component that raises [RuntimeError('{}')] *)

Definition braces_traceback : string :=
  "Traceback (most recent call last): File 'planner.py', line 10, in update: raise RuntimeError('{}') RuntimeError: {}".

Definition braces_oracle : Oracle :=
  steady_oracle (Raises (RuntimeError "{}") braces_traceback "" "") 20.

(** C1 fails on the code: the exception of the planner, whose traceback
    holds a pair of braces, is not contained.  An [IndexError] raised by the
    handler's own print leaves [_do_update], the mission loop and [run];
    [had_exception] stays false, and no component is cleaned up. *)
Theorem component_exception_escapes_run :
  is_Exception (RuntimeError "{}") = true ∧
  ∃ w', run braces_oracle one_planner_graph false zero_state 12 mission_world
        = Raise format_error w' ∧
        ex_had_exception (w_heap w' 0) = false ∧
        lifecycle (w_trace w') = [EvInitialize 0].
Proof.
  split; [reflexivity|]. eexists. split; [vm_compute; reflexivity|].
  split; reflexivity.
Qed.

(** With a traceback free of braces the same run contains the exception:
    the flag is set, the loop turns to recovery and ends as the subclass
    decides. *)
Lemma component_exception_contained :
  ∃ w', run (steady_oracle (Raises (RuntimeError "boom")
                              "Traceback (most recent call last): RuntimeError: boom"
                              "" "") 20)
          one_planner_graph false zero_state 12 mission_world = Ok tt w' ∧
        ex_had_exception (w_heap w' 0) = true ∧
        lifecycle (w_trace w')
        = [EvLogClose; EvCleanup 0; EvExit "normal exit"; EvInitialize 0].
Proof.
  eexists. split; [vm_compute; reflexivity|]. split; reflexivity.
Qed.

(** ** The registry of executors *)

(** No executor is registered twice, and every registered address is an
    allocated one. *)
Definition registry_ok (w : World) : Prop :=
  NoDup (dict_values (all_components w)) ∧
  ∀ a, a ∈ dict_values (all_components w) → a < w_next w.

Lemma registry_ok_fresh (registry : list (string * nat)) identifier next :
  NoDup (dict_values registry) →
  (∀ a, a ∈ dict_values registry → a < next) →
  dict_get registry identifier = None →
  NoDup (dict_values (dict_set registry identifier next)) ∧
  ∀ a, a ∈ dict_values (dict_set registry identifier next) → a < S next.
Proof.
  intros Hnd Hlt Hget. rewrite (dict_set_fresh _ _ _ Hget).
  unfold dict_values in *. rewrite fmap_app. simpl. split.
  - apply NoDup_app. split_and!; [done| |apply NoDup_singleton].
    intros a Ha Hin. apply list_elem_of_singleton in Hin as ->.
    specialize (Hlt _ Ha). lia.
  - intros a Ha. apply elem_of_app in Ha as [Ha|Ha].
    + specialize (Hlt _ Ha). lia.
    + apply list_elem_of_singleton in Ha as ->. lia.
Qed.

Lemma registry_ok_call_stable : CallStable registry_ok.
Proof. by split. Qed.

(** [make_component] keeps the registry in order: the worlds built by
    calling it from an empty registry meet the hypothesis of the shutdown
    theorem. *)
Lemma make_component_registry_ok oracle config_info component_name w :
  registry_ok w →
  registry_ok (res_world (make_component oracle config_info component_name w)).
Proof.
  intros Hw. pose proof Hw as [Hnd Hlt].
  unfold make_component. rewrite (bind_ok_eq get _ w w w eq_refl).
  destruct (dict_get (all_components w) (identifier_of component_name config_info))
    as [a0|] eqn:Hget; [done|].
  destruct (registry_ok_fresh _ _ _ Hnd Hlt Hget) as [Hnd' Hlt'].
  rewrite (bind_ok_eq (emit _) _ w tt _ eq_refl).
  rewrite (bind_ok_eq (ask oracle o_make_class) _ _ _ _ eq_refl).
  destruct (o_make_class oracle _) as [component| |e traceback].
  - rewrite (bind_ok_eq (ask oracle o_component_replayer) _ _ _ _ eq_refl).
    destruct (o_component_replayer oracle _) as [replacement|].
    + rewrite (bind_ok_eq _ _ _ replacement _
                 (bind_ok_eq _ _ _ _ _
                    (executor_debug_print_shown 1
                       "Replaying component {} from long {} with outputs {}" 3 _
                       eq_refl eq_refl))).
      destruct (new_executor replacement _) as [executor|]; [|done].
      destruct (match config_info with CfgStr _ => _ | CfgDict _ => _ end)
        as [configured|]; [|done].
      rewrite (bind_ok_eq (alloc _) _ _ _ _ eq_refl).
      rewrite (bind_ok_eq (set_debugger _) _ _ tt _ eq_refl).
      rewrite (bind_ok_eq (modify _) _ _ tt _ eq_refl).
      by split.
    + rewrite (bind_ok_eq (ret component) _ _ component _ eq_refl).
      destruct (new_executor component _) as [executor|]; [|done].
      destruct (match config_info with CfgStr _ => _ | CfgDict _ => _ end)
        as [configured|]; [|done].
      rewrite (bind_ok_eq (alloc _) _ _ _ _ eq_refl).
      rewrite (bind_ok_eq (set_debugger _) _ _ tt _ eq_refl).
      rewrite (bind_ok_eq (modify _) _ _ tt _ eq_refl).
      by split.
  - done.
  - pose proof registry_ok_call_stable as Hcall.
    apply (maintains_bind registry_ok); [|intros _; apply maintains_raise|done].
    destruct (is_Exception e); [|apply maintains_ret].
    apply call_executor_debug_exception, Hcall.
Qed.

Lemma initial_world_registry_ok e : registry_ok (initial_world e).
Proof. split; [apply NoDup_nil_2|]. intros a Ha. by apply elem_of_nil in Ha. Qed.

(** * Further properties of the code *)

(** ** The computation graph, continued *)

Lemma normalize_entry_Val c s : normalize_entry c = Val s → entry_well_formed c.
Proof.
  destruct c as [name|items|]; simpl; [done| |done].
  by destruct items as [|[k [body|]] [|? ?]].
Qed.

Lemma normalize_entry_Exc c e :
  normalize_entry c = Exc e → ∃ msg, e = AssertionError msg.
Proof.
  destruct c as [name|items|]; simpl; [done| |intros [= <-]; by eexists].
  destruct items as [|[k [body|]] [|? ?]]; simpl; try done;
    intros [= <-]; by eexists.
Qed.

(** X1: [normalize_computation_graph] returns exactly on the settings whose
    every entry is a string or a one-key dictionary with a dictionary value;
    on every other setting it raises, and what it raises is an assertion
    error. *)
Theorem normalize_computation_graph_total (setting : list GraphEntry) :
  ((∃ cs, normalize_computation_graph setting = Val cs) ↔
   Forall entry_well_formed setting) ∧
  (∀ e, normalize_computation_graph setting = Exc e → ∃ msg, e = AssertionError msg).
Proof.
  split.
  - split.
    + induction setting as [|c setting IH]; simpl; [by constructor|].
      intros (cs & H). apply py_bind_Val in H as (s & Hs & H).
      apply py_bind_Val in H as (cs' & Hcs' & _). constructor.
      * by eapply normalize_entry_Val.
      * apply IH. by eexists.
    + intros H. destruct (normalize_well_formed setting H) as (cs & Hcs & _).
      by eexists.
  - induction setting as [|c setting IH]; simpl; [done|].
    intros e. destruct (normalize_entry c) as [s|e'] eqn:Hc; simpl.
    + destruct (normalize_computation_graph setting) as [cs|e'']; simpl; [done|].
      intros [= <-]. by apply IH.
    + intros [= <-]. by eapply normalize_entry_Exc.
Qed.

(** A normalized component, written back as an entry of the settings: the
    one-key dictionary [{k: {'inputs': [...], 'outputs': [...]}}]. *)
Definition as_entry (p : string * CSettings) : GraphEntry :=
  GDict [(p.1, Some {| eb_inputs := FList (cs_inputs p.2);
                       eb_outputs := FList (cs_outputs p.2) |})].

(** X2: normalizing is idempotent: a normalized graph, written back as
    one-key dictionaries with list fields, normalizes to itself. *)
Theorem normalize_computation_graph_idempotent (cs : list (string * CSettings)) :
  normalize_computation_graph (as_entry <$> cs) = Val cs.
Proof.
  induction cs as [|[k [ins outs]] cs IH]; [done|].
  rewrite fmap_cons.
  change (normalize_computation_graph (as_entry (k, {| cs_inputs := ins; cs_outputs := outs |})
                                       :: (as_entry <$> cs)))
    with (py_bind (normalize_computation_graph (as_entry <$> cs))
            (λ ns, Val ((k, {| cs_inputs := ins; cs_outputs := outs |}) :: ns))).
  by rewrite IH.
Qed.

Lemma check_inputs_Exc k possible provided_all provided inputs e :
  check_inputs k possible provided_all provided inputs = Exc e →
  ∃ msg, e = AssertionError msg.
Proof.
  induction inputs as [|i inputs IH]; simpl; [done|].
  unfold py_assert.
  repeat (case_decide || case_bool_decide || case_match || simpl);
    try done; try (intros [= <-]; by eexists); auto.
Qed.

Lemma check_required_outputs_Exc k outputs required e :
  check_required_outputs k outputs required = Exc e →
  ∃ msg, e = AssertionError msg.
Proof.
  induction required as [|o required IH]; simpl; [done|].
  unfold py_assert.
  repeat (case_decide || case_bool_decide || case_match || simpl);
    try done; try (intros [= <-]; by eexists); auto.
Qed.

Lemma check_known_Exc G names e :
  check_known G names = Exc e → ∃ msg, e = AssertionError msg.
Proof.
  induction names as [|k names IH]; simpl; [done|].
  unfold py_assert. case_bool_decide; simpl; [done|]. intros [= <-]. by eexists.
Qed.

Lemma load_settings_keys setting g k :
  load_computation_graph setting = Val g →
  k ∈ COMPONENT_ORDER g ↔ is_Some (COMPONENT_SETTINGS g !! k).
Proof.
  unfold load_computation_graph. intros H.
  apply py_bind_Val in H as (cs & _ & [= <-]). simpl.
  rewrite py_dict_of_lookup, <- dict_keys_get. unfold dict_keys.
  by rewrite fmap_reverse, elem_of_reverse.
Qed.

Lemma validate_walk_Exc G components order provided provided_all e :
  (∀ k, k ∈ order → is_Some (COMPONENT_SETTINGS G !! k)) →
  validate_walk G components order provided provided_all = Exc e →
  ∃ msg, e = AssertionError msg.
Proof.
  revert provided provided_all.
  induction order as [|k order IH]; intros provided provided_all Hkeys; simpl; [done|].
  assert (Hrest : ∀ k', k' ∈ order → is_Some (COMPONENT_SETTINGS G !! k')).
  { intros k' Hk'. apply Hkeys. by apply list_elem_of_further. }
  destruct (dict_get components k) as [c|]; [|by apply IH].
  destruct (Hkeys k) as [s Hs]; [apply list_elem_of_here|]. rewrite Hs.
  destruct (check_inputs _ _ _ _ _) as [[]|e1] eqn:H1; simpl.
  2: { intros [= <-]. by eapply check_inputs_Exc. }
  destruct (check_required_outputs _ _ _) as [[]|e2] eqn:H2; simpl.
  2: { intros [= <-]. by eapply check_required_outputs_Exc. }
  destruct (add_outputs _ _ _). by apply IH.
Qed.

(** X3: on a graph that [load_computation_graph] returned, every name of
    [COMPONENT_ORDER] has settings, so the lookups of [validate_components]
    never fail: whatever it raises is an assertion error. *)
Theorem validate_components_raises_assertions_only (setting : list GraphEntry)
    (g : Graph) (components : list (string * Component))
    (provided : option (list string)) (e : PyExn) :
  load_computation_graph setting = Val g →
  validate_components g components provided = Exc e →
  (∀ k, k ∈ COMPONENT_ORDER g ↔ is_Some (COMPONENT_SETTINGS g !! k)) ∧
  ∃ msg, e = AssertionError msg.
Proof.
  intros Hload Hexc.
  assert (Hkeys : ∀ k, k ∈ COMPONENT_ORDER g ↔ is_Some (COMPONENT_SETTINGS g !! k)).
  { intros k. by eapply load_settings_keys. }
  split; [done|].
  unfold validate_components in Hexc.
  destruct (validate_walk _ _ _ _ _) as [out|e1] eqn:Hwalk; simpl in Hexc.
  - destruct (check_known g (dict_keys components)) as [[]|e2] eqn:Hknown;
      simpl in Hexc; [done|].
    injection Hexc as <-. by eapply check_known_Exc.
  - injection Hexc as <-. eapply validate_walk_Exc; [|done].
    intros k Hk. by apply Hkeys.
Qed.

Lemma validate_components_raises_assertions_only_witness :
  let setting := [GDict [("A", Some {| eb_inputs := FMissing; eb_outputs := FStr "x" |})];
                  GStr "B"] in
  (load_computation_graph setting = Val stray_input_graph ∧
   validate_components stray_input_graph stray_input_components None
   = Exc (AssertionError "Component B is not supposed to receive input x")) ∧
  (∀ k, k ∈ COMPONENT_ORDER stray_input_graph
        ↔ is_Some (COMPONENT_SETTINGS stray_input_graph !! k)) ∧
  ∃ msg, AssertionError "Component B is not supposed to receive input x"
         = AssertionError msg.
Proof.
  intros setting.
  assert (H1 : load_computation_graph setting = Val stray_input_graph) by reflexivity.
  assert (H2 : validate_components stray_input_graph stray_input_components None
               = Exc (AssertionError "Component B is not supposed to receive input x"))
    by reflexivity.
  split; [by split|].
  exact (validate_components_raises_assertions_only setting stray_input_graph
           stray_input_components None _ H1 H2).
Defined.

(** X4: what [validate_components] returns holds every field it was given
    as provided, and holds ["all"] only if it was given it: an output
    ["all"] is never passed on as a field. *)
Theorem validate_components_output (G : Graph) (components : list (string * Component))
    (provided : option (list string)) (out : gset string) :
  validate_components G components provided = Val out →
  provided_set provided ⊆ out ∧
  ("all" ∈ out → "all" ∈ provided_set provided).
Proof.
  unfold validate_components. fold (provided_set provided).
  intros H. apply py_bind_Val in H as (out' & Hwalk & H).
  apply py_bind_Val in H as (_ & _ & [= <-]).
  apply validate_walk_spec in Hwalk as [_ Hset]. split.
  - intros x Hx. apply Hset. by left.
  - intros Hall. apply Hset in Hall as [?|(kc & _ & _ & ?)]; done.
Qed.

Definition all_output_graph : Graph :=
  let cs := [ ("A", {| cs_inputs := ["t"]; cs_outputs := ["x"] |}) ] in
  {| COMPONENTS := cs; COMPONENT_ORDER := cs.*1; COMPONENT_SETTINGS := py_dict_of cs |}.

Definition all_output_components : list (string * Component) :=
  [ ("A", {| c_class := "A"; c_state_inputs := ["t"]; c_state_outputs := ["all"; "x"];
             c_rate := None |}) ].

Definition all_output_fields : gset string :=
  match validate_components all_output_graph all_output_components (Some ["t"]) with
  | Val out => out
  | Exc _ => ∅
  end.

Lemma validate_components_output_witness :
  validate_components all_output_graph all_output_components (Some ["t"])
  = Val all_output_fields ∧
  provided_set (Some ["t"]) ⊆ all_output_fields ∧
  ("all" ∈ all_output_fields → "all" ∈ provided_set (Some ["t"])).
Proof.
  assert (H : validate_components all_output_graph all_output_components (Some ["t"])
              = Val all_output_fields).
  { vm_compute. reflexivity. }
  split; [exact H|].
  exact (validate_components_output all_output_graph all_output_components
           (Some ["t"]) _ H).
Defined.


(** ** Pipelines *)

Lemma validate_components_Val_input G components provided out pre k c post i :
  validate_components G components provided = Val out →
  visited components (COMPONENT_ORDER G) = pre ++ (k, c) :: post →
  i ∈ c_state_inputs c → i ≠ "all" →
  produced_before (provided_set provided) pre i.
Proof.
  unfold validate_components. fold (provided_set provided).
  intros H Hvis Hi Hne. apply py_bind_Val in H as (out' & Hwalk & _).
  apply validate_walk_spec in Hwalk as [Hall _].
  destruct (Hall pre k c post Hvis) as (_ & Hrule & _).
  destruct (Hrule i Hi) as [[? _]|(_ & [?|?] & _)]; done.
Qed.

(** X5: the flag [provided_all] does not pass from one phase of a pipeline
    to the next.  When a planning component reads a field that no
    perception and no planning component outputs, and no planning
    component outputs ["all"], [add_pipeline] raises and registers
    nothing, whether or not a perception component outputs ["all"]. *)
Theorem add_pipeline_all_stops_at_phase (G : Graph) (name : string)
    (perception planning other : Phase) (w : World) (i : string) :
  i ≠ "all" →
  Exists (λ kc, i ∈ c_state_inputs kc.2)
    (visited (phase_components w planning) (COMPONENT_ORDER G)) →
  Forall (λ kc, i ∉ c_state_outputs kc.2)
    (phase_components w perception ++ phase_components w planning) →
  Forall (λ kc, "all" ∉ c_state_outputs kc.2) (phase_components w planning) →
  ∃ e, add_pipeline G name perception planning other w = Raise e w.
Proof.
  rewrite Exists_exists, !Forall_forall.
  intros Hne ([k c] & Hkc & Hi) Hnone Hnoall. unfold add_pipeline.
  rewrite (bind_ok_eq get _ w w w eq_refl).
  destruct (validate_components G (phase_components w perception) None)
    as [out|e] eqn:Hperc; [|by exists e].
  simpl lift_py. rewrite (bind_ok_eq (ret out) _ w out w eq_refl).
  destruct (validate_components G (phase_components w planning) (Some (elements out)))
    as [out2|e] eqn:Hplan; [exfalso|by exists e].
  apply list_elem_of_split in Hkc as (pre & post & Hvis).
  assert (Hsub : ∀ kc, kc ∈ pre → kc ∈ phase_components w planning).
  { intros [k' c'] Hin. eapply dict_get_Some_elem, elem_of_visited.
    rewrite Hvis. apply elem_of_app. by left. }
  pose proof (validate_components_Val_input _ _ _ _ _ _ _ _ _ Hplan Hvis Hi Hne)
    as [Hprov|[(kc & Hin & Hout)|(kc & Hin & Hout)]].
  - simpl in Hprov. rewrite elem_of_list_to_set, elem_of_elements in Hprov.
    unfold validate_components in Hperc.
    apply py_bind_Val in Hperc as (out' & Hwalk & H).
    apply py_bind_Val in H as (_ & _ & [= <-]).
    apply validate_walk_spec in Hwalk as [_ Hset].
    apply Hset in Hprov as [Hprov|([k' c'] & Hin & Hout & _)];
      [by apply elem_of_empty in Hprov|].
    apply (Hnone (k', c')); [|done].
    apply elem_of_app. left. eapply dict_get_Some_elem, elem_of_visited, Hin.
  - apply (Hnone kc); [|done]. apply elem_of_app. right. by apply Hsub.
  - apply (Hnoall kc); [by apply Hsub|done].
Qed.

(** A perception component that outputs ["all"] and a planner that reads
    [y]: accepted as one phase, refused as a pipeline. *)
Definition all_phase_graph : Graph :=
  let cs := [ ("A", {| cs_inputs := []; cs_outputs := [] |});
              ("B", {| cs_inputs := ["y"]; cs_outputs := [] |}) ] in
  {| COMPONENTS := cs; COMPONENT_ORDER := cs.*1; COMPONENT_SETTINGS := py_dict_of cs |}.

Definition all_phase_world : World :=
  let A := {| c_class := "A"; c_state_inputs := []; c_state_outputs := ["all"];
              c_rate := None |} in
  let B := {| c_class := "B"; c_state_inputs := ["y"]; c_state_outputs := [];
              c_rate := None |} in
  with_heap (λ a, if decide (a = 0) then fresh_executor A 0.5 else fresh_executor B 0.5)
    2 (initial_world (fresh_executor A 0.5)).

Lemma add_pipeline_all_stops_at_phase_witness :
  (∃ out, validate_components all_phase_graph
            (phase_components all_phase_world [("A", 0); ("B", 1)]) None = Val out) ∧
  ∃ e, add_pipeline all_phase_graph "drive" [("A", 0)] [("B", 1)] [] all_phase_world
       = Raise e all_phase_world.
Proof.
  split; [eexists; vm_compute; reflexivity|].
  apply (add_pipeline_all_stops_at_phase all_phase_graph "drive" [("A", 0)] [("B", 1)] []
           all_phase_world "y").
  - done.
  - apply (bool_decide_unpack _). vm_compute. reflexivity.
  - apply (bool_decide_unpack _). vm_compute. reflexivity.
  - apply (bool_decide_unpack _). vm_compute. reflexivity.
Defined.

(** ** Sensor validation *)

Lemma dt_min_of_Ok components w d w' :
  dt_min_of components w = Ok d w' → w' = w.
Proof.
  unfold dt_min_of. rewrite (bind_ok_eq _ _ _ _ _ (map_m_dt components w)).
  destruct (py_min _); [|done]. by intros [= _ <-].
Qed.

Lemma looper_Ok oracle w go w' :
  looper oracle w = Ok go w' →
  o_looper oracle (w_calls w) = Some go ∧ w' = with_calls (S (w_calls w)) w.
Proof.
  unfold looper, bind, ask. destruct (o_looper oracle (w_calls w)); [|done].
  by intros [= <- <-].
Qed.

Ltac bind_inv H :=
  repeat (apply bind_Ok in H as (? & ? & _ & H); cbv beta in H).

Section SensorValidation.
Context (oracle : Oracle) (G : Graph) (require_engaged : bool).

(** With [numsteps = 1] the loop returns after one test of the looper:
    [True] when the looper is over, [False] after one pass. *)
Lemma validate_sensors_loop_once fuel perception next w b w' :
  validate_sensors_loop oracle G require_engaged fuel perception (Some 1) false 0 next w
  = Ok b w' →
  o_looper oracle (w_calls w) = Some (negb b).
Proof.
  destruct fuel as [|fuel]; [done|]. simpl. intros H.
  apply bind_Ok in H as (go & w1 & Hgo & H). apply looper_Ok in Hgo as [Hgo _].
  destruct go; simpl in H.
  - bind_inv H. by injection H as <- _.
  - by injection H as <- _.
Qed.

(** Without [numsteps] the loop has one way to return, [return True]. *)
Lemma validate_sensors_loop_None fuel perception working attempts next w b w' :
  validate_sensors_loop oracle G require_engaged fuel perception None working attempts
    next w = Ok b w' →
  b = true.
Proof.
  revert working attempts next w.
  induction fuel as [|fuel IH]; intros working attempts next w; [done|].
  simpl. intros H.
  apply bind_Ok in H as (go & w1 & _ & H).
  destruct (go && negb working); [|by injection H as <- _].
  do 10 (apply bind_Ok in H as (? & ? & _ & H); cbv beta in H).
  destruct (PrimFloat.ltb _ _).
  - apply bind_Ok in H as (? & ? & _ & H). by apply IH in H.
  - by apply IH in H.
Qed.
End SensorValidation.

(** An event that is in the trace stays there. *)
Definition recorded (ev : Event) (w : World) : Prop := ev ∈ w_trace w.

Lemma recorded_stable ev : Stable (recorded ev).
Proof. split; try done. intros w ev' _ H. by right. Qed.

(** The pipeline that is running: only the mission loop changes it. *)
Definition in_pipeline (p : string) (w : World) : Prop := current_pipeline w = p.

Lemma in_pipeline_stable p : Stable (in_pipeline p).
Proof. by split. Qed.

Lemma in_pipeline_call_stable p : CallStable (in_pipeline p).
Proof. by split. Qed.

Section SensorProbe.
Context (oracle : Oracle) (G : Graph) (require_engaged : bool).

Lemma validate_sensors_in_pipeline fuel numsteps p :
  maintains (in_pipeline p) (validate_sensors oracle G require_engaged fuel numsteps).
Proof.
  pose proof (in_pipeline_stable p). pose proof (in_pipeline_call_stable p).
  apply maintains_validate_sensors; [done|]. by apply call_update_now.
Qed.

Lemma validate_sensors_probe fuel w perception planning other b w' :
  dict_get (pipelines w) (current_pipeline w) = Some (perception, planning, other) →
  perception ≠ [] →
  validate_sensors oracle G require_engaged fuel (Some 1) w = Ok b w' →
  o_looper oracle (S (w_calls w)) = Some (negb b).
Proof.
  intros Hget Hne. unfold validate_sensors.
  rewrite (bind_ok_eq get _ w w w eq_refl), Hget.
  destruct (decide (length perception = 0)) as [Hlen|_].
  { by destruct perception. }
  intros H. apply bind_Ok in H as (d & w1 & Hd & H). apply dt_min_of_Ok in Hd as ->.
  apply bind_Ok in H as (t0 & w2 & [= <- <-] & H).
  by apply validate_sensors_loop_once in H.
Qed.

(** X6: [validate_sensors(1)] never reports working sensors.  On a
    pipeline with perception components it returns [True] only when its
    looper is over at the first test; when the looper is live it makes one
    pass and returns [False], whatever the health of the sensors.  Without
    perception components it returns [True]. *)
Theorem validate_sensors_one_step (fuel : nat) (w : World)
    (perception planning other : Phase) (b : bool) (w' : World) :
  dict_get (pipelines w) (current_pipeline w) = Some (perception, planning, other) →
  validate_sensors oracle G require_engaged fuel (Some 1) w = Ok b w' →
  b = true ↔ perception = [] ∨ o_looper oracle (S (w_calls w)) = Some false.
Proof.
  intros Hget H. destruct perception as [|ka perception].
  - unfold validate_sensors in H.
    rewrite (bind_ok_eq get _ w w w eq_refl), Hget in H.
    injection H as <- _. split; auto.
  - apply (validate_sensors_probe fuel w (ka :: perception) planning other) in H;
      [|done|done].
    rewrite H. destruct b; split; try done; [by right|by intros [|]].
Qed.

Lemma event_Ok desc ps w w' :
  event desc ps w = Ok tt w' →
  ∃ tr, w_trace w' = tr ++ EvEvent desc :: w_trace w ∧
        current_pipeline w' = current_pipeline w.
Proof.
  unfold event. intros H. apply bind_Ok in H as ([] & w1 & [= <-] & H).
  change (Nat.leb 1 EXECUTION_VERBOSITY) with true in H. cbv iota in H.
  apply executor_debug_print_Ok in H as [->| ->].
  - by exists [].
  - by eexists [_].
Qed.

(** X7: a switch to a pipeline that has perception components ends in the
    recovery pipeline when the looper of the probe is live: the probe
    [validate_sensors(1)] answers [False] after its one pass, the event
    of failed sensors is recorded and the mission loop goes on in
    [recovery]. *)
Theorem switch_to_sensor_pipeline_ends_in_recovery (fuel : nat) (next : string)
    (w : World) (perception planning other : Phase) (b : bool) (w' : World) :
  dict_get (pipelines w) next = Some (perception, planning, other) →
  perception ≠ [] →
  current_pipeline w ≠ "recovery" ∨ next ≠ "recovery" →
  o_looper oracle (S (w_calls w)) = Some true →
  after_switch oracle G require_engaged fuel (Some next) w = Ok b w' →
  b = false ∧ current_pipeline w' = "recovery" ∧
  EvEvent ("Sensors in desired pipeline " +:+ next
           +:+ " are not working, switching to recovery") ∈ w_trace w'.
Proof.
  intros Hget Hne Hnot Hlive. unfold after_switch.
  rewrite (bind_ok_eq get _ w w w eq_refl).
  unfold dict_mem. rewrite Hget.
  rewrite (bind_ok_eq (ret next) _ w next w eq_refl).
  assert (Hcond : bool_decide (current_pipeline w = "recovery")
                  && bool_decide (next = "recovery") = false).
  { apply andb_false_iff. rewrite !bool_decide_eq_false. tauto. }
  rewrite Hcond. intros H.
  apply bind_Ok in H as ([] & w1 & [= <-] & H).
  unfold revalidate in H.
  apply bind_Ok in H as (sensors & w2 & Hprobe & H).
  pose proof Hprobe as Hprobe'.
  apply (validate_sensors_probe fuel _ perception planning other) in Hprobe;
    [|done|done].
  simpl in Hprobe. rewrite Hlive in Hprobe. destruct sensors; [done|].
  apply bind_Ok in H as (w2' & w3 & [= <- <-] & H).
  apply bind_Ok in H as ([] & w3 & Hev & H).
  apply bind_Ok in H as ([] & w4 & [= <-] & [= <- <-]).
  apply event_Ok in Hev as (tr & Htr & _).
  assert (Hcur : current_pipeline w2 = next).
  { by apply (maintains_Ok _ _ _ _ _ (validate_sensors_in_pipeline fuel (Some 1) next)
                Hprobe'). }
  rewrite Hcur in Htr.
  split_and!; [done|done|]. simpl. rewrite Htr.
  apply elem_of_app. right. left.
Qed.

(** X8: without [numsteps], [validate_sensors] has no way to return
    [False]: when it returns, it returns [True].  So the validation that
    [run] makes before the mission fails in one way only, an interrupt: the
    branch of [run] for a validation that returned [False] is never
    taken. *)
Theorem sensor_validation_fails_on_interrupt_only (fuel : nat) (w w' : World)
    (validated : bool) :
  sensor_validation oracle (validate_sensors oracle G require_engaged fuel None) w
  = Ok validated w' →
  if validated then
    validate_sensors oracle G require_engaged fuel None w = Ok true w'
  else
    (∃ w1, validate_sensors oracle G require_engaged fuel None w
           = Raise KeyboardInterrupt w1) ∧
    EvEvent "Ctrl+C interrupt during sensor validation" ∈ w_trace w'.
Proof.
  assert (Hval : ∀ b w1,
    validate_sensors oracle G require_engaged fuel None w = Ok b w1 → b = true).
  { intros b w1. unfold validate_sensors. rewrite (bind_ok_eq get _ w w w eq_refl).
    destruct (dict_get (pipelines w) (current_pipeline w)) as [[[perception ?] ?]|];
      [|done].
    destruct (decide (length perception = 0)); [by intros [= <- _]|].
    intros H. apply bind_Ok in H as (d & w2 & _ & H).
    apply bind_Ok in H as (t0 & w3 & _ & H).
    by apply validate_sensors_loop_None in H. }
  unfold sensor_validation, try_except_KeyboardInterrupt, bind at 1.
  destruct (validate_sensors oracle G require_engaged fuel None w)
    as [b w1|e w1|w1] eqn:Hrun; [| |done].
  - rewrite (Hval b w1 eq_refl). simpl. by intros [= <- <-].
  - destruct e; try done. intros H.
    apply bind_Ok in H as ([] & w2 & Hev & H).
    assert (validated = false) as ->.
    { by bind_inv H; injection H as <- _. }
    split; [by exists w1|].
    apply event_Ok in Hev as (tr & Htr & _).
    assert (Hin : EvEvent "Ctrl+C interrupt during sensor validation" ∈ w_trace w2).
    { rewrite Htr. apply elem_of_app. right. left. }
    pose proof (recorded_stable (EvEvent "Ctrl+C interrupt during sensor validation")).
    assert (Hm : maintains
                   (recorded (EvEvent "Ctrl+C interrupt during sensor validation"))
                   (set_exit_reason "Sensor validation failed" ;;;
                    hang_check oracle ;;; ret false)) by maintain.
    exact (maintains_Ok _ _ _ _ _ Hm H Hin).
Qed.
End SensorProbe.

(** The probe on a pipeline whose sensor is healthy. *)
Definition healthy_sensor_oracle : Oracle := steady_oracle (Returns (VInt 1) "" "") 100.

Definition probed_world : World :=
  res_world (validate_sensors healthy_sensor_oracle one_planner_graph false 3 (Some 1)
               sensor_world).

Lemma validate_sensors_one_step_witness :
  validate_sensors healthy_sensor_oracle one_planner_graph false 3 (Some 1) sensor_world
  = Ok false probed_world ∧
  (false = true ↔
   [("planner", 0)] = ([] : Phase) ∨
   o_looper healthy_sensor_oracle (S (w_calls sensor_world)) = Some false).
Proof.
  assert (H : validate_sensors healthy_sensor_oracle one_planner_graph false 3 (Some 1)
                sensor_world = Ok false probed_world) by (vm_compute; reflexivity).
  split; [exact H|].
  exact (validate_sensors_one_step healthy_sensor_oracle one_planner_graph false 3
           sensor_world [("planner", 0)] [] [] false probed_world eq_refl H).
Defined.

(** Leaving recovery for the pipeline [drive], whose sensor is healthy. *)
Definition leaving_recovery : World := with_current_pipeline "recovery" sensor_world.

Definition left_recovery : World :=
  res_world (after_switch healthy_sensor_oracle one_planner_graph false 3 (Some "drive")
               leaving_recovery).

Lemma switch_to_sensor_pipeline_ends_in_recovery_witness :
  after_switch healthy_sensor_oracle one_planner_graph false 3 (Some "drive")
    leaving_recovery = Ok false left_recovery ∧
  false = false ∧ current_pipeline left_recovery = "recovery" ∧
  EvEvent ("Sensors in desired pipeline " +:+ "drive"
           +:+ " are not working, switching to recovery") ∈ w_trace left_recovery.
Proof.
  assert (H : after_switch healthy_sensor_oracle one_planner_graph false 3 (Some "drive")
                leaving_recovery = Ok false left_recovery) by (vm_compute; reflexivity).
  split; [exact H|].
  refine (switch_to_sensor_pipeline_ends_in_recovery healthy_sensor_oracle
            one_planner_graph false 3 "drive" leaving_recovery [("planner", 0)] [] []
            false left_recovery eq_refl _ _ eq_refl H).
  - done.
  - right. done.
Defined.

Definition interrupted_validation : World :=
  res_world (sensor_validation interrupt_oracle
               (validate_sensors interrupt_oracle one_planner_graph false 3 None)
               sensor_world).

Lemma sensor_validation_fails_on_interrupt_only_witness :
  sensor_validation interrupt_oracle
    (validate_sensors interrupt_oracle one_planner_graph false 3 None) sensor_world
  = Ok false interrupted_validation ∧
  (∃ w1, validate_sensors interrupt_oracle one_planner_graph false 3 None sensor_world
         = Raise KeyboardInterrupt w1) ∧
  EvEvent "Ctrl+C interrupt during sensor validation" ∈ w_trace interrupted_validation.
Proof.
  assert (H : sensor_validation interrupt_oracle
                (validate_sensors interrupt_oracle one_planner_graph false 3 None)
                sensor_world = Ok false interrupted_validation)
    by (vm_compute; reflexivity).
  split; [exact H|].
  exact (sensor_validation_fails_on_interrupt_only interrupt_oracle one_planner_graph
           false 3 sensor_world interrupted_validation false H).
Defined.

(** ** The recovery pipeline *)

Lemma bind_Ok_with {A B} (I : World → Prop) (m : M A) (f : A → M B) w b w' :
  maintains I m → I w → bind m f w = Ok b w' →
  ∃ a w1, m w = Ok a w1 ∧ I w1 ∧ f a w1 = Ok b w'.
Proof.
  intros Hm HI H. apply bind_Ok in H as (a & w1 & Hrun & H).
  exists a, w1. split_and!; [done| |done]. by apply (maintains_Ok I m w a w1).
Qed.

Section Recovery.
Context (oracle : Oracle) (G : Graph) (require_engaged : bool).

Lemma update_components_in_pipeline p components now force :
  maintains (in_pipeline p) (update_components oracle G components now force).
Proof.
  pose proof (in_pipeline_stable p). pose proof (in_pipeline_call_stable p).
  apply maintains_update_components; [done|]. by apply call_update_now.
Qed.

Lemma check_faults_in_recovery components fatal warning w b w' :
  in_pipeline "recovery" w →
  check_faults oracle components fatal warning w = Ok b w' →
  b = false ∧ in_pipeline "recovery" w'.
Proof.
  pose proof (in_pipeline_stable "recovery") as Hst.
  revert w. induction components as [|[name a] components IH]; intros w Hw; simpl.
  - by intros [= <- <-].
  - intros H.
    apply (bind_Ok_with (in_pipeline "recovery")) in H as (h & w1 & _ & Hw1 & H);
      [|maintain|done].
    destruct h; [by apply IH in H|].
    apply bind_Ok in H as (e & w2 & [= <- <-] & H).
    apply bind_Ok in H as (w2 & w3 & [= <- <-] & H).
    assert (Hcur : bool_decide (current_pipeline w1 ≠ "recovery") = false).
    { apply bool_decide_eq_false. intros Hne. by apply Hne. }
    rewrite Hcur, andb_false_r in H.
    apply (bind_Ok_with (in_pipeline "recovery")) in H as ([] & w2 & _ & Hw2 & H);
      [|maintain|done].
    by apply IH in H.
Qed.

Lemma run_until_switch_body_in_recovery perception planning other w flow w' :
  in_pipeline "recovery" w →
  run_until_switch_body oracle G require_engaged perception planning other w
  = Ok flow w' →
  flow ≠ Return (Some "recovery") ∧ in_pipeline "recovery" w'.
Proof.
  pose proof (in_pipeline_stable "recovery") as Hst.
  pose proof (update_components_in_pipeline "recovery") as Hupd.
  intros Hw H. unfold run_until_switch_body in H.
  apply (bind_Ok_with (in_pipeline "recovery")) in H as ([] & w1 & _ & Hw1 & H);
    [|maintain|done].
  apply (bind_Ok_with (in_pipeline "recovery")) in H as ([] & w2 & _ & Hw2 & H);
    [|maintain|done].
  apply (bind_Ok_with (in_pipeline "recovery")) in H as ([] & w3 & _ & Hw3 & H);
    [|apply Hupd|done].
  apply bind_Ok in H as (bad & w4 & Hbad & H).
  apply check_faults_in_recovery in Hbad as [-> Hw4]; [|done].
  apply (bind_Ok_with (in_pipeline "recovery")) in H as (next & w5 & _ & Hw5 & H);
    [|maintain|done].
  apply bind_Ok in H as (w5' & w6 & [= <- <-] & H).
  apply bind_Ok in H as (switch & w6 & Hswitch & H).
  assert (Hsw : switch ≠ Some "recovery" ∧ in_pipeline "recovery" w6).
  { destruct next as [n|]; [|by injection Hswitch as <- <-].
    destruct (bool_decide (n ≠ current_pipeline w5)) eqn:Hn;
      [|by injection Hswitch as <- <-].
    apply bool_decide_eq_true in Hn.
    apply (bind_Ok_with (in_pipeline "recovery")) in Hswitch
      as ([] & w7 & _ & Hw7 & [= <- <-]); [|maintain|done].
    split; [|done]. intros [= ->]. by apply Hn. }
  destruct Hsw as [Hsw Hw6].
  destruct switch as [n|].
  { injection H as <- <-. split; [|done]. by intros [= ->]. }
  apply (bind_Ok_with (in_pipeline "recovery")) in H as ([] & w7 & _ & Hw7 & H);
    [|apply Hupd|done].
  apply bind_Ok in H as (bad & w8 & Hbad & H).
  apply check_faults_in_recovery in Hbad as [-> Hw8]; [|done].
  apply (bind_Ok_with (in_pipeline "recovery")) in H as ([] & w9 & _ & Hw9 & H);
    [|apply Hupd|done].
  apply bind_Ok in H as (bad & w10 & Hbad & H).
  apply check_faults_in_recovery in Hbad as [-> Hw10]; [|done].
  apply bind_Ok in H as (w10' & w11 & [= <- <-] & H).
  apply (bind_Ok_with (in_pipeline "recovery")) in H as ([] & w11 & _ & Hw11 & H);
    [|apply Hupd|done].
  apply bind_Ok in H as (w11' & w12 & [= <- <-] & H).
  apply bind_Ok in H as (bad & w12 & Hbad & H).
  apply check_faults_in_recovery in Hbad as [-> Hw12]; [|done].
  by injection H as <- <-.
Qed.

Lemma run_until_switch_loop_in_recovery fuel perception planning other w r w' :
  in_pipeline "recovery" w →
  run_until_switch_loop oracle G require_engaged fuel perception planning other w
  = Ok r w' →
  r ≠ Some "recovery".
Proof.
  pose proof (in_pipeline_stable "recovery") as Hst.
  revert w. induction fuel as [|fuel IH]; intros w Hw; [done|]. simpl. intros H.
  apply (bind_Ok_with (in_pipeline "recovery")) in H as (go & w1 & _ & Hw1 & H);
    [|maintain|done].
  destruct go; simpl in H; [|by injection H as <- _].
  apply (bind_Ok_with (in_pipeline "recovery")) in H as (finished & w2 & _ & Hw2 & H);
    [|maintain|done].
  destruct finished; [by injection H as <- _|].
  apply bind_Ok in H as (flow & w3 & Hbody & H).
  apply run_until_switch_body_in_recovery in Hbody as [Hflow Hw3]; [|done].
  destruct flow as [|r'].
  - by apply IH in H.
  - injection H as <- _. intros ->. by apply Hflow.
Qed.

Lemma run_until_switch_in_pipeline p fuel :
  maintains (in_pipeline p) (run_until_switch oracle G require_engaged fuel).
Proof.
  pose proof (in_pipeline_stable p). pose proof (in_pipeline_call_stable p).
  apply maintains_run_until_switch; [done|by apply call_update_now|done].
Qed.

(** X9: while the recovery pipeline runs, [run_until_switch] never returns
    ['recovery']: the faults of components are only warned about there,
    and the answer of the hook [update] counts only when it names another
    pipeline.  So in recovery the mission loop ends on a requested
    pipeline only when that pipeline does not exist. *)
Theorem recovery_never_requests_recovery (fuel : nat) (w : World)
    (r : option string) (w' : World) :
  current_pipeline w = "recovery" →
  run_until_switch oracle G require_engaged fuel w = Ok r w' →
  r ≠ Some "recovery" ∧
  ∀ n b w'', r = Some n →
    after_switch oracle G require_engaged fuel (Some n) w' = Ok b w'' →
    b = negb (dict_mem (pipelines w') n).
Proof.
  intros Hw Hrun. assert (Hr : r ≠ Some "recovery").
  { unfold run_until_switch in Hrun.
    rewrite (bind_ok_eq get _ w w w eq_refl) in Hrun.
    apply (bind_Ok_with (in_pipeline "recovery")) in Hrun as ([] & w1 & _ & Hw1 & H);
      [| |done].
    2: { destruct (decide _); [|apply maintains_ret].
         pose proof (in_pipeline_stable "recovery").
         by apply maintains_set_mission_type. }
    destruct (dict_get (pipelines w) (current_pipeline w)) as [[[perception planning] other]|];
      [|done].
    apply bind_Ok in H as (d & w2 & Hd & H). apply dt_min_of_Ok in Hd as ->.
    by apply run_until_switch_loop_in_recovery in H. }
  split; [done|]. intros n b w'' -> Hafter.
  assert (Hw' : current_pipeline w' = "recovery").
  { by apply (maintains_Ok _ _ _ _ _ (run_until_switch_in_pipeline "recovery" fuel) Hrun). }
  unfold after_switch in Hafter.
  rewrite (bind_ok_eq get _ w' w' w' eq_refl) in Hafter.
  destruct (dict_mem (pipelines w') n) eqn:Hmem.
  - rewrite (bind_ok_eq (ret n) _ w' n w' eq_refl) in Hafter.
    assert (Hn : bool_decide (n = "recovery") = false).
    { apply bool_decide_eq_false. by intros ->. }
    rewrite Hn, andb_false_r in Hafter.
    apply bind_Ok in Hafter as ([] & w1 & _ & H). unfold revalidate in H.
    apply bind_Ok in H as (sensors & w2 & _ & H).
    destruct sensors; [by injection H as <- _|].
    by bind_inv H; injection H as <- _.
  - apply bind_Ok in Hafter as (next & w1 & Hnext & H).
    apply bind_Ok in Hnext as ([] & w2 & Hprint & [= <- <-]).
    assert (Hw2 : current_pipeline w2 = current_pipeline w').
    { by apply executor_debug_print_Ok in Hprint as [->| ->]. }
    rewrite Hw' in H. simpl in H.
    by bind_inv H; injection H as <- _.
Qed.
End Recovery.

Definition park_asked : World :=
  res_world (run_until_switch park_oracle one_planner_graph false 3 recovery_world).

Lemma recovery_never_requests_recovery_witness :
  run_until_switch park_oracle one_planner_graph false 3 recovery_world
  = Ok (Some "park") park_asked ∧
  Some "park" ≠ Some "recovery" ∧
  ∀ n b w'', Some "park" = Some n →
    after_switch park_oracle one_planner_graph false 3 (Some n) park_asked = Ok b w'' →
    b = negb (dict_mem (pipelines park_asked) n).
Proof.
  assert (H : run_until_switch park_oracle one_planner_graph false 3 recovery_world
              = Ok (Some "park") park_asked) by (vm_compute; reflexivity).
  split; [exact H|].
  exact (recovery_never_requests_recovery park_oracle one_planner_graph false 3
           recovery_world (Some "park") park_asked eq_refl H).
Defined.

(** ** Faults of essential components *)

(** Outside recovery, the executor at [a] is essential and has caught an
    exception. *)
Definition essential_fault (p : string) (a : nat) (w : World) : Prop :=
  current_pipeline w = p ∧ ex_essential (w_heap w a) = true ∧ latched a w.

Lemma essential_fault_stable p a : Stable (essential_fault p a).
Proof.
  split; try done.
  intros w b f Hf (Hp & Hess & Hlatch). unfold essential_fault, latched, heap_set.
  simpl. split; [done|].
  destruct (decide (a = b)) as [->|]; [|done].
  destruct (Hf (w_heap w b)) as (_ & -> & _ & _ & _ & Hl). auto.
Qed.

Lemma essential_fault_call_stable p a : CallStable (essential_fault p a).
Proof.
  split; try done.
  intros w b (Hp & Hess & Hlatch). unfold essential_fault, latched, heap_set.
  simpl. split; [done|]. by destruct (decide (a = b)) as [->|].
Qed.

Section EssentialFault.
Context (oracle : Oracle) (G : Graph) (require_engaged : bool).

Lemma check_faults_essential p a name components fatal warning w b w' :
  p ≠ "recovery" → essential_fault p a w → (name, a) ∈ components →
  check_faults oracle components fatal warning w = Ok b w' → b = true.
Proof.
  intros Hp. pose proof (essential_fault_stable p a) as Hst.
  revert w. induction components as [|[n0 a0] components IH]; intros w Hw Hin.
  { by apply elem_of_nil in Hin. }
  simpl. intros H.
  apply bind_Ok in H as (h & w1 & Hh & H).
  assert (Hw1 : essential_fault p a w1).
  { apply (maintains_Ok _ (healthy oracle a0) w h w1); [maintain|done|done]. }
  assert (Hh' : a0 = a → h = false).
  { intros ->. unfold healthy in Hh.
    apply bind_Ok in Hh as (h0 & w2 & [= <- <-] & Hh).
    apply bind_Ok in Hh as (e & w3 & [= <- <-] & [= <- _]).
    destruct Hw as (_ & _ & Hl). unfold latched in Hl. simpl. rewrite Hl.
    apply andb_false_r. }
  destruct h.
  - apply (IH w1); [done| |done].
    apply elem_of_cons in Hin as [[= -> ->]|Hin]; [|done]. by discriminate Hh'.
  - apply bind_Ok in H as (e & w2 & [= <- <-] & H).
    apply bind_Ok in H as (w2 & w3 & [= <- <-] & H).
    destruct (ex_essential (w_heap w1 a0) && bool_decide (current_pipeline w1 ≠ "recovery"))
      eqn:Hcond.
    + by bind_inv H; injection H as <- _.
    + apply bind_Ok in H as ([] & w2 & Hprint & H).
      assert (Hw2 : essential_fault p a w2).
      { apply (maintains_Ok _ _ _ _ _ (maintains_executor_debug_print _ _ _ _) Hprint Hw1). }
      apply (IH w2); [done| |done].
      apply elem_of_cons in Hin as [[= -> ->]|Hin]; [|done].
      destruct Hw1 as (Hcur & Hess & _). rewrite Hess, Hcur in Hcond.
      apply andb_false_iff in Hcond as [?|Hcond]; [done|].
      by apply bool_decide_eq_false in Hcond.
Qed.

(** X10: outside recovery, an essential perception component that has
    caught an exception sends the pipeline to recovery on the next pass of
    [run_until_switch]: when the looper is live and the mission is not
    done, the function returns ['recovery']. *)
Theorem essential_sensor_fault_enters_recovery (fuel : nat) (w : World)
    (perception planning other : Phase) (name : string) (a : nat)
    (r : option string) (w' : World) :
  current_pipeline w ≠ "recovery" →
  dict_get (pipelines w) (current_pipeline w) = Some (perception, planning, other) →
  (name, a) ∈ perception →
  ex_essential (w_heap w a) = true → ex_had_exception (w_heap w a) = true →
  o_looper oracle (w_calls w) = Some true → o_done oracle (S (w_calls w)) = false →
  run_until_switch oracle G require_engaged fuel w = Ok r w' →
  r = Some "recovery".
Proof.
  intros Hp Hget Hin Hess Hlatch Hlive Hdone. unfold run_until_switch.
  rewrite (bind_ok_eq get _ w w w eq_refl).
  destruct (decide (current_pipeline w = "recovery")); [done|].
  rewrite (bind_ok_eq (ret ()) _ w () w eq_refl), Hget.
  intros H. apply bind_Ok in H as (d & w1 & Hd & H). apply dt_min_of_Ok in Hd as ->.
  destruct fuel as [|fuel]; [done|]. simpl in H.
  unfold looper, ask at 1 in H. unfold bind at 1 2 in H. rewrite Hlive in H.
  simpl in H. unfold ask at 1, bind at 1 in H. simpl in H. rewrite Hdone in H.
  apply bind_Ok in H as (flow & w3 & Hbody & H).
  assert (flow = Return (Some "recovery")) as ->; [|by injection H as <- _].
  set (J := essential_fault (current_pipeline w) a).
  pose proof (essential_fault_stable (current_pipeline w) a) as Hst.
  pose proof (essential_fault_call_stable (current_pipeline w) a) as Hcall.
  assert (Hupd : ∀ components now force,
            maintains J (update_components oracle G components now force)).
  { intros. apply maintains_update_components; [done|]. by apply call_update_now. }
  unfold run_until_switch_body in Hbody.
  apply (bind_Ok_with J) in Hbody as ([] & w4 & _ & Hw4 & Hbody); [|maintain|done].
  apply (bind_Ok_with J) in Hbody as ([] & w5 & _ & Hw5 & Hbody); [|maintain|done].
  apply (bind_Ok_with J) in Hbody as ([] & w6 & _ & Hw6 & Hbody); [|apply Hupd|done].
  apply bind_Ok in Hbody as (bad & w7 & Hbad & Hbody).
  apply (check_faults_essential (current_pipeline w) a name) in Hbad as ->; try done.
  by injection Hbody as <- _.
Qed.
End EssentialFault.

(** The sensor of the pipeline [drive] has failed before. *)
Definition faulty_sensor_world : World :=
  with_heap (λ _, with_had_exception true (fresh_executor slow_component 0.5)) 1
    sensor_world.

Definition entered_recovery : World :=
  res_world (run_until_switch healthy_sensor_oracle one_planner_graph false 3
               faulty_sensor_world).

Lemma essential_sensor_fault_enters_recovery_witness :
  run_until_switch healthy_sensor_oracle one_planner_graph false 3 faulty_sensor_world
  = Ok (Some "recovery") entered_recovery ∧
  Some "recovery" = Some "recovery".
Proof.
  assert (H : run_until_switch healthy_sensor_oracle one_planner_graph false 3
                faulty_sensor_world = Ok (Some "recovery") entered_recovery)
    by (vm_compute; reflexivity).
  assert (Hin : ("planner", 0) ∈ ([("planner", 0)] : Phase)) by left.
  assert (Hp : current_pipeline faulty_sensor_world ≠ "recovery") by done.
  split; [exact H|].
  exact (essential_sensor_fault_enters_recovery healthy_sensor_oracle
           one_planner_graph false 3 faulty_sensor_world [("planner", 0)] [] []
           "planner" 0 (Some "recovery") entered_recovery
           Hp eq_refl Hin eq_refl eq_refl eq_refl eq_refl H).
Defined.

(** ** Hardware faults *)

(** The descriptions the logging manager received through [event], latest
    first. *)
Definition events_of (tr : list Event) : list string :=
  omap (λ ev, match ev with EvEvent d => Some d | _ => None end) tr.

(** The fault [f] is new and is not a disengagement that the settings tell
    to ignore. *)
Definition announced (require_engaged : bool) (last : list string) (f : string) : bool :=
  negb (bool_decide (f ∈ last))
  && (negb (bool_decide (f = "disengaged")) || require_engaged).

Definition fault_description (f : string) : string :=
  if decide (f = "disengaged") then "Vehicle disengaged" else "Hardware fault " +:+ f.

Lemma event_Ok_trace desc ps w w' :
  event desc ps w = Ok tt w' →
  events_of (w_trace w') = desc :: events_of (w_trace w) ∧
  w_calls w' = w_calls w ∧ last_hardware_faults w' = last_hardware_faults w.
Proof.
  unfold event. intros H. apply bind_Ok in H as ([] & w1 & [= <-] & H).
  change (Nat.leb 1 EXECUTION_VERBOSITY) with true in H. cbv iota in H.
  by apply executor_debug_print_Ok in H as [->| ->].
Qed.

Lemma fault_loop_Ok require_engaged last faults printed w printed' w' :
  fault_loop require_engaged last faults printed w = Ok printed' w' →
  events_of (w_trace w')
  = reverse (fault_description <$> List.filter (announced require_engaged last) faults)
    ++ events_of (w_trace w) ∧
  w_calls w' = w_calls w ∧ last_hardware_faults w' = last_hardware_faults w.
Proof.
  revert printed w. induction faults as [|f faults IH]; intros printed w; simpl.
  { by intros [= _ <-]. }
  assert (Hstep : ∀ printed1,
    ((if bool_decide (f ∈ last) then ret tt else event (fault_description f) None) ;;;
     fault_loop require_engaged last faults printed1) w = Ok printed' w' →
    events_of (w_trace w')
    = reverse (fault_description
                 <$> (if negb (bool_decide (f ∈ last))
                      then f :: List.filter (announced require_engaged last) faults
                      else List.filter (announced require_engaged last) faults))
      ++ events_of (w_trace w) ∧
    w_calls w' = w_calls w ∧ last_hardware_faults w' = last_hardware_faults w).
  { intros printed1 H. apply bind_Ok in H as ([] & w1 & Hev & H).
    apply IH in H as (Htr & Hcalls & Hlast).
    destruct (bool_decide (f ∈ last)); cbn [negb].
    - by injection Hev as <-.
    - apply event_Ok_trace in Hev as (Hev & Hc & Hl).
      rewrite Htr, Hev, Hcalls, Hlast, Hc, Hl. split; [|done].
      by rewrite fmap_cons, reverse_cons, <- app_assoc. }
  unfold announced at 1. unfold fault_description in Hstep at 1.
  destruct (decide (f = "disengaged")) as [->|Hf].
  - rewrite (bool_decide_eq_true_2 ("disengaged" = "disengaged")) by done.
    destruct require_engaged; simpl.
    + rewrite andb_true_r. apply Hstep.
    + rewrite andb_false_r. apply IH.
  - rewrite (bool_decide_eq_false_2 (f = "disengaged")) by done. simpl.
    rewrite andb_true_r. apply Hstep.
Qed.

Section HardwareFaults.
Context (oracle : Oracle) (require_engaged : bool).

(** X11: a call of [check_for_hardware_faults] that returns has recorded
    one event for each fault of the vehicle that was not among the faults
    of the previous call, in the order of the list, and none for a fault
    that persists; a disengagement counts only when the setting
    [run.require_engaged] is on.  The faults read become the faults of the
    previous call. *)
Theorem check_for_hardware_faults_announces (w w' : World) :
  check_for_hardware_faults oracle require_engaged w = Ok tt w' →
  let faults := o_hardware_faults oracle (w_calls w) in
  last_hardware_faults w' = faults ∧
  events_of (w_trace w')
  = reverse (fault_description
               <$> List.filter (announced require_engaged (last_hardware_faults w)) faults)
    ++ events_of (w_trace w).
Proof.
  unfold check_for_hardware_faults. intros H.
  apply bind_Ok in H as (faults & w1 & [= <- <-] & H).
  apply bind_Ok in H as (w1 & w2 & [= <- <-] & H).
  apply bind_Ok in H as (printed & w3 & Hloop & H).
  apply fault_loop_Ok in Hloop as (Htr & _ & _).
  apply bind_Ok in H as ([] & w4 & Hprint & [= <-]).
  simpl. split; [done|]. simpl in Htr. rewrite <- Htr.
  destruct printed; [by injection Hprint as <-|].
  by apply executor_debug_print_Ok in Hprint as [->| ->].
Qed.
End HardwareFaults.

(** The vehicle reports a stop button that is still pressed, a
    disengagement and a new brake fault. *)
Definition faults_oracle : Oracle :=
  {| o_make_class := λ _, MadeOther;
     o_component_replayer := λ _, None;
     o_initialize := λ _, None;
     o_cleanup := λ _, None;
     o_update := λ _, Returns VNone "" "";
     o_healthy := λ _, true;
     o_vehicle_time := λ _, 0%float;
     o_wall_time := λ _, 0%float;
     o_hardware_faults := λ _, ["estop"; "disengaged"; "brake"];
     o_looper := λ _, Some true;
     o_done := λ _, false;
     o_update_hook := λ _, None |}.

Definition estop_world : World := with_last_hardware_faults ["estop"] sensor_world.

Definition faults_checked : World :=
  res_world (check_for_hardware_faults faults_oracle false estop_world).

Lemma check_for_hardware_faults_announces_witness :
  check_for_hardware_faults faults_oracle false estop_world = Ok tt faults_checked ∧
  last_hardware_faults faults_checked = ["estop"; "disengaged"; "brake"] ∧
  events_of (w_trace faults_checked) = ["Hardware fault brake"].
Proof.
  assert (H : check_for_hardware_faults faults_oracle false estop_world
              = Ok tt faults_checked) by (vm_compute; reflexivity).
  split; [exact H|].
  exact (check_for_hardware_faults_announces faults_oracle false estop_world
           faults_checked H).
Defined.

(** ** The registry of executors, continued *)

Lemma dict_get_NoDup_inj {V} (d : list (string * V)) k1 k2 v :
  NoDup (dict_values d) → dict_get d k1 = Some v → dict_get d k2 = Some v → k1 = k2.
Proof.
  unfold dict_values. induction d as [|[k0 v0] d IH]; simpl; [done|].
  intros Hnd H1 H2. apply NoDup_cons in Hnd as [Hnotin Hnd].
  destruct (decide (k0 = k1)) as [<-|], (decide (k0 = k2)) as [<-|]; simplify_eq; auto.
  - exfalso. apply Hnotin. apply dict_get_Some_elem in H2.
    apply (list_elem_of_fmap_2 snd) in H2. done.
  - exfalso. apply Hnotin. apply dict_get_Some_elem in H1.
    apply (list_elem_of_fmap_2 snd) in H1. done.
Qed.

Lemma make_component_registers oracle config_info component_name w a w1 :
  make_component oracle config_info component_name w = Ok a w1 →
  all_components w1 = all_components w ∨
  all_components w1
  = dict_set (all_components w) (identifier_of component_name config_info) a.
Proof.
  unfold make_component. rewrite (bind_ok_eq get _ w w w eq_refl).
  destruct (dict_get (all_components w) (identifier_of component_name config_info))
    as [a0|] eqn:Hget.
  { intros [= <- <-]. by left. }
  intros H. right.
  apply bind_Ok in H as ([] & wa & [= <-] & H).
  apply bind_Ok in H as (r & wb & [= <- <-] & H).
  destruct (o_make_class oracle _) as [component| |e traceback].
  - apply bind_Ok in H as (replacement & wc & [= <- <-] & H).
    apply bind_Ok in H as (component' & wd & Hrep & H).
    assert (Hwd : all_components wd = all_components w).
    { destruct (o_component_replayer oracle _); [|by injection Hrep as _ <-].
      apply bind_Ok in Hrep as ([] & we & Hprint & [= _ <-]).
      by apply executor_debug_print_Ok in Hprint as [->| ->]. }
    destruct (new_executor component' _) as [executor|]; [|done].
    destruct (match config_info with CfgStr _ => _ | CfgDict _ => _ end)
      as [configured|]; [|done].
    apply bind_Ok in H as (a' & we & [= <- <-] & H).
    apply bind_Ok in H as ([] & wf & [= <-] & H).
    apply bind_Ok in H as ([] & wg & [= <-] & [= <- <-]).
    simpl. by rewrite Hwd.
  - done.
  - by apply raise_not_Ok in H.
Qed.

(** X12: two component descriptions with different identifiers never share
    an executor: after a call of [make_component] for one, a call for the
    other returns another object, whether it finds it in the registry or
    builds it. *)
Theorem make_component_distinct_instances (oracle : Oracle)
    (config1 config2 : ConfigInfo) (name1 name2 : string)
    (w w1 w2 : World) (a1 a2 : nat) :
  registry_ok w →
  identifier_of name1 config1 ≠ identifier_of name2 config2 →
  make_component oracle config1 name1 w = Ok a1 w1 →
  make_component oracle config2 name2 w1 = Ok a2 w2 →
  a1 ≠ a2 ∧ registry_ok w2 ∧
  dict_get (all_components w2) (identifier_of name1 config1) = Some a1 ∧
  dict_get (all_components w2) (identifier_of name2 config2) = Some a2.
Proof.
  intros Hw Hid H1 H2.
  pose proof (make_component_registry_ok oracle config1 name1 w Hw) as Hw1.
  rewrite H1 in Hw1. simpl in Hw1.
  pose proof (make_component_registry_ok oracle config2 name2 w1 Hw1) as Hw2.
  rewrite H2 in Hw2. simpl in Hw2.
  pose proof (make_component_caches _ _ _ _ _ _ H1) as Hc1.
  pose proof (make_component_caches _ _ _ _ _ _ H2) as Hc2.
  assert (Hkeep : dict_get (all_components w2) (identifier_of name1 config1) = Some a1).
  { destruct (dict_get (all_components w1) (identifier_of name2 config2)) as [a|] eqn:Hget.
    - rewrite (make_component_cached _ _ _ _ _ Hget) in H2. by injection H2 as <- <-.
    - apply make_component_registers in H2 as [->| ->]; [done|].
      by rewrite dict_get_set_ne. }
  split_and!; [|done|done|done].
  intros <-. apply Hid. destruct Hw2 as [Hnd _].
  by apply (dict_get_NoDup_inj _ _ _ _ Hnd Hkeep Hc2).
Qed.

Definition two_made_world : World :=
  res_world (make_component factory_oracle (CfgStr "control.Controller") "controller"
               made_world).

Lemma make_component_distinct_instances_witness :
  make_component factory_oracle planner_config "planner"
    (initial_world (fresh_executor slow_component 0)) = Ok 0 made_world ∧
  make_component factory_oracle (CfgStr "control.Controller") "controller" made_world
  = Ok 1 two_made_world ∧
  0 ≠ 1 ∧ registry_ok two_made_world ∧
  dict_get (all_components two_made_world) (identifier_of "planner" planner_config)
  = Some 0 ∧
  dict_get (all_components two_made_world)
    (identifier_of "controller" (CfgStr "control.Controller")) = Some 1.
Proof.
  assert (H1 : make_component factory_oracle planner_config "planner"
                 (initial_world (fresh_executor slow_component 0)) = Ok 0 made_world)
    by (vm_compute; reflexivity).
  assert (H2 : make_component factory_oracle (CfgStr "control.Controller") "controller"
                 made_world = Ok 1 two_made_world) by (vm_compute; reflexivity).
  assert (Hid : identifier_of "planner" planner_config
                ≠ identifier_of "controller" (CfgStr "control.Controller")).
  { vm_compute. discriminate. }
  split; [exact H1|]. split; [exact H2|].
  exact (make_component_distinct_instances factory_oracle planner_config
           (CfgStr "control.Controller") "planner" "controller" _ _ _ 0 1
           (initial_world_registry_ok _) Hid H1 H2).
Defined.

(** ** One component call, continued *)

Lemma log_output_frame a stdout stderr w :
  ∃ w', log_output a stdout stderr w = Ok tt w' ∧
        w_heap w' = w_heap w ∧ state w' = state w.
Proof.
  unfold log_output, bind, emit, modify, ret.
  repeat case_decide; by eexists.
Qed.

Lemma update_now_args oracle a t w :
  inputs_readable (w_heap w a) w →
  update_now oracle a t w
  = (res <~ _do_update oracle a t ;;
     e <~ get_ex a ;;
     match res with
     | VNone => ret tt
     | _ =>
         if Nat.ltb 1 (length (ex_output e)) then
           match py_len res with
           | None => raise (TypeError "object has no len()")
           | Some n =>
               assert (Nat.eqb n (length (ex_output e)))
                 "Component output does not match expected length" ;;;
               for_each (zip (ex_output e) (py_iter res)) (write_output t)
           end
         else
           match ex_output e with
           | [] => raise (IndexError "list index out of range")
           | k :: _ => write_output t (k, res)
           end
     end) w.
Proof.
  intros Hread. unfold update_now.
  rewrite (bind_ok_eq (get_ex a) _ w (w_heap w a) w eq_refl).
  assert (Hargs :
    (if bool_decide (ex_inputs (w_heap w a) = ["all"]) then ret tt
     else _ <~ map_m getattr (ex_inputs (w_heap w a)) ;; ret tt) w = Ok tt w).
  { case_bool_decide as Hall; [done|].
    destruct Hread as [?|Hread]; [done|].
    destruct (map_m_getattr_Ok _ w Hread) as [vs Hvs].
    by rewrite (bind_ok_eq _ _ _ _ _ Hvs). }
  rewrite (bind_ok_eq _ _ _ _ _ Hargs).
  by rewrite (bind_ok_eq (executor_debug_print 2 "Updating {}" 1) _ w tt w eq_refl).
Qed.

Lemma do_update_Raises oracle a t w e traceback stdout stderr :
  o_update oracle (w_calls w) = Raises e traceback stdout stderr →
  if is_Exception e then
    py_format traceback 0 = true →
    ∃ w', _do_update oracle a t w = Ok VNone w' ∧ state w' = state w ∧
          ex_had_exception (w_heap w' a) = true ∧
          ∀ b, b ≠ a → w_heap w' b = w_heap w b
  else
    ∃ w', _do_update oracle a t w = Raise e w' ∧ state w' = state w ∧
          w_heap w' = w_heap w.
Proof.
  intros Hres.
  unfold _do_update. rewrite (bind_ok_eq get _ w w w eq_refl).
  rewrite (bind_ok_eq (emit _) _ w tt _ eq_refl).
  rewrite (bind_ok_eq (ask oracle o_update) _ _ _ _ eq_refl).
  cbn [w_calls with_trace]. rewrite Hres.
  destruct (is_Exception e).
  - intros Hfmt.
    rewrite (bind_ok_eq _ _ _ _ _
               (executor_debug_exception_ok traceback
                  "Exception in component {}: {}" 2 _ eq_refl Hfmt)).
    rewrite (bind_ok_eq (set_ex a _) _ _ tt _ eq_refl).
    match goal with
    | |- ∃ _, (log_output _ _ _ ;;; _) ?w1 = _ ∧ _ =>
        destruct (log_output_frame a stdout stderr w1) as (w2 & Hlog & Hheap & Hstate);
        rewrite (bind_ok_eq _ _ _ _ _ Hlog)
    end.
    exists w2. split; [done|]. rewrite Hstate, Hheap. simpl. split; [done|].
    split; [by rewrite decide_True|]. intros b Hb. by rewrite decide_False.
  - eexists. split; [reflexivity|]. done.
Qed.

(** X13: [update_now] contains the exceptions of a component that derive
    from [Exception], when the text of the traceback holds no brace:
    the call returns, nothing is written to the state, and the executor's
    flag [had_exception] is set.  An exception outside [Exception], such as
    [KeyboardInterrupt], leaves [update_now] with the flags and the state
    as they were. *)
Theorem update_now_contains_exception (oracle : Oracle) (a : nat) (t : float)
    (w : World) (e : PyExn) (traceback stdout stderr : string) :
  inputs_readable (w_heap w a) w →
  o_update oracle (w_calls w) = Raises e traceback stdout stderr →
  if is_Exception e then
    py_format traceback 0 = true →
    ∃ w', update_now oracle a t w = Ok tt w' ∧ state w' = state w ∧
          ex_had_exception (w_heap w' a) = true ∧
          ∀ b, b ≠ a → w_heap w' b = w_heap w b
  else
    ∃ w', update_now oracle a t w = Raise e w' ∧ state w' = state w ∧
          w_heap w' = w_heap w.
Proof.
  intros Hread Hres. rewrite (update_now_args oracle a t w Hread).
  pose proof (do_update_Raises oracle a t w e traceback stdout stderr Hres) as Hdo.
  destruct (is_Exception e).
  - intros Hfmt. destruct (Hdo Hfmt) as (w' & Hrun & Hrest).
    exists w'. split; [|done].
    rewrite (bind_ok_eq _ _ _ _ _ Hrun).
    by rewrite (bind_ok_eq (get_ex a) _ w' _ w' eq_refl).
  - destruct Hdo as (w' & Hrun & Hrest). exists w'. split; [|done].
    by rewrite (bind_raise_eq _ _ _ _ _ Hrun).
Qed.

Definition boom_oracle : Oracle :=
  steady_oracle (Raises (RuntimeError "boom")
                   "Traceback (most recent call last): RuntimeError: boom" "" "") 20.

Lemma update_now_contains_exception_witness :
  ∃ w', update_now boom_oracle 0 1 sensor_world = Ok tt w' ∧
        state w' = state sensor_world ∧
        ex_had_exception (w_heap w' 0) = true ∧
        ∀ b, b ≠ 0 → w_heap w' b = w_heap sensor_world b.
Proof.
  assert (Hread : inputs_readable (w_heap sensor_world 0) sensor_world).
  { right. intros i Hi. by apply elem_of_nil in Hi. }
  exact (update_now_contains_exception boom_oracle 0 1 sensor_world
           (RuntimeError "boom") _ "" "" Hread eq_refl eq_refl).
Defined.

(** ** What a component call writes *)

Lemma string_length_append (s1 s2 : string) :
  String.length (s1 +:+ s2) = String.length s1 + String.length s2.
Proof. induction s1 as [|c s1 IH]; simpl; [done|]. by rewrite IH. Qed.

Lemma string_cons_append_ne (c : ascii) (s u : string) : String c s +:+ u ≠ u.
Proof.
  intros H. apply (f_equal String.length) in H.
  rewrite string_length_append in H. simpl in H. lia.
Qed.

Lemma string_append_inj_tail (u s1 s2 : string) : s1 +:+ u = s2 +:+ u → s1 = s2.
Proof.
  revert s2. induction s1 as [|c s1 IH]; intros [|c' s2] H.
  - done.
  - symmetry in H. by apply string_cons_append_ne in H.
  - by apply string_cons_append_ne in H.
  - simpl in H. injection H as -> H. f_equal. by apply IH.
Qed.

(** The blackboard after the writes of [update_now] for the pairs [kvs]. *)
Definition written (t : float) (kvs : list (string * Value)) (s : AllState) : AllState :=
  foldl (λ s kv, <[kv.1 +:+ "_update_time" := VFloat t]> (<[kv.1 := kv.2]> s)) s kvs.

Lemma for_each_write_output t kvs w :
  for_each kvs (write_output t) w = Ok tt (with_state (written t kvs (state w)) w).
Proof.
  revert w. induction kvs as [|[k v] kvs IH]; intros w; simpl.
  - by destruct w.
  - unfold write_output at 1, bind at 1 2, setattr, modify. rewrite IH. done.
Qed.

Lemma written_frame t kvs s k' :
  k' ∉ kvs.*1 → (∀ k, k ∈ kvs.*1 → k' ≠ k +:+ "_update_time") →
  written t kvs s !! k' = s !! k'.
Proof.
  revert s. induction kvs as [|[k v] kvs IH]; intros s Hk Hts; [done|].
  simpl in *. rewrite IH.
  - rewrite lookup_insert_ne, lookup_insert_ne; [done| |].
    + intros ->. apply Hk. left.
    + intros <-. by apply (Hts k); [left|].
  - intros Hin. apply Hk. by right.
  - intros k0 Hin. apply Hts. by right.
Qed.

Lemma written_lookup t kvs s j k v :
  NoDup kvs.*1 →
  (∀ k k', k ∈ kvs.*1 → k' ∈ kvs.*1 → k ≠ k' +:+ "_update_time") →
  kvs !! j = Some (k, v) →
  written t kvs s !! k = Some v ∧
  written t kvs s !! (k +:+ "_update_time") = Some (VFloat t).
Proof.
  revert s j. induction kvs as [|[k0 v0] kvs IH]; intros s j Hnd Hts Hj; [done|].
  simpl in Hnd. apply NoDup_cons in Hnd as [Hnotin Hnd].
  destruct j as [|j]; simpl in Hj.
  - injection Hj as -> ->. simpl. split.
    + rewrite written_frame; [| done |].
      * rewrite lookup_insert_ne, lookup_insert_eq; [done|].
        intros Heq. by apply (Hts k k); [left|left|].
      * intros k' Hin. apply Hts; [left|by right].
    + rewrite written_frame.
      * by rewrite lookup_insert_eq.
      * intros Hin. by apply (Hts (k +:+ "_update_time") k); [right|left|].
      * intros k' Hin Heq. apply string_append_inj_tail in Heq as ->. done.
  - simpl. apply (IH _ j); [done| |done].
    intros k1 k2 H1 H2. apply Hts; by right.
Qed.

Lemma py_len_iter (v : Value) (n : nat) : py_len v = Some n → length (py_iter v) = n.
Proof.
  destruct v as [| | |s|items|]; simpl; try done; intros [= <-]; [|done].
  induction s as [|c s IH]; simpl; [done|]. by rewrite IH.
Qed.

(** The values [update_now] writes for the result [res]: its elements when
    the component declares several outputs, the result itself otherwise. *)
Definition component_values (outputs : list string) (res : Value) : list Value :=
  if Nat.ltb 1 (length outputs) then py_iter res else [res].

(** X14: after a component call that returns a result other than [None],
    every declared output holds its value and its timestamp field holds
    the time of the call, and the other fields of the state are as before;
    this for outputs that are distinct and of which none is the timestamp
    field of another. *)
Theorem update_now_writes_outputs (oracle : Oracle) (a : nat) (t : float)
    (w : World) (res : Value) (out err : string) (w' : World) :
  inputs_readable (w_heap w a) w →
  o_update oracle (w_calls w) = Returns res out err →
  res ≠ VNone →
  let outputs := ex_output (w_heap w a) in
  NoDup outputs →
  (∀ k k', k ∈ outputs → k' ∈ outputs → k ≠ k' +:+ "_update_time") →
  update_now oracle a t w = Ok tt w' →
  (∀ j k, outputs !! j = Some k →
     ∃ v, component_values outputs res !! j = Some v ∧
          state w' !! k = Some v ∧
          state w' !! (k +:+ "_update_time") = Some (VFloat t)) ∧
  (∀ k', k' ∉ outputs → (∀ k, k ∈ outputs → k' ≠ k +:+ "_update_time") →
     state w' !! k' = state w !! k').
Proof.
  intros Hread Hres Hnone outputs Hnd Hts Hrun.
  rewrite (update_now_reaches_component oracle a t w res out err Hread Hres) in Hrun.
  cbv zeta in Hrun. fold outputs in Hrun.
  assert (Hw' : state w' = written t (zip outputs (component_values outputs res)) (state w)
                ∧ length (component_values outputs res) = length outputs).
  { unfold component_values.
    assert (Hbody :
      (if Nat.ltb 1 (length outputs) then
         match py_len res with
         | None => raise (TypeError "object has no len()")
         | Some n =>
             assert (Nat.eqb n (length outputs))
               "Component output does not match expected length" ;;;
             for_each (zip outputs (py_iter res)) (write_output t)
         end
       else
         match outputs with
         | [] => raise (IndexError "list index out of range")
         | k :: _ => write_output t (k, res)
         end) (after_return a out err w) = Ok tt w').
    { by destruct res. }
    clear Hrun. destruct (Nat.ltb 1 (length outputs)) eqn:Hlen.
    - destruct (py_len res) as [n|] eqn:Hn; [|done].
      apply bind_Ok in Hbody as ([] & w1 & Hassert & Hbody).
      destruct (Nat.eqb n (length outputs)) eqn:Heq; [|done].
      injection Hassert as <-. rewrite for_each_write_output in Hbody.
      injection Hbody as <-. simpl. rewrite after_return_state. split; [done|].
      apply Nat.eqb_eq in Heq. by rewrite (py_len_iter _ _ Hn).
    - destruct outputs as [|k [|k' outputs']] eqn:Hout; [done| |].
      + unfold write_output, bind, setattr, modify in Hbody. simpl in Hbody.
        injection Hbody as <-. simpl. by rewrite after_return_state.
      + simpl in Hlen. done. }
  destruct Hw' as [Hw' Hlen]. rewrite Hw'.
  assert (Hfst : (zip outputs (component_values outputs res)).*1 = outputs).
  { apply fst_zip. lia. }
  split.
  - intros j k Hj.
    destruct (lookup_lt_is_Some_2 (component_values outputs res) j) as [v Hv].
    { rewrite Hlen. by apply lookup_lt_Some in Hj. }
    exists v. split; [done|].
    apply (written_lookup t _ _ j); rewrite ?Hfst; [done|done|].
    apply lookup_zip_with_Some. by exists k, v.
  - intros k' Hk' Hts'. apply written_frame; by rewrite Hfst.
Qed.

Definition pair_oracle : Oracle := steady_oracle (Returns (VSeq [VInt 1; VInt 2]) "" "") 20.

Definition pair_world : World := with_state zero_state (one_planner_world pair_component).

Definition pair_written : World := res_world (update_now pair_oracle 0 1 pair_world).

Lemma update_now_writes_outputs_witness :
  update_now pair_oracle 0 1 pair_world = Ok tt pair_written ∧
  (∀ j k, ["a"; "b"] !! j = Some k →
     ∃ v, [VInt 1; VInt 2] !! j = Some v ∧
          state pair_written !! k = Some v ∧
          state pair_written !! (k +:+ "_update_time") = Some (VFloat 1)) ∧
  (∀ k', k' ∉ ["a"; "b"] → (∀ k, k ∈ ["a"; "b"] → k' ≠ k +:+ "_update_time") →
     state pair_written !! k' = state pair_world !! k').
Proof.
  assert (H : update_now pair_oracle 0 1 pair_world = Ok tt pair_written)
    by (vm_compute; reflexivity).
  assert (Hread : inputs_readable (w_heap pair_world 0) pair_world).
  { right. intros i Hi. by apply elem_of_nil in Hi. }
  assert (Hnd : NoDup (ex_output (w_heap pair_world 0))).
  { apply (bool_decide_unpack _). vm_compute. reflexivity. }
  assert (Hts : ∀ k k', k ∈ ex_output (w_heap pair_world 0) →
                        k' ∈ ex_output (w_heap pair_world 0) →
                        k ≠ k' +:+ "_update_time").
  { intros k k' Hk Hk'. simpl in Hk, Hk'. set_unfold. naive_solver. }
  split; [exact H|].
  exact (update_now_writes_outputs pair_oracle 0 1 pair_world (VSeq [VInt 1; VInt 2])
           "" "" pair_written Hread eq_refl ltac:(discriminate) Hnd Hts H).
Defined.

(** ** The current pipeline *)

(** The pipelines are [P], and the current one is among them. *)
Definition pipeline_known (P : list (string * (Phase * Phase * Phase))) (w : World)
  : Prop :=
  pipelines w = P ∧ dict_mem P (current_pipeline w) = true.

Lemma pipeline_known_stable P : Stable (pipeline_known P).
Proof. by split. Qed.

Lemma pipeline_known_call_stable P : CallStable (pipeline_known P).
Proof. by split. Qed.

Lemma maintains_bind_post {A B} (J : World → Prop) (Q : A → Prop)
    (m : M A) (f : A → M B) :
  maintains J m → (∀ w a w1, m w = Ok a w1 → Q a) →
  (∀ a, Q a → maintains J (f a)) → maintains J (bind m f).
Proof.
  intros Hm HQ Hf w Hw. unfold bind. specialize (Hm w Hw). specialize (HQ w).
  destruct (m w) as [a w1|e w1|w1]; simpl in *; [|done|done].
  apply Hf; [|done]. by apply (HQ a w1).
Qed.

Section PipelineKnown.
Context (oracle : Oracle) (G : Graph) (require_engaged : bool).
Context (P : list (string * (Phase * Phase * Phase))).
Hypothesis recovery_known : dict_mem P "recovery" = true.

Lemma to_recovery_known :
  maintains (pipeline_known P) (modify (with_current_pipeline "recovery")).
Proof. apply maintains_modify. by intros w [HP _]. Qed.

Lemma validate_sensors_known fuel numsteps :
  maintains (pipeline_known P) (validate_sensors oracle G require_engaged fuel numsteps).
Proof.
  pose proof (pipeline_known_stable P). pose proof (pipeline_known_call_stable P).
  apply maintains_validate_sensors; [done|]. by apply call_update_now.
Qed.

Lemma run_until_switch_known fuel :
  maintains (pipeline_known P) (run_until_switch oracle G require_engaged fuel).
Proof.
  pose proof (pipeline_known_stable P). pose proof (pipeline_known_call_stable P).
  apply maintains_run_until_switch; [done|by apply call_update_now|done].
Qed.

Lemma revalidate_known fuel :
  maintains (pipeline_known P) (revalidate oracle G require_engaged fuel).
Proof.
  pose proof (pipeline_known_stable P) as Hst. unfold revalidate.
  apply maintains_bind; [apply validate_sensors_known|]. intros [|]; [maintain|].
  apply maintains_bind; [maintain|]. intros w.
  apply maintains_bind; [maintain|]. intros _.
  apply maintains_bind; [apply to_recovery_known|]. intros _. maintain.
Qed.

Lemma after_switch_known fuel next :
  maintains (pipeline_known P) (after_switch oracle G require_engaged fuel next).
Proof.
  pose proof (pipeline_known_stable P) as Hst. unfold after_switch.
  destruct next as [next|]; [|maintain].
  intros w Hw. rewrite (bind_ok_eq get _ w w w eq_refl).
  pose proof Hw as [HP Hcur].
  refine (maintains_bind_post (pipeline_known P) (λ n, dict_mem P n = true)
            _ _ _ _ _ w Hw).
  - destruct (dict_mem (pipelines w) next); maintain.
  - intros w0 n w1. rewrite HP.
    destruct (dict_mem P next) eqn:Hmem.
    + by intros [= <- _].
    + intros H. by apply bind_Ok in H as ([] & w2 & _ & [= <- _]).
  - intros n Hn. destruct (_ && _); [maintain|].
    apply maintains_bind; [|intros _; apply revalidate_known].
    apply maintains_modify. by intros w0 [HP0 _].
Qed.

Lemma on_interrupt_known : maintains (pipeline_known P) (on_interrupt oracle).
Proof.
  pose proof (pipeline_known_stable P) as Hst. unfold on_interrupt.
  apply maintains_bind; [maintain|]. intros w.
  destruct (decide _); [maintain|].
  apply maintains_bind; [apply to_recovery_known|]. intros _. maintain.
Qed.

Lemma mission_step_known fuel :
  maintains (pipeline_known P) (mission_step oracle G require_engaged fuel).
Proof.
  pose proof (pipeline_known_stable P) as Hst. unfold mission_step.
  apply maintains_bind; [maintain|]. intros t.
  apply maintains_bind; [maintain|]. intros _.
  apply maintains_bind; [maintain|]. intros w.
  apply maintains_bind; [maintain|]. intros _.
  apply maintains_try; [|apply on_interrupt_known].
  apply maintains_bind; [maintain|]. intros _.
  apply maintains_bind; [apply run_until_switch_known|]. intros next.
  apply after_switch_known.
Qed.

Lemma mission_loop_known fuel :
  maintains (pipeline_known P) (mission_loop oracle G require_engaged fuel).
Proof.
  induction fuel as [|fuel IH]; simpl; [apply maintains_out_of_fuel|].
  apply maintains_bind; [apply mission_step_known|]. intros [|]; [apply maintains_ret|done].
Qed.
End PipelineKnown.

(** X15: the two checks at the head of [run] hold for the whole mission.
    With a pipeline ['recovery'] and a current pipeline that are both
    registered, the mission loop leaves the pipelines as they are and the
    current pipeline a registered one, however it ends: every lookup
    [self.pipelines[self.current_pipeline]] finds its pipeline. *)
Theorem current_pipeline_stays_registered (oracle : Oracle) (G : Graph)
    (require_engaged : bool) (fuel : nat) (w : World) :
  dict_mem (pipelines w) "recovery" = true →
  dict_mem (pipelines w) (current_pipeline w) = true →
  let w' := res_world (mission_loop oracle G require_engaged fuel w) in
  pipelines w' = pipelines w ∧
  dict_mem (pipelines w') (current_pipeline w') = true.
Proof.
  intros Hrec Hcur w'.
  destruct (mission_loop_known oracle G require_engaged (pipelines w) Hrec fuel w)
    as [HP Hmem]; [done|].
  fold w' in HP, Hmem. by rewrite HP.
Qed.

Lemma current_pipeline_stays_registered_witness :
  let w' := res_world (mission_loop park_oracle one_planner_graph false 4 recovery_world) in
  pipelines w' = pipelines recovery_world ∧
  dict_mem (pipelines w') (current_pipeline w') = true.
Proof.
  exact (current_pipeline_stays_registered park_oracle one_planner_graph false 4
           recovery_world eq_refl eq_refl).
Defined.

(** ** The flag [had_exception] *)

(** X16: nothing in the mission resets [had_exception].  Once an executor
    has caught an exception of its component, the flag is still set when the
    mission loop ends, however it ends, and [healthy] then answers [False]
    whatever the component says. *)
Theorem had_exception_is_permanent (oracle : Oracle) (G : Graph)
    (require_engaged : bool) (fuel : nat) (a : nat) (w : World) :
  ex_had_exception (w_heap w a) = true →
  let w' := res_world (mission_loop oracle G require_engaged fuel w) in
  ex_had_exception (w_heap w' a) = true ∧
  ∃ w'', healthy oracle a w' = Ok false w''.
Proof.
  intros Hw w'.
  pose proof (latched_stable a) as Hst. pose proof (latched_call_stable a) as Hcall.
  pose proof (latched_pipeline_stable a) as Hpipe.
  assert (Hw' : latched a w').
  { apply (maintains_mission_loop oracle G require_engaged (latched a));
      [by apply call_update_now|done|done]. }
  split; [done|].
  unfold healthy, bind, ask, get_ex, ret. simpl.
  unfold latched in Hw'. rewrite Hw'. rewrite andb_false_r. by eexists.
Qed.

Lemma had_exception_is_permanent_witness :
  let w' := res_world (mission_loop healthy_sensor_oracle one_planner_graph false 4
                         faulty_sensor_world) in
  ex_had_exception (w_heap w' 0) = true ∧
  ∃ w'', healthy healthy_sensor_oracle 0 w' = Ok false w''.
Proof.
  exact (had_exception_is_permanent healthy_sensor_oracle one_planner_graph false 4 0
           faulty_sensor_world eq_refl).
Defined.

(** ** The order of the updates *)

(** The executors whose component was called, latest first. *)
Definition updates_of (tr : list Event) : list nat :=
  omap (λ ev, match ev with EvUpdate a _ => Some a | _ => None end) tr.

Definition updated (L : list nat) (w : World) : Prop := updates_of (w_trace w) = L.

Lemma updated_stable L : Stable (updated L).
Proof.
  split; try done.
  intros w ev Hev H. unfold updated in *. simpl. by destruct ev.
Qed.

(** Code that takes [I] to [J], and code that does so or keeps [I],
    however it ends. *)
Definition moves {A} (I J : World → Prop) (m : M A) : Prop :=
  ∀ w, I w → J (res_world (m w)).

Definition steps {A} (I J : World → Prop) (m : M A) : Prop :=
  ∀ w, I w → I (res_world (m w)) ∨ J (res_world (m w)).

Lemma moves_bind {A B} (I J : World → Prop) (m : M A) (f : A → M B) :
  moves I J m → (∀ a, maintains J (f a)) → moves I J (bind m f).
Proof.
  intros Hm Hf w Hw. unfold bind. specialize (Hm w Hw).
  destruct (m w) as [a w1|e w1|w1]; simpl in *; [|done..]. by apply Hf.
Qed.

Lemma steps_moves {A} (I J : World → Prop) (m : M A) : moves I J m → steps I J m.
Proof. intros H w Hw. right. by apply H. Qed.

Lemma steps_maintains {A} (I J : World → Prop) (m : M A) : maintains I m → steps I J m.
Proof. intros H w Hw. left. by apply H. Qed.

Lemma steps_bind_before {A B} (I J : World → Prop) (m : M A) (f : A → M B) :
  maintains I m → (∀ a, steps I J (f a)) → steps I J (bind m f).
Proof.
  intros Hm Hf w Hw. unfold bind. specialize (Hm w Hw).
  destruct (m w) as [a w1|e w1|w1]; simpl in *; [|by left..]. by apply Hf.
Qed.

Lemma steps_bind_after {A B} (I J : World → Prop) (m : M A) (f : A → M B) :
  steps I J m → (∀ a, maintains I (f a)) → (∀ a, maintains J (f a)) →
  steps I J (bind m f).
Proof.
  intros Hm HI HJ w Hw. unfold bind. specialize (Hm w Hw).
  destruct (m w) as [a w1|e w1|w1]; simpl in *; [|done..].
  destruct Hm as [Hm|Hm]; [left; by apply HI|right; by apply HJ].
Qed.

Section UpdateOrder.
Context (oracle : Oracle) (G : Graph).

Lemma write_output_updated L t kv : maintains (updated L) (write_output t kv).
Proof.
  unfold write_output.
  apply maintains_bind; [|intros _]; by apply maintains_modify.
Qed.

Lemma do_update_moves L a t :
  moves (updated L) (updated (a :: L)) (_do_update oracle a t).
Proof.
  pose proof (updated_stable (a :: L)) as Hst. unfold _do_update.
  intros w Hw. rewrite (bind_ok_eq get _ w w w eq_refl).
  rewrite (bind_ok_eq (emit _) _ w tt _ eq_refl).
  match goal with
  | |- updated _ (res_world (?m ?w1)) =>
      assert (Hm : maintains (updated (a :: L)) m) by maintain; apply Hm
  end.
  unfold updated in *. simpl. by rewrite Hw.
Qed.

Lemma update_now_steps L a t :
  steps (updated L) (updated (a :: L)) (update_now oracle a t).
Proof.
  pose proof (updated_stable L) as Hst. pose proof (updated_stable (a :: L)) as Hst'.
  unfold update_now.
  apply steps_bind_before; [maintain|]. intros e.
  apply steps_bind_before; [case_bool_decide; maintain|]. intros _.
  apply steps_bind_before; [maintain|]. intros _.
  apply steps_moves, moves_bind; [apply do_update_moves|]. intros res.
  apply maintains_bind; [maintain|]. intros e'.
  destruct res; try apply maintains_ret;
    (destruct (Nat.ltb 1 (length (ex_output e')));
     [destruct (py_len _); [|apply maintains_raise];
      apply maintains_bind; [apply maintains_assert|intros _];
      apply maintains_for_each; intros kv; apply write_output_updated
     |destruct (ex_output e'); [apply maintains_raise|apply write_output_updated]]).
Qed.

Lemma update_steps L a t :
  steps (updated L) (updated (a :: L)) (update oracle a t).
Proof.
  pose proof (updated_stable L) as Hst. pose proof (updated_stable (a :: L)) as Hst'.
  unfold update.
  apply steps_bind_before; [maintain|]. intros e.
  destruct (due _ _); [|apply steps_maintains; maintain].
  apply steps_bind_before; [maintain|]. intros t0.
  apply steps_bind_after; [apply update_now_steps|intros _; maintain..].
Qed.

Lemma update_component_steps L components t now k :
  steps (updated L) (updated (default [] ((λ a, [a]) <$> dict_get components k) ++ L))
    (update_component oracle components t now k).
Proof.
  pose proof (updated_stable L) as Hst. unfold update_component.
  destruct (dict_get components k) as [a|]; simpl.
  - pose proof (updated_stable (a :: L)) as Hst'.
    apply steps_bind_after; [|intros [|]; maintain..].
    destruct now; [|apply update_steps].
    apply steps_bind_after; [apply update_now_steps|intros _; maintain..].
  - apply steps_maintains. maintain.
Qed.

Lemma for_each_update_component components t now order L w :
  updated L w →
  ∃ l, l `sublist_of` omap (dict_get components) order ∧
       updated (reverse l ++ L)
         (res_world (for_each order (update_component oracle components t now) w)).
Proof.
  revert L w. induction order as [|k order IH]; intros L w Hw; simpl.
  { exists []. split; [done|]. done. }
  unfold bind.
  destruct (update_component_steps L components t now k w Hw) as [H|H].
  - destruct (update_component oracle components t now k w) as [[] w1|e w1|w1];
      simpl in H.
    + destruct (IH L w1 H) as (l & Hl & Hres). exists l. split; [|done].
      destruct (dict_get components k); simpl; [by apply sublist_cons|done].
    + exists []. split; [apply sublist_nil_l|done].
    + exists []. split; [apply sublist_nil_l|done].
  - destruct (dict_get components k) as [a|] eqn:Hk; simpl in *.
    + destruct (update_component oracle components t now k w) as [[] w1|e w1|w1];
        simpl in H.
      * destruct (IH (a :: L) w1 H) as (l & Hl & Hres). exists (a :: l).
        split; [by apply sublist_skip|].
        by rewrite reverse_cons, <- app_assoc.
      * exists [a]. split; [|done]. apply sublist_skip, sublist_nil_l.
      * exists [a]. split; [|done]. apply sublist_skip, sublist_nil_l.
    + destruct (update_component oracle components t now k w) as [[] w1|e w1|w1];
        simpl in H.
      * by apply IH.
      * exists []. split; [apply sublist_nil_l|done].
      * exists []. split; [apply sublist_nil_l|done].
Qed.

(** X17: [update_components] calls the components of a phase in the order
    of the computation graph, not in the order of the dictionary: however
    the call ends, the components called are, in this order, executors of
    the names of [COMPONENT_ORDER] that the phase holds, each called at
    most once for each time its name stands in [COMPONENT_ORDER].  A
    component whose name is not in the graph is not called.  With
    [force], the order is the one of the dictionary. *)
Theorem update_components_order (components : Phase) (now force : bool) (w : World) :
  let order :=
    if force then dict_keys components
    else List.filter (dict_mem components) (COMPONENT_ORDER G) in
  ∃ l, l `sublist_of` omap (dict_get components) order ∧
       updates_of (w_trace (res_world (update_components oracle G components now force w)))
       = reverse l ++ updates_of (w_trace w).
Proof.
  intros order. unfold update_components.
  pose proof (updated_stable (updates_of (w_trace w))) as Hst.
  unfold bind at 1.
  assert (Hread : maintains (updated (updates_of (w_trace w))) read_t) by maintain.
  specialize (Hread w eq_refl).
  destruct (read_t w) as [t w1|e w1|w1]; simpl in Hread;
    [|exists []; split; [apply sublist_nil_l|done]..].
  apply (for_each_update_component components t now order _ w1 Hread).
Qed.
End UpdateOrder.

Section Polling.
Context (oracle : Oracle).

Lemma update_now_Ok_updated a t w w' :
  update_now oracle a t w = Ok tt w' →
  updates_of (w_trace w') = a :: updates_of (w_trace w).
Proof.
  set (L := updates_of (w_trace w)).
  pose proof (updated_stable L) as Hst. pose proof (updated_stable (a :: L)) as Hst'.
  unfold update_now. intros H.
  apply bind_Ok in H as (e & w0 & [= <- <-] & H).
  apply (bind_Ok_with (updated L)) in H as ([] & w1 & _ & Hw1 & H);
    [|case_bool_decide; maintain|done].
  apply (bind_Ok_with (updated L)) in H as ([] & w2 & _ & Hw2 & H); [|maintain|done].
  apply bind_Ok in H as (res & w3 & Hdo & H).
  pose proof (do_update_moves oracle L a t w2 Hw2) as Hw3. rewrite Hdo in Hw3.
  simpl in Hw3.
  apply bind_Ok in H as (e' & w4 & [= <- <-] & H).
  revert H Hw3. apply maintains_Ok.
  destruct res; try apply maintains_ret;
    (destruct (Nat.ltb 1 (length (ex_output (w_heap w3 a))));
     [destruct (py_len _); [|apply maintains_raise];
      apply maintains_bind; [apply maintains_assert|intros _];
      apply maintains_for_each; intros kv; apply write_output_updated
     |destruct (ex_output (w_heap w3 a));
      [apply maintains_raise|apply write_output_updated]]).
Qed.

(** X18: [update] polls.  A call that returns has returned [True] exactly
    when the component was due, that is when it never ran or [t] has
    reached [next_update_time]; then the component was called once and
    [last_update_time] is [t].  A component that is not due is not called,
    and nothing changes. *)
Theorem update_polls (a : nat) (t : float) (w : World) (b : bool) (w' : World) :
  update oracle a t w = Ok b w' →
  b = due (ex_next_update_time (w_heap w a)) t ∧
  if b then
    updates_of (w_trace w') = a :: updates_of (w_trace w) ∧
    ex_last_update_time (w_heap w' a) = Some t
  else w' = w.
Proof.
  intros H. destruct b.
  - pose proof (update_Ok_true oracle a t w w' H) as (w1 & e1 & _ & _ & Hheap).
    unfold update in H.
    apply bind_Ok in H as (e & w0 & [= <- <-] & H).
    destruct (due (ex_next_update_time (w_heap w a)) t).
    2: { by apply bind_Ok in H as ([] & w2 & _ & [=]). }
    split; [done|]. split.
    + set (L := updates_of (w_trace w)).
      pose proof (updated_stable (a :: L)) as Hst.
      apply bind_Ok in H as (t0 & wa & [= <- <-] & H).
      apply bind_Ok in H as ([] & wb & Hnow & H).
      apply update_now_Ok_updated in Hnow. simpl in Hnow. fold L in Hnow.
      revert H Hnow. apply (maintains_Ok (updated (a :: L))). maintain.
    + simpl in Hheap. rewrite Hheap. by destruct (_ && _).
  - unfold update in H.
    apply bind_Ok in H as (e & w0 & [= <- <-] & H).
    destruct (due (ex_next_update_time (w_heap w a)) t).
    + by bind_inv H.
    + split; [done|]. by injection H as <-.
Qed.
End Polling.

Lemma update_polls_witness :
  let oracle := steady_oracle (Returns (VInt 1) "" "") 0 in
  update oracle 0 1.25 slow_world = Ok true slow_world_polled ∧
  true = due (ex_next_update_time (w_heap slow_world 0)) 1.25 ∧
  updates_of (w_trace slow_world_polled) = 0 :: updates_of (w_trace slow_world) ∧
  ex_last_update_time (w_heap slow_world_polled 0) = Some 1.25%float.
Proof.
  intros oracle.
  assert (H : update oracle 0 1.25 slow_world = Ok true slow_world_polled)
    by (vm_compute; reflexivity).
  split; [exact H|].
  exact (update_polls oracle 0 1.25 slow_world true slow_world_polled H).
Defined.

(** ** The class that [make_class] imports *)

Fixpoint has_dot (s : string) : bool :=
  match s with
  | EmptyString => false
  | String c rest => bool_decide (c = "."%char) || has_dot rest
  end.

Lemma rsplit_dot_None s : rsplit_dot s = None ↔ has_dot s = false.
Proof.
  induction s as [|c s IH]; simpl; [done|].
  destruct (rsplit_dot s) as [[m cl]|].
  - split; [done|]. intros H. apply orb_false_iff in H as [_ H].
    by apply IH in H.
  - destruct (decide (c = "."%char)) as [->|Hc].
    + by split.
    + rewrite bool_decide_eq_false_2 by done. simpl. split; [|done].
      intros _. by apply IH.
Qed.

Lemma rsplit_dot_Some s m cl :
  rsplit_dot s = Some (m, cl) → s = m +:+ "." +:+ cl ∧ has_dot cl = false.
Proof.
  revert m. induction s as [|c s IH]; intros m; simpl; [done|].
  destruct (rsplit_dot s) as [[m' cl']|] eqn:Hs.
  - intros [= <- <-]. destruct (IH m' eq_refl) as [-> Hcl]. by split.
  - destruct (decide (c = "."%char)) as [->|Hc]; [|done].
    intros [= <- <-]. split; [done|]. by apply rsplit_dot_None.
Qed.

Lemma has_dot_append (m cl : string) : has_dot (m +:+ "." +:+ cl) = true.
Proof.
  induction m as [|c m IH]; simpl; [done|]. rewrite IH. apply orb_true_r.
Qed.

(** X19: the class name that [make_class] reads from the module never
    holds a dot.  The text of the class, the string or the key [type],
    is split at its last dot; the module is the key [module] when there is
    one, else the text before the last dot, else the argument
    [component_module]. *)
Theorem make_class_target_splits (config_info : ClassInfo)
    (component_module module class_name : string) :
  make_class_target config_info component_module = Val (module, class_name) →
  let text := match config_info with
              | ClassStr s => s
              | ClassDict type _ => default "" type
              end in
  let override := match config_info with
                  | ClassStr _ => None
                  | ClassDict _ m => m
                  end in
  has_dot class_name = false ∧
  if has_dot text then
    ∃ prefix, text = prefix +:+ "." +:+ class_name ∧ module = default prefix override
  else
    class_name = text ∧ module = default component_module override.
Proof.
  intros H text override.
  assert (Hsplit :
    match rsplit_dot text with
    | Some (m, cl) => cl = class_name ∧ module = default m override
    | None => class_name = text ∧ module = default component_module override
    end).
  { subst text override. destruct config_info as [s|[type|] m]; simpl in *; [| |done].
    - destruct (rsplit_dot s) as [[m cl]|]; by injection H as <- <-.
    - destruct (rsplit_dot type) as [[m' cl]|]; injection H as <- <-; by destruct m. }
  destruct (rsplit_dot text) as [[m cl]|] eqn:Htext.
  - destruct Hsplit as [<- ->]. apply rsplit_dot_Some in Htext as [Htext Hcl].
    split; [done|].
    destruct (has_dot text) eqn:Hdot; [by exists m|].
    by rewrite Htext, has_dot_append in Hdot.
  - destruct Hsplit as [-> ->]. apply rsplit_dot_None in Htext. by rewrite Htext.
Qed.

Lemma make_class_target_splits_witness :
  make_class_target (ClassDict (Some "planning.route.Planner") (Some "testing")) "control"
  = Val ("testing", "Planner") ∧
  has_dot "Planner" = false ∧
  ∃ prefix, "planning.route.Planner" = prefix +:+ "." +:+ "Planner" ∧
            "testing" = default prefix (Some "testing").
Proof.
  split; [reflexivity|].
  exact (make_class_target_splits
           (ClassDict (Some "planning.route.Planner") (Some "testing"))
           "control" "testing" "Planner" eq_refl).
Defined.

(** ** The lines of the captured output *)

Fixpoint has_newline (s : string) : bool :=
  match s with
  | EmptyString => false
  | String c rest => bool_decide (c = LF) || has_newline rest
  end.

Lemma string_append_cons (c : ascii) (s1 s2 : string) :
  String c s1 +:+ s2 = String c (s1 +:+ s2).
Proof. reflexivity. Qed.

Lemma string_append_assoc (s1 s2 s3 : string) :
  (s1 +:+ s2) +:+ s3 = s1 +:+ (s2 +:+ s3).
Proof.
  induction s1 as [|c s1 IH]; [done|]. by rewrite !string_append_cons, IH.
Qed.

Lemma string_append_nil_r (s : string) : s +:+ "" = s.
Proof. induction s as [|c s IH]; [done|]. by rewrite string_append_cons, IH. Qed.

Lemma concat_cons sep (x y : string) (ys : list string) :
  String.concat sep (x :: y :: ys) = x +:+ sep +:+ String.concat sep (y :: ys).
Proof. done. Qed.

Lemma concat_snoc sep (ls : list string) (l : string) :
  ls ≠ [] →
  String.concat sep (ls ++ [l]) = String.concat sep ls +:+ sep +:+ l.
Proof.
  induction ls as [|x ls IH]; [done|]. intros _.
  destruct ls as [|y ls]; [done|].
  change ((x :: y :: ls) ++ [l]) with (x :: (y :: ls) ++ [l]).
  change ((y :: ls) ++ [l]) with (y :: ls ++ [l]) at 1.
  rewrite concat_cons. change (y :: ls ++ [l]) with ((y :: ls) ++ [l]).
  rewrite IH by done. rewrite concat_cons. by rewrite !string_append_assoc.
Qed.

Lemma split_lines_cons text : ∃ l ls, split_lines text = l :: ls.
Proof.
  induction text as [|c text (l & ls & IH)]; simpl; [by eexists _, _|].
  destruct (decide (c = LF)); [by eexists _, _|]. rewrite IH. by eexists _, _.
Qed.

(** [split] and [join] are inverse. *)
Lemma split_lines_join text :
  String.concat (String LF "") (split_lines text) = text.
Proof.
  induction text as [|c text IH]; [done|]. simpl split_lines.
  destruct (split_lines_cons text) as (l & ls & Hsplit). rewrite Hsplit in *.
  destruct (decide (c = LF)) as [->|Hc].
  - by rewrite concat_cons, IH.
  - destruct ls as [|l' ls].
    + simpl in *. by rewrite IH.
    + rewrite concat_cons, string_append_cons. rewrite concat_cons in IH.
      by rewrite IH.
Qed.

Lemma split_lines_no_newline text :
  Forall (λ l, has_newline l = false) (split_lines text).
Proof.
  induction text as [|c text IH]; simpl; [by repeat constructor|].
  destruct (decide (c = LF)) as [->|Hc]; [by constructor|].
  destruct (split_lines text) as [|l ls].
  { repeat constructor. simpl. by rewrite bool_decide_eq_false_2. }
  apply Forall_cons in IH as [Hl Hls]. constructor; [|done].
  simpl. by rewrite bool_decide_eq_false_2.
Qed.

(** X20: the lines that [log_output] prints and logs are the captured
    text: joined by newlines, and followed by a newline when the text ends
    with one, they give the text back; no line holds a newline.  So a final
    newline makes no empty line, and nothing else is dropped. *)
Theorem captured_lines_join (text : string) :
  Forall (λ l, has_newline l = false) (captured_lines text) ∧
  ∃ tail, (tail = "" ∨ tail = String LF "") ∧
          String.concat (String LF "") (captured_lines text) +:+ tail = text ∧
          (tail = "" → text = "" ∨ last (captured_lines text) ≠ Some "").
Proof.
  unfold captured_lines.
  pose proof (split_lines_join text) as Hjoin.
  pose proof (split_lines_no_newline text) as Hlines.
  destruct (split_lines_cons text) as (l0 & ls0 & Hne).
  destruct (split_lines text) as [|x xs] using rev_ind; [done|]. clear IHxs Hne.
  rewrite last_snoc, length_app. simpl. 
  replace (length xs + 1 - 1) with (length xs) by lia.
  rewrite take_app_length.
  replace (Nat.ltb 0 (length xs + 1)) with true by (symmetry; apply Nat.ltb_lt; lia).
  simpl. destruct (Nat.eqb (String.length x) 0) eqn:Hx.
  - apply Nat.eqb_eq in Hx. destruct x; [|done].
    apply Forall_app in Hlines as [Hxs _]. split; [done|].
    destruct xs as [|y ys].
    + exists "". simpl in Hjoin. subst text. split_and!; auto.
    + exists (String LF ""). rewrite concat_snoc in Hjoin by done.
      split_and!; [auto|done|done].
  - split; [done|]. exists "". rewrite string_append_nil_r.
    split_and!; [auto|done|]. intros _. right. rewrite last_snoc.
    intros [= ->]. done.
Qed.

(** ** A component that cannot be made *)

Lemma executor_debug_exception_frame traceback fmt n w :
  let w' := res_world (executor_debug_exception traceback fmt n w) in
  all_components w' = all_components w ∧ w_heap w' = w_heap w ∧ w_next w' = w_next w.
Proof.
  unfold executor_debug_exception, executor_debug_stderr, executor_debug_print,
    bind, emit, modify, raise, ret.
  simpl. repeat case_match; simplify_eq/=; done.
Qed.

(** X21: a call of [make_component] that raises registers nothing: the
    registry, the executors and the next free address are as before, so a
    later call for the same description starts again from [make_class]. *)
Theorem make_component_failure_registers_nothing (oracle : Oracle)
    (config_info : ConfigInfo) (component_name : string) (w : World)
    (e : PyExn) (w' : World) :
  make_component oracle config_info component_name w = Raise e w' →
  all_components w' = all_components w ∧ w_heap w' = w_heap w ∧
  w_next w' = w_next w ∧
  dict_get (all_components w) (identifier_of component_name config_info) = None.
Proof.
  unfold make_component. rewrite (bind_ok_eq get _ w w w eq_refl).
  destruct (dict_get (all_components w) (identifier_of component_name config_info))
    as [a0|] eqn:Hget; [done|].
  rewrite (bind_ok_eq (emit _) _ w tt _ eq_refl).
  rewrite (bind_ok_eq (ask oracle o_make_class) _ _ _ _ eq_refl).
  intros H. cut (all_components w' = all_components w ∧ w_heap w' = w_heap w ∧
                 w_next w' = w_next w); [tauto|].
  revert H. destruct (o_make_class oracle _) as [component| |err traceback].
  - rewrite (bind_ok_eq (ask oracle o_component_replayer) _ _ _ _ eq_refl).
    destruct (o_component_replayer oracle _) as [replacement|].
    + rewrite (bind_ok_eq _ _ _ replacement _
                 (bind_ok_eq _ _ _ _ _
                    (executor_debug_print_shown 1
                       "Replaying component {} from long {} with outputs {}" 3 _
                       eq_refl eq_refl))).
      destruct (new_executor replacement _) as [executor|]; [|by intros [= _ <-]].
      destruct (match config_info with CfgStr _ => _ | CfgDict _ => _ end)
        as [configured|]; [done|].
      by intros [= _ <-].
    + rewrite (bind_ok_eq (ret component) _ _ component _ eq_refl).
      destruct (new_executor component _) as [executor|]; [|by intros [= _ <-]].
      destruct (match config_info with CfgStr _ => _ | CfgDict _ => _ end)
        as [configured|]; [done|].
      by intros [= _ <-].
  - by intros [= _ <-].
  - destruct (is_Exception err).
    + match goal with
      | |- (executor_debug_exception ?tb ?fmt ?n ;;; _) ?w1 = _ → _ =>
          pose proof (executor_debug_exception_frame tb fmt n w1) as Hframe;
          unfold bind;
          destruct (executor_debug_exception tb fmt n w1) as [[] w2|e2 w2|w2]
      end; simpl in Hframe; [| |done]; by intros [= _ <-].
    + by intros [= _ <-].
Qed.

(** A descriptor with the rate [0]: the component is made, and the division
    [1.0/config_info['rate']] raises. *)
Definition zero_rate_config : ConfigInfo :=
  CfgDict {| cfg_repr := "{'type': 'planning.Planner', 'rate': 0.0}";
             cfg_multiprocess := false; cfg_essential := true;
             cfg_rate := Some 0%float; cfg_print := true; cfg_debug := true |}.

Definition not_made_world : World :=
  res_world (make_component factory_oracle zero_rate_config "planner"
               (initial_world (fresh_executor slow_component 0))).

Lemma make_component_failure_registers_nothing_witness :
  let w := initial_world (fresh_executor slow_component 0) in
  make_component factory_oracle zero_rate_config "planner" w
  = Raise (UserException "ZeroDivisionError" "float division by zero") not_made_world ∧
  all_components not_made_world = all_components w ∧
  w_heap not_made_world = w_heap w ∧ w_next not_made_world = w_next w ∧
  dict_get (all_components w) (identifier_of "planner" zero_rate_config) = None.
Proof.
  intros w.
  assert (H : make_component factory_oracle zero_rate_config "planner" w
              = Raise (UserException "ZeroDivisionError" "float division by zero")
                  not_made_world) by (vm_compute; reflexivity).
  split; [exact H|].
  exact (make_component_failure_registers_nothing factory_oracle zero_rate_config
           "planner" w _ not_made_world H).
Defined.

(** ** A switch requested by the hook *)

Section SwitchRequest.
Context (oracle : Oracle) (G : Graph) (require_engaged : bool).

(** X22: the hook [update] is asked between the perception phase and the
    planning phase: when a pass of [run_until_switch] returns a pipeline
    other than ['recovery'], the components called in this pass are
    perception components only, in graph order; no planner and no other
    component has run. *)
Theorem switch_request_skips_planners (perception planning other : Phase)
    (w : World) (n : string) (w' : World) :
  run_until_switch_body oracle G require_engaged perception planning other w
  = Ok (Return (Some n)) w' →
  n ≠ "recovery" →
  ∃ l, l `sublist_of` omap (dict_get perception)
                        (List.filter (dict_mem perception) (COMPONENT_ORDER G)) ∧
       updates_of (w_trace w') = reverse l ++ updates_of (w_trace w).
Proof.
  set (L := updates_of (w_trace w)). intros H Hn.
  pose proof (updated_stable L) as Hst.
  unfold run_until_switch_body in H.
  apply (bind_Ok_with (updated L)) in H as ([] & w1 & _ & Hw1 & H); [|maintain|done].
  apply (bind_Ok_with (updated L)) in H as ([] & w2 & _ & Hw2 & H); [|maintain|done].
  apply bind_Ok in H as ([] & w3 & Hupd & H).
  unfold update_components in Hupd.
  apply (bind_Ok_with (updated L)) in Hupd as (t & w2' & _ & Hw2' & Hupd);
    [|maintain|done].
  destruct (for_each_update_component oracle perception t false
              (List.filter (dict_mem perception) (COMPONENT_ORDER G)) L w2' Hw2')
    as (l & Hl & Hw3).
  rewrite Hupd in Hw3. simpl in Hw3. exists l. split; [done|].
  pose proof (updated_stable (reverse l ++ L)) as Hst'.
  apply (bind_Ok_with (updated (reverse l ++ L))) in H as (bad & w4 & _ & Hw4 & H);
    [|maintain|done].
  destruct bad; [by injection H as [= <-]|].
  apply (bind_Ok_with (updated (reverse l ++ L))) in H as (next & w5 & _ & Hw5 & H);
    [|maintain|done].
  apply bind_Ok in H as (w5' & w6 & [= <- <-] & H).
  apply (bind_Ok_with (updated (reverse l ++ L))) in H as (switch & w6 & _ & Hw6 & H).
  2: { destruct next; [case_bool_decide|]; maintain. }
  2: done.
  destruct switch as [n'|]; [by injection H as _ <-|].
  exfalso.
  apply bind_Ok in H as ([] & w7 & _ & H).
  apply bind_Ok in H as (bad & w8 & _ & H).
  destruct bad; [by injection H as [= <-]|].
  apply bind_Ok in H as ([] & w9 & _ & H).
  apply bind_Ok in H as (bad & w10 & _ & H).
  destruct bad; [by injection H as [= <-]|].
  apply bind_Ok in H as (w10' & w11 & _ & H).
  apply bind_Ok in H as ([] & w12 & _ & H).
  apply bind_Ok in H as (w12' & w13 & _ & H).
  apply bind_Ok in H as (bad & w14 & _ & H).
  destruct bad; [by injection H as [= <-]|done].
Qed.
End SwitchRequest.

Definition park_pass : World :=
  res_world (run_until_switch_body park_oracle one_planner_graph false
               [("planner", 0)] [] [] sensor_world).

Lemma switch_request_skips_planners_witness :
  run_until_switch_body park_oracle one_planner_graph false [("planner", 0)] [] []
    sensor_world = Ok (Return (Some "park")) park_pass ∧
  updates_of (w_trace park_pass) = [0] ∧
  ∃ l, l `sublist_of` omap (dict_get ([("planner", 0)] : Phase))
                        (List.filter (dict_mem ([("planner", 0)] : Phase))
                           (COMPONENT_ORDER one_planner_graph)) ∧
       updates_of (w_trace park_pass) = reverse l ++ updates_of (w_trace sensor_world).
Proof.
  assert (H : run_until_switch_body park_oracle one_planner_graph false
                [("planner", 0)] [] [] sensor_world = Ok (Return (Some "park")) park_pass)
    by (vm_compute; reflexivity).
  split; [exact H|]. split; [vm_compute; reflexivity|].
  exact (switch_request_skips_planners park_oracle one_planner_graph false
           [("planner", 0)] [] [] sensor_world "park" park_pass H ltac:(discriminate)).
Defined.

(** ** A run that raises *)

Lemma bind_Raise {A B} (m : M A) (f : A → M B) w e w' :
  bind m f w = Raise e w' ↔
  m w = Raise e w' ∨ ∃ a w1, m w = Ok a w1 ∧ f a w1 = Raise e w'.
Proof.
  unfold bind. destruct (m w) as [a w1|e1 w1|w1]; split; try naive_solver.
Qed.

Lemma maintains_Raise {A} (I : World → Prop) (m : M A) w e w1 :
  maintains I m → m w = Raise e w1 → I w → I w1.
Proof. intros Hm Hw HI. specialize (Hm w HI). by rewrite Hw in Hm. Qed.

(** The events other than those of the shutdown. *)
Definition not_shutdown (ev : Event) : bool :=
  match ev with
  | EvCleanup _ | EvLogClose => false
  | _ => true
  end.

(** Since the trace was [tr0], no component was stopped and the log was not
    closed. *)
Definition no_shutdown_since (tr0 : list Event) (registry : list (string * nat))
    (w : World) : Prop :=
  ∃ mid, w_trace w = mid ++ tr0 ∧ Forall (λ ev, not_shutdown ev = true) mid ∧
         all_components w = registry.

Lemma no_shutdown_emit tr0 registry w ev :
  not_shutdown ev = true → no_shutdown_since tr0 registry w →
  no_shutdown_since tr0 registry (with_trace (ev :: w_trace w) w).
Proof.
  intros Hev (mid & Hmid & Hall & Hreg). exists (ev :: mid). simpl.
  split_and!; [by rewrite Hmid|by constructor|done].
Qed.

Lemma not_shutdown_elem mid ev :
  Forall (λ ev, not_shutdown ev = true) mid → ev ∈ mid → not_shutdown ev = true.
Proof. intros H Hev. by eapply Forall_forall in H. Qed.

Lemma no_shutdown_stable tr0 registry : Stable (no_shutdown_since tr0 registry).
Proof.
  split; try done.
  intros w ev Hev. apply no_shutdown_emit. by destruct ev.
Qed.

Lemma no_shutdown_pipeline_stable tr0 registry :
  PipelineStable (no_shutdown_since tr0 registry).
Proof. by split. Qed.

Lemma no_shutdown_call_stable tr0 registry :
  CallStable (no_shutdown_since tr0 registry).
Proof.
  split; try done.
  intros w ev Hev. apply no_shutdown_emit. by destruct ev.
Qed.

Section RunRaises.
Context (oracle : Oracle) (G : Graph) (require_engaged : bool) (AllState_zero : AllState).

Lemma start_no_shutdown tr0 registry a :
  maintains (no_shutdown_since tr0 registry) (start oracle a).
Proof.
  pose proof (no_shutdown_stable tr0 registry). unfold start.
  apply maintains_bind; [|intros _; maintain].
  apply maintains_modify. intros w. by apply no_shutdown_emit.
Qed.

Lemma for_each_stop_Raise (components : list (string * nat)) w e w' :
  for_each components (stop_component oracle) w = Raise e w' →
  ∃ a cleaned,
    w_trace w' = EvCleanup a :: reverse (EvCleanup <$> cleaned) ++ w_trace w ∧
    length cleaned < length components.
Proof.
  revert w. induction components as [|ka components IH]; intros w; [done|]. simpl.
  intros H. apply bind_Raise in H as [H|([] & w1 & Hstop & H)].
  - exists ka.2, []. split; [|simpl; lia]. revert H.
    unfold stop_component, stop, bind, emit, modify, ask, executor_debug_print. simpl.
    destruct (o_cleanup oracle (w_calls w)); [|done]. by intros [= _ <-].
  - apply stop_component_Ok in Hstop as [Htr _].
    apply IH in H as (a & cleaned & H & Hlen). exists a, (ka.2 :: cleaned).
    split; [|simpl; lia].
    by rewrite H, Htr, fmap_cons, reverse_cons, <- app_assoc.
Qed.

(** X23: the shutdown is not protected.  When [run] raises, the logging
    manager has not been closed; and either no component has been stopped,
    or the exception is the one of a [cleanup] and the components after it
    have not been stopped. *)
Theorem run_raises_without_shutdown (fuel : nat) (w : World) (e : PyExn) (w' : World) :
  run oracle G require_engaged AllState_zero fuel w = Raise e w' →
  ∃ tr, w_trace w' = tr ++ w_trace w ∧ (EvLogClose ∉ tr) ∧
        ((∀ a, EvCleanup a ∉ tr) ∨
         ∃ a cleaned rest, tr = EvCleanup a :: reverse (EvCleanup <$> cleaned) ++ rest ∧
                           (∀ b, EvCleanup b ∉ rest) ∧
                           length cleaned < length (all_components w)).
Proof.
  intros H. unfold run in H.
  set (I := no_shutdown_since (w_trace w) (all_components w)).
  pose proof (no_shutdown_stable (w_trace w) (all_components w)) as Hst.
  pose proof (no_shutdown_pipeline_stable (w_trace w) (all_components w)) as Hpipe.
  pose proof (no_shutdown_call_stable (w_trace w) (all_components w)) as Hcall.
  pose proof (call_update_now oracle I) as Hnow.
  assert (Hmission : ∀ w0 ty, I w0 →
            I (with_state (<["mission" := VMission ty]> (state w0)) w0)) by done.
  assert (Hquiet : ∀ w1, I w1 →
            ∃ tr, w_trace w1 = tr ++ w_trace w ∧ (EvLogClose ∉ tr) ∧
                  ∀ a, EvCleanup a ∉ tr).
  { intros w1 (mid & Hmid & Hall & _). exists mid. split; [done|].
    split; [|intros a]; intros Hin; by apply (not_shutdown_elem _ _ Hall) in Hin. }
  assert (HI : I w) by (exists []; by split_and!).
  assert (Hdone : ∀ w1, I w1 → ∃ tr, w_trace w1 = tr ++ w_trace w ∧ (EvLogClose ∉ tr) ∧
            ((∀ a, EvCleanup a ∉ tr) ∨
             ∃ a cleaned rest, tr = EvCleanup a :: reverse (EvCleanup <$> cleaned) ++ rest ∧
                               (∀ b, EvCleanup b ∉ rest) ∧
                               length cleaned < length (all_components w))).
  { intros w1 Hw1. destruct (Hquiet w1 Hw1) as (tr & ? & ? & ?). exists tr. auto. }
  apply bind_Raise in H as [H|([] & wa & [= <-] & H)]; [done|].
  apply bind_Raise in H as [H|(w0 & wb & [= <- <-] & H)]; [done|].
  cbn [with_LOGGING_MANAGER pipelines current_pipeline all_components
       replayed_components] in H.
  destruct (negb (dict_mem (pipelines w) (current_pipeline w))).
  { by revert H; unfold executor_debug_print, emit, modify; simpl. }
  destruct (negb (dict_mem (pipelines w) "recovery")).
  { by revert H; unfold executor_debug_print, emit, modify; simpl. }
  assert (Ha : I (with_LOGGING_MANAGER true w)) by done.
  apply bind_Raise in H as [H|([] & wc & Hc & H)].
  { apply Hdone. revert H Ha. apply maintains_Raise. maintain. }
  apply (maintains_Ok I) in Hc; [|maintain|done].
  apply bind_Raise in H as [H|([] & wd & Hd & H)].
  { apply Hdone. revert H Hc. apply maintains_Raise.
    apply maintains_for_each. intros a. apply start_no_shutdown. }
  apply (maintains_Ok I) in Hd;
    [|apply maintains_for_each; intros a; apply start_no_shutdown|done].
  apply bind_Raise in H as [H|([] & we & [= <-] & H)]; [done|].
  assert (He : I (with_state AllState_zero wd)) by done.
  apply bind_Raise in H as [H|([] & wf & Hf & H)].
  { apply Hdone. revert H He. apply maintains_Raise.
    by apply maintains_set_mission_type. }
  apply (maintains_Ok I) in Hf; [|by apply maintains_set_mission_type|done].
  assert (Hval : maintains I
            (sensor_validation oracle (validate_sensors oracle G require_engaged fuel None))).
  { apply maintains_sensor_validation; [done..|].
    by apply maintains_validate_sensors. }
  apply bind_Raise in H as [H|(validated & wg & Hg & H)].
  { apply Hdone. revert H Hf. by apply maintains_Raise. }
  apply (maintains_Ok I) in Hg; [|done|done].
  assert (Hloop : maintains I
            (if validated then
               emit EvBegin ;;; mission_loop oracle G require_engaged fuel ;;;
               emit EvEnd ;;;
               event "Mission execution ended"
                 (Some "Done with mission execution, stopping components and exiting")
             else ret tt)).
  { destruct validated; [|apply maintains_ret].
    apply maintains_bind; [maintain|]. intros _.
    apply maintains_bind; [by apply maintains_mission_loop|]. intros _. maintain. }
  apply bind_Raise in H as [H|([] & wh & Hh & H)].
  { apply Hdone. revert H Hg. by apply maintains_Raise. }
  apply (maintains_Ok I) in Hh; [|done|done].
  apply bind_Raise in H as [H|(w1 & wi & [= <- <-] & H)]; [done|].
  apply bind_Raise in H as [H|([] & wj & Hj & H)].
  2: { apply bind_Raise in H as [H|([] & wk & [= <-] & H)]; [done|].
       by revert H; unfold executor_debug_print, emit, modify; simpl. }
  apply for_each_stop_Raise in H as (a & cleaned & Htr & Hlen).
  destruct Hh as (mid & Hmid & Hall & Hreg).
  exists (EvCleanup a :: reverse (EvCleanup <$> cleaned) ++ mid).
  split_and!.
  - rewrite Htr, Hmid. simpl. by rewrite <- app_assoc.
  - intros Hin. apply elem_of_cons in Hin as [?|Hin]; [done|].
    apply elem_of_app in Hin as [Hin|Hin].
    + by apply elem_of_cleanups_inv in Hin as (b & ? & _).
    + by apply (not_shutdown_elem _ _ Hall) in Hin.
  - right. exists a, cleaned, mid. split_and!; [done| |by rewrite <- Hreg].
    intros b Hin. by apply (not_shutdown_elem _ _ Hall) in Hin.
Qed.
End RunRaises.

Definition escaped_world : World :=
  res_world (run braces_oracle one_planner_graph false zero_state 12 mission_world).

Lemma run_raises_without_shutdown_witness :
  run braces_oracle one_planner_graph false zero_state 12 mission_world
  = Raise format_error escaped_world ∧
  ∃ tr, w_trace escaped_world = tr ++ w_trace mission_world ∧ (EvLogClose ∉ tr) ∧
        ((∀ a, EvCleanup a ∉ tr) ∨
         ∃ a cleaned rest, tr = EvCleanup a :: reverse (EvCleanup <$> cleaned) ++ rest ∧
                           (∀ b, EvCleanup b ∉ rest) ∧
                           length cleaned < length (all_components mission_world)).
Proof.
  assert (H : run braces_oracle one_planner_graph false zero_state 12 mission_world
              = Raise format_error escaped_world) by (vm_compute; reflexivity).
  split; [exact H|].
  exact (run_raises_without_shutdown braces_oracle one_planner_graph false zero_state 12
           mission_world format_error escaped_world H).
Defined.
